(** * WordJam: the grid / word-state engine of wordslide.online

    A shallow embedding of the [Dictionary] class (dictionary.js) and of the
    [WordJamGame] class (game.js, the variant that reads the daily words
    from Firebase and persists found words in [localStorage]).

    Conventions of the embedding:
    - JavaScript strings are [string]; the model covers ASCII text, where
      [toUpperCase] maps a-z to A-Z and keeps every other code unit.
    - A grid cell is one character ([ascii]); the empty marker is the space.
    - [this.letters] is a list of rows, [this.selectedColumnIndices] a list
      of integers ([Z], because the code itself guards against negative
      indices).
    - A JavaScript [Set] that is only queried with [has] is a [gset]; the
      dictionary's per-length sets are turned into arrays, so they are
      insertion-ordered duplicate-free lists.
    - [localStorage] is a finite map from keys to strings.
    - [Math.random] is an explicit sequence of draws.
    - Counters are unbounded naturals (the code's doubles are exact far
      beyond any reachable count).
    - DOM rendering and the drag gesture arrays are not part of the state. *)

From Stdlib Require Import ZArith Ascii String.
From stdpp Require Import base option list gmap strings pretty sorting.

Open Scope Z_scope.

(** ** JavaScript strings and arrays *)

(** The double quote, and a text between double quotes. *)
Definition DQUOTE : ascii := "034"%char.

Definition quoted (s : string) : string :=
  String DQUOTE (s +:+ String DQUOTE EmptyString).

(** [String.prototype.toUpperCase] on ASCII text. *)
Definition toUpperChar (c : ascii) : ascii :=
  let n := nat_of_ascii c in
  if ((97 <=? n) && (n <=? 122))%nat then ascii_of_nat (n - 32) else c.

Fixpoint toUpperCase (s : string) : string :=
  match s with
  | EmptyString => EmptyString
  | String c s' => String (toUpperChar c) (toUpperCase s')
  end.

(** White space as [String.prototype.trim] sees it in ASCII: TAB, LF, VT,
    FF, CR and the space. *)
Definition isWhiteSpace (c : ascii) : bool :=
  let n := nat_of_ascii c in
  (((9 <=? n) && (n <=? 13)) || (n =? 32))%nat.

Fixpoint trimStart (s : list ascii) : list ascii :=
  match s with
  | c :: s' => if isWhiteSpace c then trimStart s' else s
  | [] => []
  end.

Definition trim (s : string) : string :=
  string_of_list_ascii
    (reverse (trimStart (reverse (trimStart (list_ascii_of_string s))))).

(** [text.split('\n')]: the pieces between line feeds, at least one. *)
Fixpoint splitLines (s : string) : list string :=
  match s with
  | EmptyString => [EmptyString]
  | String c s' =>
      if Ascii.eqb c "010" then EmptyString :: splitLines s'
      else match splitLines s' with
           | piece :: pieces => String c piece :: pieces
           | [] => [String c EmptyString]
           end
  end.

(** The default order of [Array.prototype.sort]: code units, left to
    right, a proper prefix first. *)
Definition strLe (a b : string) : Prop := String.leb a b = true.

#[global] Instance strLe_dec a b : Decision (strLe a b).
Proof. unfold strLe. apply _. Defined.

(** [Array.prototype.sort()] on strings. The order is total and
    antisymmetric, so every sorting algorithm returns the same array. *)
Definition sort (l : list string) : list string := merge_sort strLe l.

(** [array.join(sep)] *)
Definition join (sep : string) (l : list string) : string := String.concat sep l.

(** [Number.prototype.toString] of a count. *)
Definition toString (n : nat) : string := pretty n.

(** ** Math.random *)

(** The next value of [Math.floor(Math.random() * bound)] and the draws
    left. Any natural stands for a draw; it is read modulo the bound. *)
Definition nextRandom (bound : nat) (draws : list nat) : nat * list nat :=
  match draws with
  | x :: draws' => ((x mod bound)%nat, draws')
  | [] => (0%nat, [])
  end.

(** [[a[i], a[j]] = [a[j], a[i]]] *)
Definition swap {A} (a : list A) (i j : nat) : list A :=
  match a !! i, a !! j with
  | Some x, Some y => <[i := y]> (<[j := x]> a)
  | _, _ => a
  end.

(** The loop of [shuffleArray], [i] running down to 1. *)
Fixpoint shuffleFrom {A} (i : nat) (draws : list nat) (shuffled : list A)
  : list A * list nat :=
  match i with
  | O => (shuffled, draws)
  | S i' =>
      let '(j, draws') := nextRandom (i + 1) draws in
      shuffleFrom i' draws' (swap shuffled i j)
  end.

(** [shuffleArray(array)] *)
Definition shuffleArray {A} (draws : list nat) (array : list A) : list A * list nat :=
  shuffleFrom (length array - 1) draws array.

(** ** Dictionary (dictionary.js) *)

(** [set.add(word)] on an insertion-ordered set. *)
Definition setAdd (word : string) (words : list string) : list string :=
  if decide (word ∈ words) then words else words ++ [word].

Record Dictionary := mkDictionary {
  wordsByLength : gmap nat (list string);
  loaded : bool
}.

(** [new Dictionary()] *)
Definition newDictionary : Dictionary := mkDictionary ∅ false.

(** The body of the two indexing loops. *)
Definition indexWord (byLength : gmap nat (list string)) (word : string)
  : gmap nat (list string) :=
  let length := String.length word in
  let byLength :=
    if decide (is_Some (byLength !! length)) then byLength
    else <[length := []]> byLength in
  <[length := setAdd word (default [] (byLength !! length))]> byLength.

Definition fallbackWords : list string :=
  ["ANT"; "BAT"; "BEE"; "CAN"; "CAT"; "COG"; "COW"; "DOG"; "FLY"; "FOX";
   "BEAR"; "FROG"; "LION"; "WOLF";
   "EAGLE"; "MOUSE"; "SNAKE"; "TIGER";
   "BASKET"; "FRIEND"; "LAPTOP"; "MEMBER";
   "ELEPHANT"; "GIRAFFE"; "PENGUIN"; "DOLPHIN"]%string.

(** [_loadFallbackWords] *)
Definition loadFallbackWords (d : Dictionary) : Dictionary :=
  mkDictionary (foldl indexWord (wordsByLength d) fallbackWords) true.

(** [load]: [response] is the text of dictionary.txt, or [None] when the
    fetch fails or answers with an error status. *)
Definition load (response : option string) (d : Dictionary) : Dictionary :=
  if loaded d then d
  else match response with
       | Some text =>
           let words :=
             filter (λ word, (0 < String.length word)%nat)
                    ((λ word, toUpperCase (trim word)) <$> splitLines text) in
           mkDictionary (foldl indexWord (wordsByLength d) words) true
       | None => loadFallbackWords d
       end.

(** [wordsOfLength] *)
Definition wordsOfLength (d : Dictionary) (length : nat) : list string :=
  match wordsByLength d !! length with
  | Some words => words
  | None => []
  end.

(** [isValidWord] *)
Definition isValidWord (d : Dictionary) (word : string) : bool :=
  if decide (String.length word = 0%nat) then false
  else
    let uppercaseWord := toUpperCase word in
    match wordsByLength d !! String.length uppercaseWord with
    | Some words => bool_decide (uppercaseWord ∈ words)
    | None => false
    end.

(** [randomWord]; [None] is [null]. *)
Definition randomWord (d : Dictionary) (draws : list nat) (length : nat)
  : option string * list nat :=
  let words := wordsOfLength d length in
  if decide (List.length words = 0%nat) then (None, draws)
  else let '(k, draws') := nextRandom (List.length words) draws in
       (words !! k, draws').

(** ** JSON

    The values [JSON.parse] can return and [JSON.stringify] can print,
    without numbers: the game stores none, and a text that holds one is
    [Unsupported] here, as is a [\u] escape beyond code unit 255. *)

#[warnings="-register-all"]
Inductive json :=
| JNull
| JBool (b : bool)
| JString (s : string)
| JArray (items : list json)
| JObject (members : list (string * json)).

(** The outcome of [JSON.parse]: a value, a thrown [SyntaxError], or a
    text outside the modelled fragment. *)
Inductive parsed (A : Type) :=
| Parsed (a : A)
| SyntaxError
| Unsupported.
Arguments Parsed {A} a.
Arguments SyntaxError {A}.
Arguments Unsupported {A}.

Definition parsedBind {A B} (p : parsed A) (k : A → parsed B) : parsed B :=
  match p with
  | Parsed a => k a
  | SyntaxError => SyntaxError
  | Unsupported => Unsupported
  end.

Definition hexDigit (n : nat) : ascii :=
  if (n <? 10)%nat then ascii_of_nat (48 + n) else ascii_of_nat (87 + n).

Definition hexValue (c : ascii) : option nat :=
  let n := nat_of_ascii c in
  if ((48 <=? n) && (n <=? 57))%nat then Some (n - 48)%nat
  else if ((97 <=? n) && (n <=? 102))%nat then Some (n - 87)%nat
  else if ((65 <=? n) && (n <=? 70))%nat then Some (n - 55)%nat
  else None.

(** How [JSON.stringify] writes one code unit of a string. *)
Definition escapeChar (c : ascii) : list ascii :=
  let n := nat_of_ascii c in
  if Ascii.eqb c DQUOTE then ["\"%char; DQUOTE]
  else if Ascii.eqb c "\" then ["\"; "\"]%char
  else if (n =? 8)%nat then ["\"; "b"]%char
  else if (n =? 9)%nat then ["\"; "t"]%char
  else if (n =? 10)%nat then ["\"; "n"]%char
  else if (n =? 12)%nat then ["\"; "f"]%char
  else if (n =? 13)%nat then ["\"; "r"]%char
  else if (n <? 32)%nat
       then ["\"; "u"; "0"; "0"; hexDigit (n / 16); hexDigit (n mod 16)]%char
       else [c].

Definition quote (s : string) : list ascii :=
  (DQUOTE :: flat_map escapeChar (list_ascii_of_string s)) ++ [DQUOTE].

Fixpoint joinChars (sep : ascii) (pieces : list (list ascii)) : list ascii :=
  match pieces with
  | [] => []
  | [piece] => piece
  | piece :: pieces' => piece ++ sep :: joinChars sep pieces'
  end.

Fixpoint stringifyValue (v : json) : list ascii :=
  match v with
  | JNull => list_ascii_of_string "null"
  | JBool true => list_ascii_of_string "true"
  | JBool false => list_ascii_of_string "false"
  | JString s => quote s
  | JArray items =>
      ("["%char :: joinChars "," (List.map stringifyValue items)) ++ ["]"%char]
  | JObject members =>
      ("{"%char :: joinChars ","
                (List.map (λ m : string * json,
                             quote (fst m) ++ ":"%char :: stringifyValue (snd m))
                          members)) ++ ["}"%char]
  end.

(** [JSON.stringify(value)] *)
Definition JSON_stringify (v : json) : string :=
  string_of_list_ascii (stringifyValue v).

Definition isJsonSpace (c : ascii) : bool :=
  let n := nat_of_ascii c in
  ((n =? 32) || (n =? 9) || (n =? 10) || (n =? 13))%nat.

Fixpoint skipSpace (s : list ascii) : list ascii :=
  match s with
  | c :: s' => if isJsonSpace c then skipSpace s' else s
  | [] => []
  end.

Definition consChar (c : ascii) (p : parsed (list ascii * list ascii))
  : parsed (list ascii * list ascii) :=
  parsedBind p (λ r, Parsed (c :: fst r, snd r)).

(** The code units of a string after its opening quote, and the text
    after its closing quote. *)
Fixpoint parseChars (s : list ascii) : parsed (list ascii * list ascii) :=
  match s with
  | [] => SyntaxError
  | c :: rest =>
      if Ascii.eqb c DQUOTE then Parsed ([], rest)
      else if Ascii.eqb c "\" then
        match rest with
        | [] => SyntaxError
        | e :: rest' =>
            if Ascii.eqb e DQUOTE then consChar DQUOTE (parseChars rest')
            else if Ascii.eqb e "\" then consChar "\" (parseChars rest')
            else if Ascii.eqb e "/" then consChar "/" (parseChars rest')
            else if Ascii.eqb e "b" then consChar "008" (parseChars rest')
            else if Ascii.eqb e "f" then consChar "012" (parseChars rest')
            else if Ascii.eqb e "n" then consChar "010" (parseChars rest')
            else if Ascii.eqb e "r" then consChar "013" (parseChars rest')
            else if Ascii.eqb e "t" then consChar "009" (parseChars rest')
            else if Ascii.eqb e "u" then
              match rest' with
              | h1 :: h2 :: h3 :: h4 :: rest'' =>
                  match hexValue h1, hexValue h2, hexValue h3, hexValue h4 with
                  | Some a, Some b, Some c, Some d =>
                      if ((a =? 0) && (b =? 0))%nat
                      then consChar (ascii_of_nat (16 * c + d)) (parseChars rest'')
                      else Unsupported
                  | _, _, _, _ => SyntaxError
                  end
              | _ => SyntaxError
              end
            else SyntaxError
        end
      else if (nat_of_ascii c <? 32)%nat then SyntaxError
      else consChar c (parseChars rest)
  end.

Definition startsNumber (c : ascii) : bool :=
  let n := nat_of_ascii c in
  ((n =? 45) || ((48 <=? n) && (n <=? 57)))%nat.

Definition parseLiteral (word : string) (v : json) (s : list ascii)
  : parsed (json * list ascii) :=
  let w := list_ascii_of_string word in
  if decide (take (length w) s = w) then Parsed (v, drop (length w) s)
  else SyntaxError.

(** Recursive descent; the fuel bounds the number of nested calls. *)
Fixpoint parseValue (fuel : nat) (s : list ascii) : parsed (json * list ascii) :=
  match fuel with
  | O => Unsupported
  | S fuel =>
      match skipSpace s with
      | [] => SyntaxError
      | c :: rest =>
          if Ascii.eqb c DQUOTE then
            parsedBind (parseChars rest)
              (λ r, Parsed (JString (string_of_list_ascii (fst r)), snd r))
          else if Ascii.eqb c "[" then
            match skipSpace rest with
            | "]"%char :: rest' => Parsed (JArray [], rest')
            | _ => parsedBind (parseElements fuel rest)
                     (λ r, Parsed (JArray (fst r), snd r))
            end
          else if Ascii.eqb c "{" then
            match skipSpace rest with
            | "}"%char :: rest' => Parsed (JObject [], rest')
            | _ => parsedBind (parseMembers fuel rest)
                     (λ r, Parsed (JObject (fst r), snd r))
            end
          else if Ascii.eqb c "n" then parseLiteral "null" JNull (c :: rest)
          else if Ascii.eqb c "t" then parseLiteral "true" (JBool true) (c :: rest)
          else if Ascii.eqb c "f" then parseLiteral "false" (JBool false) (c :: rest)
          else if startsNumber c then Unsupported
          else SyntaxError
      end
  end
with parseElements (fuel : nat) (s : list ascii)
  : parsed (list json * list ascii) :=
  match fuel with
  | O => Unsupported
  | S fuel =>
      parsedBind (parseValue fuel s) (λ r,
        match skipSpace (snd r) with
        | c :: rest =>
            if Ascii.eqb c "," then
              parsedBind (parseElements fuel rest)
                (λ r', Parsed (fst r :: fst r', snd r'))
            else if Ascii.eqb c "]" then Parsed ([fst r], rest)
            else SyntaxError
        | [] => SyntaxError
        end)
  end
with parseMembers (fuel : nat) (s : list ascii)
  : parsed (list (string * json) * list ascii) :=
  match fuel with
  | O => Unsupported
  | S fuel =>
      match skipSpace s with
      | c :: rest =>
          if Ascii.eqb c DQUOTE then
            parsedBind (parseChars rest) (λ k,
              match skipSpace (snd k) with
              | c2 :: rest2 =>
                  if Ascii.eqb c2 ":" then
                    parsedBind (parseValue fuel rest2) (λ r,
                      let member := (string_of_list_ascii (fst k), fst r) in
                      match skipSpace (snd r) with
                      | c3 :: rest3 =>
                          if Ascii.eqb c3 "," then
                            parsedBind (parseMembers fuel rest3)
                              (λ r', Parsed (member :: fst r', snd r'))
                          else if Ascii.eqb c3 "}" then Parsed ([member], rest3)
                          else SyntaxError
                      | [] => SyntaxError
                      end)
                  else SyntaxError
              | [] => SyntaxError
              end)
          else SyntaxError
      | [] => SyntaxError
      end
  end.

(** [JSON.parse(text)] *)
Definition JSON_parse (text : string) : parsed json :=
  let s := list_ascii_of_string text in
  parsedBind (parseValue (2 * length s + 2) s) (λ r,
    match skipSpace (snd r) with
    | [] => Parsed (fst r)
    | _ :: _ => SyntaxError
    end).

(** Truthiness of a parsed value. *)
Definition truthy (v : json) : bool :=
  match v with
  | JNull => false
  | JBool b => b
  | JString s => negb (String.eqb s "")
  | JArray _ | JObject _ => true
  end.

(** [object.name] on a parsed object: the last member of that name. *)
Fixpoint getMember (name : string) (members : list (string * json)) : option json :=
  match members with
  | [] => None
  | (k, v) :: members' =>
      match getMember name members' with
      | Some v' => Some v'
      | None => if String.eqb k name then Some v else None
      end
  end.

(** ** Game state *)

Inductive ResultType := info | success | error.

#[global] Instance ResultType_eq_dec : EqDecision ResultType.
Proof. solve_decision. Defined.

Record State := mkState {
  (* Game state *)
  lives : nat;
  coins : nat;
  currentLevelNumber : nat;
  currentWordLength : nat;
  wordsNeededForProgression : nat;
  foundWords : list string;
  foundWordsSet : gset string;
  otherFoundWords : list string;
  otherFoundWordsSet : gset string;
  totalWordsFoundInSession : nat;
  highscore : option Z;            (* [None] is NaN, as [parseInt] may give *)
  resetCount : nat;
  (* Grid state *)
  letters : list (list ascii);
  selectedColumnIndices : list Z;
  currentLevelWords : list string;
  (* Result message: [this.result] and the class put on the banner *)
  result : string;
  resultType : ResultType;
  (* Game over state *)
  showGameOver : bool;
  (* Browser *)
  localStorage : gmap string string;
  location : string                (* [window.location.href] *)
}.

Definition set_coins v st := mkState (lives st) v (currentLevelNumber st) (currentWordLength st) (wordsNeededForProgression st) (foundWords st) (foundWordsSet st) (otherFoundWords st) (otherFoundWordsSet st) (totalWordsFoundInSession st) (highscore st) (resetCount st) (letters st) (selectedColumnIndices st) (currentLevelWords st) (result st) (resultType st) (showGameOver st) (localStorage st) (location st).
Definition set_currentLevelNumber v st := mkState (lives st) (coins st) v (currentWordLength st) (wordsNeededForProgression st) (foundWords st) (foundWordsSet st) (otherFoundWords st) (otherFoundWordsSet st) (totalWordsFoundInSession st) (highscore st) (resetCount st) (letters st) (selectedColumnIndices st) (currentLevelWords st) (result st) (resultType st) (showGameOver st) (localStorage st) (location st).
Definition set_currentWordLength v st := mkState (lives st) (coins st) (currentLevelNumber st) v (wordsNeededForProgression st) (foundWords st) (foundWordsSet st) (otherFoundWords st) (otherFoundWordsSet st) (totalWordsFoundInSession st) (highscore st) (resetCount st) (letters st) (selectedColumnIndices st) (currentLevelWords st) (result st) (resultType st) (showGameOver st) (localStorage st) (location st).
Definition set_wordsNeededForProgression v st := mkState (lives st) (coins st) (currentLevelNumber st) (currentWordLength st) v (foundWords st) (foundWordsSet st) (otherFoundWords st) (otherFoundWordsSet st) (totalWordsFoundInSession st) (highscore st) (resetCount st) (letters st) (selectedColumnIndices st) (currentLevelWords st) (result st) (resultType st) (showGameOver st) (localStorage st) (location st).
Definition set_foundWords v st := mkState (lives st) (coins st) (currentLevelNumber st) (currentWordLength st) (wordsNeededForProgression st) v (foundWordsSet st) (otherFoundWords st) (otherFoundWordsSet st) (totalWordsFoundInSession st) (highscore st) (resetCount st) (letters st) (selectedColumnIndices st) (currentLevelWords st) (result st) (resultType st) (showGameOver st) (localStorage st) (location st).
Definition set_foundWordsSet v st := mkState (lives st) (coins st) (currentLevelNumber st) (currentWordLength st) (wordsNeededForProgression st) (foundWords st) v (otherFoundWords st) (otherFoundWordsSet st) (totalWordsFoundInSession st) (highscore st) (resetCount st) (letters st) (selectedColumnIndices st) (currentLevelWords st) (result st) (resultType st) (showGameOver st) (localStorage st) (location st).
Definition set_otherFoundWords v st := mkState (lives st) (coins st) (currentLevelNumber st) (currentWordLength st) (wordsNeededForProgression st) (foundWords st) (foundWordsSet st) v (otherFoundWordsSet st) (totalWordsFoundInSession st) (highscore st) (resetCount st) (letters st) (selectedColumnIndices st) (currentLevelWords st) (result st) (resultType st) (showGameOver st) (localStorage st) (location st).
Definition set_otherFoundWordsSet v st := mkState (lives st) (coins st) (currentLevelNumber st) (currentWordLength st) (wordsNeededForProgression st) (foundWords st) (foundWordsSet st) (otherFoundWords st) v (totalWordsFoundInSession st) (highscore st) (resetCount st) (letters st) (selectedColumnIndices st) (currentLevelWords st) (result st) (resultType st) (showGameOver st) (localStorage st) (location st).
Definition set_totalWordsFoundInSession v st := mkState (lives st) (coins st) (currentLevelNumber st) (currentWordLength st) (wordsNeededForProgression st) (foundWords st) (foundWordsSet st) (otherFoundWords st) (otherFoundWordsSet st) v (highscore st) (resetCount st) (letters st) (selectedColumnIndices st) (currentLevelWords st) (result st) (resultType st) (showGameOver st) (localStorage st) (location st).
Definition set_highscore v st := mkState (lives st) (coins st) (currentLevelNumber st) (currentWordLength st) (wordsNeededForProgression st) (foundWords st) (foundWordsSet st) (otherFoundWords st) (otherFoundWordsSet st) (totalWordsFoundInSession st) v (resetCount st) (letters st) (selectedColumnIndices st) (currentLevelWords st) (result st) (resultType st) (showGameOver st) (localStorage st) (location st).
Definition set_resetCount v st := mkState (lives st) (coins st) (currentLevelNumber st) (currentWordLength st) (wordsNeededForProgression st) (foundWords st) (foundWordsSet st) (otherFoundWords st) (otherFoundWordsSet st) (totalWordsFoundInSession st) (highscore st) v (letters st) (selectedColumnIndices st) (currentLevelWords st) (result st) (resultType st) (showGameOver st) (localStorage st) (location st).
Definition set_letters v st := mkState (lives st) (coins st) (currentLevelNumber st) (currentWordLength st) (wordsNeededForProgression st) (foundWords st) (foundWordsSet st) (otherFoundWords st) (otherFoundWordsSet st) (totalWordsFoundInSession st) (highscore st) (resetCount st) v (selectedColumnIndices st) (currentLevelWords st) (result st) (resultType st) (showGameOver st) (localStorage st) (location st).
Definition set_selectedColumnIndices v st := mkState (lives st) (coins st) (currentLevelNumber st) (currentWordLength st) (wordsNeededForProgression st) (foundWords st) (foundWordsSet st) (otherFoundWords st) (otherFoundWordsSet st) (totalWordsFoundInSession st) (highscore st) (resetCount st) (letters st) v (currentLevelWords st) (result st) (resultType st) (showGameOver st) (localStorage st) (location st).
Definition set_currentLevelWords v st := mkState (lives st) (coins st) (currentLevelNumber st) (currentWordLength st) (wordsNeededForProgression st) (foundWords st) (foundWordsSet st) (otherFoundWords st) (otherFoundWordsSet st) (totalWordsFoundInSession st) (highscore st) (resetCount st) (letters st) (selectedColumnIndices st) v (result st) (resultType st) (showGameOver st) (localStorage st) (location st).
Definition set_showGameOver v st := mkState (lives st) (coins st) (currentLevelNumber st) (currentWordLength st) (wordsNeededForProgression st) (foundWords st) (foundWordsSet st) (otherFoundWords st) (otherFoundWordsSet st) (totalWordsFoundInSession st) (highscore st) (resetCount st) (letters st) (selectedColumnIndices st) (currentLevelWords st) (result st) (resultType st) v (localStorage st) (location st).
Definition set_localStorage v st := mkState (lives st) (coins st) (currentLevelNumber st) (currentWordLength st) (wordsNeededForProgression st) (foundWords st) (foundWordsSet st) (otherFoundWords st) (otherFoundWordsSet st) (totalWordsFoundInSession st) (highscore st) (resetCount st) (letters st) (selectedColumnIndices st) (currentLevelWords st) (result st) (resultType st) (showGameOver st) v (location st).
Definition set_location v st := mkState (lives st) (coins st) (currentLevelNumber st) (currentWordLength st) (wordsNeededForProgression st) (foundWords st) (foundWordsSet st) (otherFoundWords st) (otherFoundWordsSet st) (totalWordsFoundInSession st) (highscore st) (resetCount st) (letters st) (selectedColumnIndices st) (currentLevelWords st) (result st) (resultType st) (showGameOver st) (localStorage st) v.
Definition set_lives v st := mkState v (coins st) (currentLevelNumber st) (currentWordLength st) (wordsNeededForProgression st) (foundWords st) (foundWordsSet st) (otherFoundWords st) (otherFoundWordsSet st) (totalWordsFoundInSession st) (highscore st) (resetCount st) (letters st) (selectedColumnIndices st) (currentLevelWords st) (result st) (resultType st) (showGameOver st) (localStorage st) (location st).

Definition set_result v st := mkState (lives st) (coins st) (currentLevelNumber st) (currentWordLength st) (wordsNeededForProgression st) (foundWords st) (foundWordsSet st) (otherFoundWords st) (otherFoundWordsSet st) (totalWordsFoundInSession st) (highscore st) (resetCount st) (letters st) (selectedColumnIndices st) (currentLevelWords st) v (resultType st) (showGameOver st) (localStorage st) (location st).
Definition set_resultType v st := mkState (lives st) (coins st) (currentLevelNumber st) (currentWordLength st) (wordsNeededForProgression st) (foundWords st) (foundWordsSet st) (otherFoundWords st) (otherFoundWordsSet st) (totalWordsFoundInSession st) (highscore st) (resetCount st) (letters st) (selectedColumnIndices st) (currentLevelWords st) (result st) v (showGameOver st) (localStorage st) (location st).

(** [showResult(message, type)]: the banner timer is presentation only. *)
Definition showResult (message : string) (type : ResultType) (st : State) : State :=
  set_resultType type (set_result message st).

(** ** Grid engine *)

(** The empty marker [' ']. *)
Definition EMPTY : ascii := " "%char.

(** [col >= 0 && col < row.length] *)
Definition inRow (col : Z) (row : list ascii) : bool :=
  (0 <=? col) && (col <? Z.of_nat (length row)).

(** [initializeSelection]: the centre column of every row, 0 for an empty
    row. *)
Definition initializeSelection (st : State) : State :=
  set_selectedColumnIndices
    ((λ row : list ascii,
        if decide (0 < length row)%nat then Z.of_nat (length row / 2) else 0)
       <$> letters st) st.

(** The cell a row's selection points at, when the guard of
    [buildWordFromSelection] lets it through. *)
Definition selectedCell (ls : list (list ascii)) (row : nat) (col : Z) : option ascii :=
  match ls !! row with
  | Some r => if inRow col r then r !! Z.to_nat col else None
  | None => None
  end.

(** [buildWordFromSelection]: the selected letter of every row, in order,
    skipping cells that hold the empty marker. *)
Definition buildWordFromSelection (st : State) : string :=
  string_of_list_ascii
    (omap (λ c : option ascii,
             match c with
             | Some letter => if decide (letter ≠ EMPTY) then Some letter else None
             | None => None
             end)
          (imap (selectedCell (letters st)) (selectedColumnIndices st))).

(** [validateAndFixIndices] *)
Definition fixIndex (ls : list (list ascii)) (row : nat) (currentIndex : Z) : Z :=
  match ls !! row with
  | None => 0
  | Some r =>
      if currentIndex <? 0 then 0
      else if currentIndex >=? Z.of_nat (length r)
           then Z.max 0 (Z.of_nat (length r) - 1)
           else currentIndex
  end.

Definition validateAndFixIndices (st : State) : State :=
  let sel := selectedColumnIndices st in
  (* while (sel.length < letters.length) sel.push(0) *)
  let sel := sel ++ replicate (length (letters st) - length sel) 0 in
  set_selectedColumnIndices (imap (fixIndex (letters st)) sel) st.

(** [cleanUpGrid] *)
Definition padRow (maxLength : nat) (row : list ascii) : list ascii :=
  row ++ replicate (maxLength - length row) EMPTY.

(** Rows without their empty markers, rows left with no cell dropped. *)
Definition stripRows (ls : list (list ascii)) : list (list ascii) :=
  (* remove the empty marker from each row *)
  let ls := filter (λ letter, letter ≠ EMPTY) <$> ls in
  (* remove empty rows *)
  filter (λ row : list ascii, (0 < length row)%nat) ls.

Definition compact (ls : list (list ascii)) : list (list ascii) :=
  let ls := stripRows ls in
  (* pad to the longest row: Math.max(...lengths, 0) *)
  let maxLength := max_list (length <$> ls) in
  if decide (0 < maxLength)%nat then padRow maxLength <$> ls else ls.

Definition cleanUpGrid (st : State) : State :=
  validateAndFixIndices (set_letters (compact (letters st)) st).

(** [removeUsedLetters]: blank the selected cell of every row that has one,
    then clean up. *)
Definition markUsed (sel : list Z) (row : nat) (r : list ascii) : list ascii :=
  match sel !! row with
  | Some col => if inRow col r then <[Z.to_nat col := EMPTY]> r else r
  | None => r
  end.

Definition removeUsedLetters (st : State) : State :=
  cleanUpGrid (set_letters (imap (markUsed (selectedColumnIndices st)) (letters st)) st).

(** [autoAdvanceSelection] *)
Definition advanceIndex (ls : list (list ascii)) (row : nat) (currentIndex : Z) : Z :=
  match ls !! row with
  | None => currentIndex
  | Some r =>
      if currentIndex >=? Z.of_nat (length r) then
        let newIndex := Z.max 0 (currentIndex - 1) in
        if newIndex <? Z.of_nat (length r) then newIndex else currentIndex
      else currentIndex
  end.

Definition autoAdvanceSelection (st : State) : State :=
  validateAndFixIndices
    (set_selectedColumnIndices
       (imap (advanceIndex (letters st)) (selectedColumnIndices st)) st).

(** [isGridEmpty] *)
Definition isGridEmpty (st : State) : bool :=
  bool_decide (length (letters st) = 0%nat)
  || forallb (forallb (λ letter, bool_decide (letter = EMPTY))) (letters st).

(** ** Found words and their persistence *)

Definition COINS_PER_WORD : nat := 10.

(** [currentLevelWords.some(levelWord => levelWord.toUpperCase() === wordUpper)] *)
Definition matchesLevelWord (levelWords : list string) (wordUpper : string) : bool :=
  existsb (λ levelWord, String.eqb (toUpperCase levelWord) wordUpper) levelWords.

(** [getFoundWordsStorageKey] *)
Definition getFoundWordsStorageKey (st : State) : string :=
  if decide (currentLevelWords st = []) then "wordjam_foundWords_default"%string
  else
    let sortedWords := join "," (sort (currentLevelWords st)) in
    ("wordjam_foundWords_" +:+ sortedWords)%string.

(** The object [saveFoundWords] serialises. *)
Definition foundWordsRecord (levelWords otherWords : list string) : json :=
  JObject [("levelWords"%string, JArray (JString <$> levelWords));
           ("otherWords"%string, JArray (JString <$> otherWords))].

(** [saveFoundWords] *)
Definition saveFoundWords (st : State) : State :=
  let key := getFoundWordsStorageKey st in
  let data := foundWordsRecord (foundWords st) (otherFoundWords st) in
  set_localStorage (<[key := JSON_stringify data]> (localStorage st)) st.

(** Both arrays replaced, both sets rebuilt from them. *)
Definition setFoundWords (levelWords otherWords : list string) (st : State) : State :=
  set_otherFoundWordsSet (list_to_set otherWords)
    (set_foundWordsSet (list_to_set levelWords)
       (set_otherFoundWords otherWords (set_foundWords levelWords st))).

(** What the [try] block of [loadFoundWords] comes to: it assigns the two
    arrays, it throws (and the [catch] empties them), or it keeps a value
    that is no array of strings, which the state cannot hold. *)
Inductive tried (A : Type) :=
| Assigned (a : A)
| Threw
| Outside.
Arguments Assigned {A} a.
Arguments Threw {A}.
Arguments Outside {A}.

Definition asString (v : json) : option string :=
  match v with
  | JString s => Some s
  | _ => None
  end.

(** [data.filter(word => this.currentLevelWords.some(levelWord =>
    levelWord.toUpperCase() === word.toUpperCase()))]; [None] is the
    [TypeError] of [word.toUpperCase] on an entry that is no string, which
    needs a level word for the callback of [some] to run. *)
Definition filterLevelWords (levelWords : list string) (data : list json)
  : option (list string) :=
  if decide (levelWords = []) then Some []
  else
    words ← mapM asString data;
    Some (filter (λ word, matchesLevelWord levelWords (toUpperCase word) = true) words).

(** [value || []] *)
Definition orEmptyArray (value : option json) : json :=
  match value with
  | Some v => if truthy v then v else JArray []
  | None => JArray []
  end.

Definition readFoundWords (levelWords : list string) (data : json)
  : tried (list string * list string) :=
  match data with
  | JArray items =>
      (* old format *)
      match filterLevelWords levelWords items with
      | Some found => Assigned (found, [])
      | None => Threw
      end
  | JNull => Threw                        (* data.levelWords on null *)
  | JBool _ | JString _ => Assigned ([], [])  (* both members undefined *)
  | JObject members =>
      let loadedLevelWords := orEmptyArray (getMember "levelWords" members) in
      let loadedOtherWords := orEmptyArray (getMember "otherWords" members) in
      match loadedLevelWords with
      | JArray items =>
          match filterLevelWords levelWords items with
          | Some found =>
              match loadedOtherWords with
              | JArray others =>
                  match mapM asString others with
                  | Some other => Assigned (found, other)
                  | None => Outside
                  end
              | JString _ => Outside
              | _ => Threw                (* new Set(...) of a non-iterable *)
              end
          | None => Threw
          end
      | _ => Threw                        (* no filter method *)
      end
  end.

(** [loadFoundWords]; [None] when the stored text leaves the model. *)
Definition loadFoundWords (st : State) : option State :=
  let key := getFoundWordsStorageKey st in
  match localStorage st !! key with
  | Some saved =>
      if String.eqb saved "" then Some (setFoundWords [] [] st)
      else
        match JSON_parse saved with
        | Parsed data =>
            match readFoundWords (currentLevelWords st) data with
            | Assigned (found, other) => Some (setFoundWords found other st)
            | Threw => Some (setFoundWords [] [] st)
            | Outside => None
            end
        | SyntaxError => Some (setFoundWords [] [] st)
        | Unsupported => None
        end
  | None => Some (setFoundWords [] [] st)
  end.

(** [saveHighscore] *)
Definition saveHighscore (st : State) : State :=
  match highscore st with
  | Some h => set_localStorage (<["wordjam_highscore"%string := pretty h]> (localStorage st)) st
  | None => set_localStorage (<["wordjam_highscore"%string := "NaN"%string]> (localStorage st)) st
  end.

(** ** Level generation *)

Fixpoint shuffleRows (draws : list nat) (grid : list (list ascii))
  : list (list ascii) * list nat :=
  match grid with
  | [] => ([], draws)
  | row :: rows =>
      let '(row', draws') := shuffleArray draws row in
      let '(rows', draws'') := shuffleRows draws' rows in
      (row' :: rows', draws'')
  end.

(** [generateLettersGrid]; [None] is the [RangeError] of
    [Array(Math.max())] on an empty word list. *)
Definition generateLettersGrid (draws : list nat) (validWords : list string)
  : option (list (list ascii) * list nat) :=
  if decide (validWords = []) then None
  else
    let maxLength := max_list (String.length <$> validWords) in
    let grid :=
      (λ letterIndex,
         (λ word, match String.get letterIndex word with
                  | Some c => toUpperChar c
                  | None => EMPTY
                  end) <$> validWords) <$> seq 0 maxLength in
    Some (shuffleRows draws grid).

(** The fallback of [generateNewLevel] when Firebase gave no words. *)
Definition fallbackLevelWords (d : Dictionary) (draws : list nat)
  : list string * list nat :=
  let wordLength := 5%nat in
  let wordCount := 5%nat in
  let availableWords := wordsOfLength d wordLength in
  if decide (length availableWords < wordCount)%nat
  then (["CAT"; "DOG"; "BAT"; "HAT"; "MAT"]%string, draws)
  else
    let '(shuffled, draws') := shuffleArray draws availableWords in
    (take wordCount shuffled, draws').

(** The words [generateNewLevel] goes on with: the fetched ones unless
    there are none ([!words || words.length === 0]). *)
Definition chooseLevelWords (d : Dictionary) (fetched : option (list string))
    (draws : list nat) : list string * list nat :=
  match fetched with
  | Some (w :: ws) => (w :: ws, draws)
  | _ => fallbackLevelWords d draws
  end.

(** [generateNewLevel]. [fetched] is what [firebaseService.getTodaysWords]
    resolved to, [None] when it gave [null], failed, or is not there. *)
Definition generateNewLevel (d : Dictionary) (fetched : option (list string))
    (draws : list nat) (st : State) : option State :=
  let '(words, draws) := chooseLevelWords d fetched draws in
  let st := set_currentLevelWords (toUpperCase <$> words) st in
  let st :=
    set_currentWordLength
      (match currentLevelWords st with
       | w :: _ => if decide (w = EmptyString) then 5%nat else String.length w
       | [] => 5%nat
       end) st in
  let st := set_wordsNeededForProgression (length (currentLevelWords st)) st in
  grid ← generateLettersGrid draws (currentLevelWords st);
  let st := set_letters (fst grid) st in
  let st := initializeSelection st in
  st ← loadFoundWords st;
  Some (set_resetCount 1%nat st).

(** ** Submission and progression *)

(** [progressToNextLevel] *)
Definition progressToNextLevel (d : Dictionary) (fetched : option (list string))
    (draws : list nat) (st : State) : option State :=
  if decide (length (foundWords st) < wordsNeededForProgression st)%nat then
    Some (showResult
            ("Find at least " +:+ toString (wordsNeededForProgression st)
               +:+ " words to progress")%string info st)
  else
    let st :=
      match highscore st with
      | Some h =>
          if decide (h < Z.of_nat (totalWordsFoundInSession st))
          then saveHighscore
                 (set_highscore (Some (Z.of_nat (totalWordsFoundInSession st))) st)
          else st
      | None => st
      end in
    let st := set_currentLevelNumber (S (currentLevelNumber st)) st in
    st ← generateNewLevel d fetched draws st;
    Some (showResult
            ("Level " +:+ toString (currentLevelNumber st) +:+ " - Find "
               +:+ toString (wordsNeededForProgression st) +:+ " words!")%string
            info st).

(** The two [localStorage.setItem] calls before the redirect. *)
Definition storeCompletion (st : State) : State :=
  set_localStorage
    (<["completedResetCount"%string := toString (resetCount st)]>
       (<["completedWords"%string := JSON_stringify (JArray (JString <$> foundWords st))]>
          (localStorage st))) st.

(** The bookkeeping of a valid word of the right length. *)
Definition recordWord (wordUpper : string) (st : State) : State :=
  let isLevelWord := matchesLevelWord (currentLevelWords st) wordUpper in
  if isLevelWord && negb (bool_decide (wordUpper ∈ foundWordsSet st)) then
    saveFoundWords
      (set_foundWordsSet ({[wordUpper]} ∪ foundWordsSet st)
         (set_foundWords (foundWords st ++ [wordUpper]) st))
  else if negb isLevelWord && negb (bool_decide (wordUpper ∈ otherFoundWordsSet st)) then
    saveFoundWords
      (set_otherFoundWordsSet ({[wordUpper]} ∪ otherFoundWordsSet st)
         (set_otherFoundWords (otherFoundWords st ++ [wordUpper]) st))
  else st.

(** [confirmWord]. The arguments after the dictionary are what the call of
    [progressToNextLevel] would consume. *)
Definition confirmWord (d : Dictionary) (fetched : option (list string))
    (draws : list nat) (st : State) : option State :=
  let word := buildWordFromSelection st in
  if decide (String.length word = 0%nat) then
    Some (showResult "Not a valid word" error st)
  else
    let isValid := isValidWord d word in
    let correctLength := bool_decide (String.length word = currentWordLength st) in
    if isValid && correctLength then
      let wordUpper := toUpperCase word in
      let st := recordWord wordUpper st in
      let st := set_totalWordsFoundInSession (S (totalWordsFoundInSession st)) st in
      let st := set_coins (coins st + COINS_PER_WORD)%nat st in
      let st := removeUsedLetters st in
      if decide (wordsNeededForProgression st ≤ length (foundWords st))%nat then
        Some (set_location "completion.html" (storeCompletion st))
      else if isGridEmpty st then
        progressToNextLevel d fetched draws st
      else
        let st := autoAdvanceSelection st in
        Some (showResult ("Found word " +:+ quoted (toUpperCase word))%string success st)
    else
      Some (showResult "Not a valid word." error st).

(** [checkAllWordsFound] *)
Definition checkAllWordsFound (st : State) : bool * State :=
  if decide (wordsNeededForProgression st ≤ length (foundWords st))%nat then
    let st :=
      set_localStorage
        (<["completedWords"%string := JSON_stringify (JArray (JString <$> foundWords st))]>
           (localStorage st)) st in
    let st :=
      match localStorage st !! "completedResetCount"%string with
      | Some saved =>
          if String.eqb saved "" then
            set_localStorage
              (<["completedResetCount"%string := toString (resetCount st)]> (localStorage st)) st
          else st
      | None =>
          set_localStorage
            (<["completedResetCount"%string := toString (resetCount st)]> (localStorage st)) st
      end in
    (true, set_location "completion.html" st)
  else (false, st).

(** [resetLevel] *)
Definition resetLevel (d : Dictionary) (fetched : option (list string))
    (draws : list nat) (st : State) : option State :=
  let st := set_resetCount (S (resetCount st)) st in
  st ← (if decide (currentLevelWords st = []) then generateNewLevel d fetched draws st
        else
          grid ← generateLettersGrid draws (currentLevelWords st);
          Some (initializeSelection (set_letters (fst grid) st)));
  Some (set_showGameOver false (set_result "" st)).

(** [restartGame] *)
Definition restartGame (d : Dictionary) (fetched : option (list string))
    (draws : list nat) (st : State) : option State :=
  let st := set_lives 3%nat st in
  let st := set_coins 0%nat st in
  let st := set_currentLevelNumber 1%nat st in
  let st := set_totalWordsFoundInSession 0%nat st in
  let st := set_resetCount 1%nat st in
  let st := setFoundWords [] [] st in
  let st := set_showGameOver false st in
  generateNewLevel d fetched draws st.

(** ** Start of a game *)

Definition isDigit (c : ascii) : bool :=
  let n := nat_of_ascii c in ((48 <=? n) && (n <=? 57))%nat.

Fixpoint digitsValue (acc : Z) (s : list ascii) : Z :=
  match s with
  | c :: s' =>
      if isDigit c then digitsValue (10 * acc + Z.of_nat (nat_of_ascii c - 48)) s'
      else acc
  | [] => acc
  end.

(** [parseInt(text, 10)]; [None] is NaN. *)
Definition parseInt10 (text : string) : option Z :=
  let s := trimStart (list_ascii_of_string text) in
  let signed :=
    match s with
    | "-"%char :: s' => (-1, s')
    | "+"%char :: s' => (1, s')
    | _ => (1, s)
    end in
  match snd signed with
  | c :: _ => if isDigit c then Some (fst signed * digitsValue 0 (snd signed)) else None
  | [] => None
  end.

(** [loadHighscore] *)
Definition loadHighscore (storage : gmap string string) : option Z :=
  match storage !! "wordjam_highscore"%string with
  | Some saved => if String.eqb saved "" then Some 0 else parseInt10 saved
  | None => Some 0
  end.

(** The constructor, up to its call of [init]; [storage] is what the
    browser holds. *)
Definition newWordJamGame (storage : gmap string string) : State :=
  {| lives := 3; coins := 0; currentLevelNumber := 1; currentWordLength := 5;
     wordsNeededForProgression := 5;
     foundWords := []; foundWordsSet := ∅;
     otherFoundWords := []; otherFoundWordsSet := ∅;
     totalWordsFoundInSession := 0;
     highscore := loadHighscore storage;
     resetCount := 0;
     letters := []; selectedColumnIndices := []; currentLevelWords := [];
     result := ""; resultType := info;
     showGameOver := false;
     localStorage := storage; location := "" |}.

(** [init]: the dictionary is loaded, the first level generated, and a
    level whose words were all found before goes to the completion page. *)
Definition init (response : option string) (fetched : option (list string))
    (draws : list nat) (game : Dictionary * State) : option (Dictionary * State) :=
  let d := load response (fst game) in
  st ← generateNewLevel d fetched draws (snd game);
  Some (d, snd (checkAllWordsFound st)).

(** * Specification predicates *)

(** What a row looks like once stripped: at least one cell, none empty. *)
Definition lettersOnly (r : list ascii) : Prop :=
  r ≠ [] ∧ Forall (λ c, c ≠ EMPTY) r.

(** All rows have the same length. *)
Definition rectangular (ls : list (list ascii)) : Prop :=
  ∀ r1 r2, r1 ∈ ls → r2 ∈ ls → length r1 = length r2.

(** No row consists of empty markers only (a row without cells would). *)
Definition noEmptyRow (ls : list (list ascii)) : Prop :=
  ∀ r, r ∈ ls → ¬ Forall (λ c, c = EMPTY) r.

(** Every row has a selection index: 0 for a row without cells, otherwise
    within [0, rowLength-1]. *)
Definition selectionValid (st : State) : Prop :=
  ∀ row r, letters st !! row = Some r →
    ∃ i, selectedColumnIndices st !! row = Some i ∧
         if decide (r = []) then i = 0
         else 0 ≤ i ≤ Z.of_nat (length r) - 1.

(** Every row's selected cell holds a letter. *)
Definition selectionOnLetters (st : State) : Prop :=
  ∀ row r i,
    letters st !! row = Some r → selectedColumnIndices st !! row = Some i →
    0 ≤ i ∧ ∃ c, r !! Z.to_nat i = Some c ∧ c ≠ EMPTY.

(** The number of letters a row holds. *)
Definition letterCount (r : list ascii) : nat :=
  length (filter (λ c, c ≠ EMPTY) r).

(** Every row's selection lies inside the row, on a letter exactly when it
    is left of the row's padding. *)
Definition selectionOnLettersOrPadding (st : State) : Prop :=
  ∀ row r, letters st !! row = Some r →
    ∃ i c, selectedColumnIndices st !! row = Some i ∧
           0 ≤ i < Z.of_nat (length r) ∧
           r !! Z.to_nat i = Some c ∧
           (c ≠ EMPTY ↔ (Z.to_nat i < letterCount r)%nat).



(** The submitted word is valid and has the level's word length. *)
Definition submissionValid (d : Dictionary) (st : State) : Prop :=
  isValidWord d (buildWordFromSelection st) = true ∧
  String.length (buildWordFromSelection st) = currentWordLength st.

(** The two found-word arrays agree with their lookup sets, hold no word
    twice, and hold the words of their class. *)
Definition foundWordsConsistent (st : State) : Prop :=
  (∀ w, w ∈ foundWordsSet st ↔ w ∈ foundWords st) ∧
  (∀ w, w ∈ otherFoundWordsSet st ↔ w ∈ otherFoundWords st) ∧
  NoDup (foundWords st) ∧
  NoDup (otherFoundWords st) ∧
  Forall (λ w, matchesLevelWord (currentLevelWords st) (toUpperCase w) = true)
         (foundWords st) ∧
  Forall (λ w, matchesLevelWord (currentLevelWords st) (toUpperCase w) = false)
         (otherFoundWords st).

(** The state after the bookkeeping and the removal of the letters. *)
Definition afterAccept (st : State) : State :=
  let wordUpper := toUpperCase (buildWordFromSelection st) in
  let st := recordWord wordUpper st in
  let st := set_totalWordsFoundInSession (S (totalWordsFoundInSession st)) st in
  let st := set_coins (coins st + COINS_PER_WORD)%nat st in
  removeUsedLetters st.

(** The three ways an accepted submission ends. *)
Definition acceptOutcome (st : State) : State :=
  let st1 := afterAccept st in
  if decide (wordsNeededForProgression st1 ≤ length (foundWords st1))%nat then
    set_location "completion.html" (storeCompletion st1)
  else if isGridEmpty st1 then
    showResult ("Find at least " +:+ toString (wordsNeededForProgression st1)
                  +:+ " words to progress")%string info st1
  else
    showResult ("Found word " +:+ quoted (toUpperCase (buildWordFromSelection st)))%string
      success (autoAdvanceSelection st1).

(** Only the result banner changed. *)
Definition onlyBannerChanged (type : ResultType) (st st' : State) : Prop :=
  ∃ message, st' = showResult message type st.

(** The found-word fields and the level words of two states agree. *)
Definition sameFoundWords (st st' : State) : Prop :=
  foundWords st' = foundWords st ∧
  foundWordsSet st' = foundWordsSet st ∧
  otherFoundWords st' = otherFoundWords st ∧
  otherFoundWordsSet st' = otherFoundWordsSet st ∧
  currentLevelWords st' = currentLevelWords st.




(** Progression was refused: an informational banner, nothing else. *)
Definition progressionRefused (st st' : State) : Prop :=
  onlyBannerChanged info st st' ∧
  currentLevelNumber st' = currentLevelNumber st ∧
  letters st' = letters st ∧
  selectedColumnIndices st' = selectedColumnIndices st ∧
  currentLevelWords st' = currentLevelWords st ∧
  foundWords st' = foundWords st ∧
  foundWordsSet st' = foundWordsSet st ∧
  otherFoundWords st' = otherFoundWords st ∧
  otherFoundWordsSet st' = otherFoundWordsSet st ∧
  localStorage st' = localStorage st.

(** Every bucket of the dictionary is a set of upper-case words of the
    bucket's length. *)
Definition dictionaryWellFormed (d : Dictionary) : Prop :=
  ∀ n words, wordsByLength d !! n = Some words →
    NoDup words ∧
    Forall (λ w, String.length w = n ∧ toUpperCase w = w) words.

(** The same of an index under construction. *)
Definition indexWellFormed (m : gmap nat (list string)) : Prop :=
  ∀ n words, m !! n = Some words →
    NoDup words ∧
    Forall (λ w, String.length w = n ∧ toUpperCase w = w) words.

(** The texts stored under found-words keys are within the model: they
    parse as JSON without numbers, and hold no found-word array with an
    entry other than a string. *)
Definition storageInModel (storage : gmap string string) : Prop :=
  ∀ key saved levelWords,
    String.prefix "wordjam_foundWords_" key = true →
    storage !! key = Some saved →
    match JSON_parse saved with
    | Parsed data => readFoundWords levelWords data ≠ Outside
    | SyntaxError => True
    | Unsupported => False
    end.

(** The fallback Level Word Set: the five hard-coded words when the
    dictionary has fewer than five words of five letters, otherwise five
    different words of its five-letter bucket. *)
Definition fallbackLevel (d : Dictionary) (words : list string) : Prop :=
  length words = 5%nat ∧
  if decide (length (wordsOfLength d 5) < 5)%nat
  then words = ["CAT"; "DOG"; "BAT"; "HAT"; "MAT"]%string
  else Forall (λ w, String.length w = 5%nat) words ∧
       NoDup words ∧
       ∃ rest, words ++ rest ≡ₚ wordsOfLength d 5.

(** The state of [generateNewLevel] once the level words are set. *)
Definition levelState (words : list string) (st : State) : State :=
  let st := set_currentLevelWords (toUpperCase <$> words) st in
  let st :=
    set_currentWordLength
      (match currentLevelWords st with
       | w :: _ => if decide (w = EmptyString) then 5%nat else String.length w
       | [] => 5%nat
       end) st in
  set_wordsNeededForProgression (length (currentLevelWords st)) st.

(** ** Example states *)

(** The dictionary after a failed fetch. *)
Definition fallbackDictionary : Dictionary := load None newDictionary.

(** The level of EAGLE and MOUSE as [init] builds it when every draw is 0:
    the selection spells EAGLE. *)
Definition exampleLevel : State :=
  {| lives := 3; coins := 0; currentLevelNumber := 1; currentWordLength := 5;
     wordsNeededForProgression := 2;
     foundWords := []; foundWordsSet := ∅;
     otherFoundWords := []; otherFoundWordsSet := ∅;
     totalWordsFoundInSession := 0;
     highscore := Some 0;
     resetCount := 1;
     letters := [["M"; "E"]; ["O"; "A"]; ["U"; "G"]; ["S"; "L"]; ["E"; "E"]]%char;
     selectedColumnIndices := [1; 1; 1; 1; 1];
     currentLevelWords := ["EAGLE"; "MOUSE"]%string;
     result := ""; resultType := info;
     showGameOver := false;
     localStorage := ∅; location := "" |}.

(** The same level after a reset, EAGLE found before. *)
Definition exampleReplay : State :=
  set_foundWordsSet {["EAGLE"%string]} (set_foundWords ["EAGLE"%string] exampleLevel).

(** A level of BEAR, FROG and ANT (draws 2 1 2 1 2 1 2 0), the selection
    moved onto B, E, A and R. The last row holds two letters only. *)
Definition exampleRagged : State :=
  {| lives := 3; coins := 0; currentLevelNumber := 1; currentWordLength := 4;
     wordsNeededForProgression := 3;
     foundWords := []; foundWordsSet := ∅;
     otherFoundWords := []; otherFoundWordsSet := ∅;
     totalWordsFoundInSession := 0;
     highscore := Some 0;
     resetCount := 1;
     letters := [["B"; "F"; "A"]; ["E"; "R"; "N"]; ["A"; "O"; "T"]; ["G"; "R"; " "]]%char;
     selectedColumnIndices := [0; 0; 0; 1];
     currentLevelWords := ["BEAR"; "FROG"; "ANT"]%string;
     result := ""; resultType := info;
     showGameOver := false;
     localStorage := ∅; location := "" |}.

(** The state in which [removeUsedLetters] calls [cleanUpGrid] on it. *)
Definition exampleMarked : State :=
  set_letters
    (imap (markUsed (selectedColumnIndices exampleRagged)) (letters exampleRagged))
    exampleRagged.

(** A word list as dictionary.txt holds one, and the dictionary [load]
    builds from it: six words of five letters. *)
Definition exampleWordList : string :=
  "crane
plate
 grape
stone
flame
shire

axed
".

Definition exampleDictionary : Dictionary := load (Some exampleWordList) newDictionary.

(** The level of [exampleReplay] met again with its words in another
    order, the found words not yet loaded. *)
Definition exampleRevisit : State :=
  setFoundWords [] []
    (set_currentLevelWords ["MOUSE"; "EAGLE"]%string (saveFoundWords exampleReplay)).

(** * Further definitions

    The rest of the embedding: more predicates on the game, the
    completion page (completion.js), [FirebaseService]
    (firebase-service.js), and [WordSlideGame], the variant of the game
    with lives. *)

(** ** More specification predicates *)

(** The number of letters a grid holds. *)
Definition totalLetters (ls : list (list ascii)) : nat :=
  sum_list (letterCount <$> ls).

(** The cells [generateLettersGrid] puts in row [letterIndex] before it
    shuffles the row: the letter of each word at that index, in upper
    case, the empty marker for a word that is too short. *)
Definition rowOfLetters (letterIndex : nat) (validWords : list string) : list ascii :=
  (λ word, match String.get letterIndex word with
           | Some c => toUpperChar c
           | None => EMPTY
           end) <$> validWords.

(** The letters [buildWordFromSelection] strings together. *)
Definition selectedLetters (ls : list (list ascii)) (sel : list Z) : list ascii :=
  omap (λ c : option ascii,
          match c with
          | Some letter => if decide (letter ≠ EMPTY) then Some letter else None
          | None => None
          end)
       (imap (selectedCell ls) sel).

(** What a submission never touches, accepted or not. *)
Definition sameLevelAndSession (st st' : State) : Prop :=
  currentLevelNumber st' = currentLevelNumber st ∧
  currentLevelWords st' = currentLevelWords st ∧
  currentWordLength st' = currentWordLength st ∧
  wordsNeededForProgression st' = wordsNeededForProgression st ∧
  lives st' = lives st ∧
  highscore st' = highscore st ∧
  resetCount st' = resetCount st ∧
  showGameOver st' = showGameOver st.

(** The numbers JavaScript prints in plain decimal and reads back
    exactly. *)
Definition safeInteger (z : Z) : Prop := - 2 ^ 53 < z < 2 ^ 53.

(** ** The completion page (completion.js) *)

(** The tries the page reports: [parseInt] of the stored count, 1 when
    nothing is stored; [None] is NaN. *)
Definition tries (storage : gmap string string) : option Z :=
  match storage !! "completedResetCount"%string with
  | Some resetCount => parseInt10 resetCount
  | None => Some 1
  end.

(** The reset button: the two completion entries and every found-words
    record are removed, and the game page is opened. *)
Definition resetProgress (storage : gmap string string) : gmap string string * string :=
  let storage := delete "completedWords"%string storage in
  let storage := delete "completedResetCount"%string storage in
  let keysToRemove :=
    filter (λ key, String.prefix "wordjam_foundWords_" key = true)
           (fst <$> map_to_list storage) in
  (foldl (λ storage key, delete key storage) storage keysToRemove,
   "game.html"%string).

(** The state [generateNewLevel] ends in, given the words it chose, the
    grid it built and the found words it loaded. *)
Definition levelWith (words : list string) (grid : list (list ascii))
    (found other : list string) (st : State) : State :=
  set_resetCount 1%nat
    (setFoundWords found other
       (initializeSelection (set_letters grid (levelState words st)))).

(** ** More example states *)

(** [exampleReplay] with its one found word enough to progress, three
    words into the session. *)
Definition exampleCompleted : State :=
  set_totalWordsFoundInSession 3%nat
    (set_wordsNeededForProgression 1%nat exampleReplay).

(** [exampleReplay] once its found words are saved. *)
Definition exampleSaved : State := saveFoundWords exampleReplay.

(** A game whose storage holds found words in the old format, a plain
    array. *)
Definition exampleLegacy : State :=
  set_localStorage
    {[ "wordjam_foundWords_EAGLE,MOUSE"%string
       := JSON_stringify (JArray (JString <$> ["MOUSE"; "TIGER"]%string)) ]}
    exampleLevel.

(** ** FirebaseService (firebase-service.js) *)

Definition isLetter (c : ascii) : bool :=
  let n := nat_of_ascii c in
  (((65 <=? n) && (n <=? 90)) || ((97 <=? n) && (n <=? 122)))%nat.

(** [/^[A-Za-z]+$/.test(word)] *)
Definition isAlphabetic (word : string) : bool :=
  negb (String.eqb word "") && forallb isLetter (list_ascii_of_string word).

(** The first filter of [validateWords]: a string of letters only, 3 to
    15 of them. Any other value is dropped. *)
Definition acceptedWord (word : json) : option string :=
  match word with
  | JString word =>
      if isAlphabetic word
         && (3 <=? String.length word)%nat && (String.length word <=? 15)%nat
      then Some word else None
  | _ => None
  end.

(** [self.indexOf(word)]; [None] is -1. *)
Definition indexOf (self : list string) (word : string) : option nat :=
  fst <$> list_find (λ w, w = word) self.

(** [filter((word, index, self) => self.indexOf(word) === index)], from
    [index] on. *)
Fixpoint keepFirst (self : list string) (index : nat) (rest : list string)
  : list string :=
  match rest with
  | [] => []
  | word :: rest' =>
      if decide (indexOf self word = Some index)
      then word :: keepFirst self (S index) rest'
      else keepFirst self (S index) rest'
  end.

Definition firstOccurrences (self : list string) : list string :=
  keepFirst self 0 self.

(** [validateWords]; [None] is [null]. The argument is the value read
    from the document. *)
Definition validateWords (words : json) : option (list string) :=
  match words with
  | JArray items =>
      let validatedWords :=
        firstOccurrences (toUpperCase <$> omap acceptedWord items) in
      if decide (length validatedWords = 0%nat) then None
      else if decide (20 < length validatedWords)%nat
           then Some (take 20 validatedWords)
           else Some validatedWords
  | _ => None
  end.

(** What [docRef.get()] came to. *)
Inductive snapshot :=
| FetchFailed
| Missing
| Document (data : list (string * json)).

(** [getTodaysWords]; a failure is caught and gives [null], as a missing
    document or invalid words do. *)
Definition getTodaysWords (doc : snapshot) : option (list string) :=
  match doc with
  | Document data => validateWords (orEmptyArray (getMember "words" data))
  | Missing | FetchFailed => None
  end.

(** A word as [validateWords] lets it through. *)
Definition validatedWord (w : string) : Prop :=
  (3 ≤ String.length w ≤ 15)%nat ∧
  Forall (λ c, (65 ≤ nat_of_ascii c ≤ 90)%nat) (list_ascii_of_string w) ∧
  toUpperCase w = w.

(** ** More of the game and the dictionary *)

(** [generateRandomWordsForLevel]; the level number is only logged. *)
Definition generateRandomWordsForLevel (d : Dictionary) (draws : list nat)
    (levelNumber wordLength : nat) : list string * list nat :=
  let availableWords := wordsOfLength d wordLength in
  let wordsToSelect := (10 `min` length availableWords)%nat in
  if decide (wordsToSelect = 0%nat)
  then (["CAT"; "DOG"; "BAT"; "HAT"; "MAT"]%string, draws)
  else
    let '(shuffled, draws') := shuffleArray draws availableWords in
    (take wordsToSelect shuffled, draws').

(** [getWordCounts] *)
Definition getWordCounts (d : Dictionary) : gmap nat nat :=
  length <$> wordsByLength d.

(** A cell of a grid built from validated words. *)
Definition letterOrEmpty (c : ascii) : Prop :=
  c = EMPTY ∨ (65 ≤ nat_of_ascii c ≤ 90)%nat.

(** The document of a day with two words, as Firestore may hold them. *)
Definition exampleDocument : snapshot :=
  Document [("words"%string, JArray [JString "crane"; JString "Plate"])].

(** A word that can be read back from a storage key: no comma in it,
    and in upper case, as level words are. *)
Definition commaFree (w : string) : Prop :=
  ","%char ∉ list_ascii_of_string w.

Definition keyWord (w : string) : Prop :=
  commaFree w ∧ toUpperCase w = w.

(** * WordSlideGame (the second class of part_002)

    The variant with lives and purchases. Its grid code
    ([generateLettersGrid], [initializeSelection],
    [buildWordFromSelection], [removeUsedLetters], [cleanUpGrid],
    [validateAndFixIndices], [autoAdvanceSelection], [isGridEmpty],
    [shuffleArray]) is the text of WordJamGame's, and so are its banner
    and its counters: those are kept in a [State], whose other fields are
    carried along untouched. Its lives can fall below zero and its found
    words are one Set: both are kept beside the [State]. The class
    neither fetches words nor stores found words. *)
Module WordSlide.

Definition ADD_WORD_COST : nat := 30.
Definition ADD_LIFE_COST : nat := 60.

(** [loadHighscore] *)
Definition loadHighscore (storage : gmap string string) : option Z :=
  match storage !! "wordslide_highscore"%string with
  | Some saved => if String.eqb saved "" then Some 0 else parseInt10 saved
  | None => Some 0
  end.

(** [saveHighscore] *)
Definition saveHighscore (st : State) : State :=
  match highscore st with
  | Some h =>
      set_localStorage (<["wordslide_highscore"%string := pretty h]> (localStorage st)) st
  | None =>
      set_localStorage (<["wordslide_highscore"%string := "NaN"%string]> (localStorage st)) st
  end.

(** The fields of the constructor that [State] holds. *)
Definition newShared (storage : gmap string string) : State :=
  {| lives := 3; coins := 0; currentLevelNumber := 1; currentWordLength := 3;
     wordsNeededForProgression := 3;
     foundWords := []; foundWordsSet := ∅;
     otherFoundWords := []; otherFoundWordsSet := ∅;
     totalWordsFoundInSession := 0;
     highscore := loadHighscore storage;
     resetCount := 0;
     letters := []; selectedColumnIndices := []; currentLevelWords := [];
     result := ""; resultType := info;
     showGameOver := false;
     localStorage := storage; location := "" |}.

Record Game := mkGame {
  shared : State;
  lives : Z;
  foundWords : gset string
}.

(** The constructor, up to its call of [init]. *)
Definition newGame (storage : gmap string string) : Game :=
  mkGame (newShared storage) 3 ∅.

Definition onShared (f : State → State) (g : Game) : Game :=
  mkGame (f (shared g)) (lives g) (foundWords g).

(** The highscore update of [progressToNextLevel] and [handleGameOver]. *)
Definition updateHighscore (st : State) : State :=
  match highscore st with
  | Some h =>
      if decide (h < Z.of_nat (totalWordsFoundInSession st))
      then saveHighscore
             (set_highscore (Some (Z.of_nat (totalWordsFoundInSession st))) st)
      else st
  | None => st
  end.

(** The words [generateNewLevel] picks. *)
Definition levelWords (d : Dictionary) (draws : list nat) : list string * list nat :=
  let wordLength := 3%nat in
  let wordCount := 5%nat in
  let availableWords := wordsOfLength d wordLength in
  if decide (length availableWords < wordCount)%nat
  then (["CAT"; "DOG"; "BAT"; "HAT"; "MAT"]%string, draws)
  else
    let '(shuffled, draws') := shuffleArray draws availableWords in
    (take wordCount shuffled, draws').

(** [generateNewLevel]; [None] as for [generateLettersGrid]. *)
Definition generateNewLevel (d : Dictionary) (draws : list nat) (g : Game)
  : option Game :=
  let st := set_currentLevelWords (levelWords d draws).1 (shared g) in
  let st := set_currentWordLength 3%nat st in
  grid ← generateLettersGrid (levelWords d draws).2 (currentLevelWords st);
  let st := initializeSelection (set_letters (fst grid) st) in
  Some (mkGame st (lives g) ∅).

(** [init] *)
Definition init (response : option string) (draws : list nat)
    (game : Dictionary * Game) : option (Dictionary * Game) :=
  let d := load response (fst game) in
  g ← generateNewLevel d draws (snd game);
  Some (d, g).

(** [progressToNextLevel] *)
Definition progressToNextLevel (d : Dictionary) (draws : list nat) (g : Game)
  : option Game :=
  if decide (size (foundWords g) < wordsNeededForProgression (shared g))%nat then
    Some (onShared
            (showResult
               ("Find at least " +:+ toString (wordsNeededForProgression (shared g))
                  +:+ " words to progress")%string info) g)
  else
    let g := onShared updateHighscore g in
    let g := onShared (λ st, set_currentLevelNumber (S (currentLevelNumber st)) st) g in
    g ← generateNewLevel d draws g;
    Some (onShared
            (λ st, showResult
                     ("Level " +:+ toString (currentLevelNumber st) +:+ " - Find "
                        +:+ toString (wordsNeededForProgression st) +:+ " words!")%string
                     info st) g).

(** [handleGameOver] *)
Definition handleGameOver (g : Game) : Game :=
  onShared (λ st, updateHighscore (set_showGameOver true st)) g.

(** [confirmWord] *)
Definition confirmWord (d : Dictionary) (draws : list nat) (g : Game) : option Game :=
  let word := buildWordFromSelection (shared g) in
  if decide (String.length word = 0%nat) then
    Some (onShared (showResult "Not a valid word" error) g)
  else
    let isValid := isValidWord d word in
    let correctLength := bool_decide (String.length word = currentWordLength (shared g)) in
    if isValid && correctLength then
      let g := mkGame (shared g) (lives g) ({[toUpperCase word]} ∪ foundWords g) in
      let g :=
        onShared (λ st, set_totalWordsFoundInSession
                          (S (totalWordsFoundInSession st)) st) g in
      let g := onShared (λ st, set_coins (coins st + COINS_PER_WORD)%nat st) g in
      let g := onShared removeUsedLetters g in
      if isGridEmpty (shared g) then progressToNextLevel d draws g
      else
        Some (onShared
                (λ st, showResult ("Found " +:+ quoted (toUpperCase word))%string
                         success (autoAdvanceSelection st)) g)
    else
      let g := mkGame (shared g) (lives g - 1) (foundWords g) in
      let g := onShared (showResult "Not a valid word. -1" error) g in
      Some (if decide (lives g ≤ 0) then handleGameOver g else g).

(** [addLife] *)
Definition addLife (g : Game) : Game :=
  if decide (coins (shared g) < ADD_LIFE_COST)%nat then
    onShared (showResult "Not enough coins" error) g
  else
    let g := onShared (λ st, set_coins (coins st - ADD_LIFE_COST)%nat st) g in
    let g := mkGame (shared g) (lives g + 1) (foundWords g) in
    onShared (showResult "Received an extra heart" success) g.

(** The rows of [addRandomWord] once the letters of the word are pushed:
    letter [i] onto row [i]. *)
Definition pushLetters (randomWord : string) (ls : list (list ascii))
  : list (list ascii) :=
  imap (λ i row, match String.get i randomWord with
                 | Some letter => row ++ [letter]
                 | None => row
                 end) ls.

(** [addRandomWord] *)
Definition addRandomWord (d : Dictionary) (draws : list nat) (g : Game) : Game :=
  if decide (coins (shared g) < ADD_WORD_COST)%nat then
    onShared (showResult "Not enough coins" error) g
  else
    let '(randomWord, draws) := randomWord d draws (currentWordLength (shared g)) in
    match randomWord with
    | Some (String c w as randomWord) =>
        onShared
          (λ st,
             let st := set_coins (coins st - ADD_WORD_COST)%nat st in
             let missing := (currentWordLength st - length (letters st))%nat in
             let st := set_letters (letters st ++ replicate missing []) st in
             let st :=
               set_selectedColumnIndices
                 (selectedColumnIndices st ++ replicate missing 0) st in
             let st := set_letters (pushLetters randomWord (letters st)) st in
             let st := set_letters (shuffleRows draws (letters st)).1 st in
             let st := validateAndFixIndices st in
             showResult "Added random letters" success st) g
    | _ => onShared (showResult "Could not find a word" error) g
    end.

(** [restartGame] *)
Definition restartGame (d : Dictionary) (draws : list nat) (g : Game) : option Game :=
  let g := mkGame (shared g) 3 ∅ in
  let g := onShared (set_coins 0%nat) g in
  let g := onShared (set_currentLevelNumber 1%nat) g in
  let g := onShared (set_totalWordsFoundInSession 0%nat) g in
  let g := onShared (set_showGameOver false) g in
  generateNewLevel d draws g.

(** What a call leaves of the session: lives, coins, counters, grid. *)
Definition onlyBanner (g g' : Game) : Prop :=
  lives g' = lives g ∧ foundWords g' = foundWords g ∧
  ∃ message type, shared g' = showResult message type (shared g).

End WordSlide.

(** A WordSlide game in play: the level of [exampleLevel]'s grid with
    the word length of its words, and coins for one purchase of each
    kind. *)
Definition exampleSlide : WordSlide.Game :=
  WordSlide.mkGame (set_coins 90%nat exampleLevel) 1 ∅.

(** The game after the bookkeeping of a valid word in WordSlideGame:
    the word is in the Set, counted and paid, its letters are removed. *)
Definition slideAccepted (g : WordSlide.Game) : WordSlide.Game :=
  let word := buildWordFromSelection (WordSlide.shared g) in
  let st := WordSlide.shared g in
  let st := set_totalWordsFoundInSession (S (totalWordsFoundInSession st)) st in
  let st := set_coins (coins st + COINS_PER_WORD)%nat st in
  WordSlide.mkGame (removeUsedLetters st) (WordSlide.lives g)
    ({[toUpperCase word]} ∪ WordSlide.foundWords g).

(** The session fields of the shared state agree. *)
Definition sameSession (st st' : State) : Prop :=
  coins st' = coins st ∧
  totalWordsFoundInSession st' = totalWordsFoundInSession st ∧
  currentLevelNumber st' = currentLevelNumber st ∧
  letters st' = letters st ∧
  selectedColumnIndices st' = selectedColumnIndices st ∧
  currentLevelWords st' = currentLevelWords st.
(** * Proofs *)

(** ** Facts about compaction *)

Section Compaction.
Implicit Types (ls : list (list ascii)) (r : list ascii).

Lemma stripRows_lettersOnly ls : Forall lettersOnly (stripRows ls).
Proof.
  unfold stripRows. apply Forall_forall. intros r Hr.
  apply list_elem_of_filter in Hr as [Hlen Hr].
  apply list_elem_of_fmap in Hr as (r0 & -> & _). split.
  - intros E. rewrite E in Hlen. simpl in Hlen. lia.
  - apply Forall_forall. intros c Hc.
    by apply list_elem_of_filter in Hc as [? _].
Qed.

Lemma filter_letters_id r :
  Forall (λ c, c ≠ EMPTY) r → filter (λ c, c ≠ EMPTY) r = r.
Proof.
  induction 1 as [|c r Hc _ IH]; [done|].
  rewrite filter_cons_True by done. by rewrite IH.
Qed.

Lemma filter_letters_replicate n :
  filter (λ c, c ≠ EMPTY) (replicate n EMPTY) = [].
Proof.
  induction n as [|n IH]; [done|]. simpl.
  rewrite filter_cons_False; [done | by intros H; apply H].
Qed.

Lemma filter_letters_padRow m r :
  Forall (λ c, c ≠ EMPTY) r → filter (λ c, c ≠ EMPTY) (padRow m r) = r.
Proof.
  intros H. unfold padRow.
  by rewrite filter_app, filter_letters_replicate, app_nil_r, filter_letters_id.
Qed.

Lemma stripRows_fixed ls : Forall lettersOnly ls → stripRows ls = ls.
Proof.
  unfold stripRows. induction 1 as [|r ls [Hne Hr] _ IH]; [done|].
  rewrite fmap_cons, filter_letters_id by done.
  rewrite filter_cons_True; [by rewrite IH|].
  destruct r; [done | simpl; lia].
Qed.

Lemma stripRows_padRow m ls :
  Forall lettersOnly ls → stripRows (padRow m <$> ls) = ls.
Proof.
  unfold stripRows. induction 1 as [|r ls [Hne Hr] _ IH]; [done|].
  rewrite !fmap_cons, filter_letters_padRow by done.
  rewrite filter_cons_True; [by rewrite IH|].
  destruct r; [done | simpl; lia].
Qed.

Lemma length_padRow m r : (length r ≤ m)%nat → length (padRow m r) = m.
Proof. intros H. unfold padRow. rewrite length_app, length_replicate. lia. Qed.

Lemma length_le_max_list ls r :
  r ∈ ls → (length r ≤ max_list (length <$> ls))%nat.
Proof.
  intros H. apply max_list_elem_of_le, list_elem_of_fmap. eauto.
Qed.

(** After compaction every row has the length of the longest stripped
    row. *)
Lemma compact_row_length ls r :
  r ∈ compact ls → length r = max_list (length <$> stripRows ls).
Proof.
  unfold compact. case_decide as Hm.
  - intros Hr. apply list_elem_of_fmap in Hr as (r0 & -> & Hr0).
    by apply length_padRow, length_le_max_list.
  - intros Hr. pose proof (length_le_max_list _ _ Hr).
    pose proof (stripRows_lettersOnly ls) as Hall.
    rewrite Forall_forall in Hall. destruct (Hall r Hr) as [Hne _].
    destruct r; [done | simpl in *; lia].
Qed.

(** A compacted row is a stripped row followed by padding. *)
Lemma compact_row_shape ls r :
  r ∈ compact ls →
  ∃ r0, r0 ∈ stripRows ls ∧ lettersOnly r0 ∧
        r = padRow (max_list (length <$> stripRows ls)) r0.
Proof.
  pose proof (stripRows_lettersOnly ls) as Hall. rewrite Forall_forall in Hall.
  unfold compact. case_decide as Hm; intros Hr.
  - apply list_elem_of_fmap in Hr as (r0 & -> & Hr0). eauto.
  - exists r. split_and!; [done | by apply Hall |].
    unfold padRow. pose proof (length_le_max_list _ _ Hr).
    replace (_ - _)%nat with 0%nat by lia. simpl. by rewrite app_nil_r.
Qed.

Lemma stripRows_compact ls : stripRows (compact ls) = stripRows ls.
Proof.
  unfold compact. case_decide.
  - apply stripRows_padRow, stripRows_lettersOnly.
  - apply stripRows_fixed, stripRows_lettersOnly.
Qed.

Lemma compact_idempotent ls : compact (compact ls) = compact ls.
Proof.
  unfold compact at 1. rewrite stripRows_compact. reflexivity.
Qed.
End Compaction.

(** ** Facts about the selection *)

Section Selection.
Implicit Types (st : State) (ls : list (list ascii)) (r : list ascii).

Lemma fixIndex_range ls row r i :
  ls !! row = Some r →
  if decide (r = []) then fixIndex ls row i = 0
  else 0 ≤ fixIndex ls row i ≤ Z.of_nat (length r) - 1.
Proof.
  intros Hr. unfold fixIndex. rewrite Hr.
  destruct (Z.ltb_spec i 0), (Z.geb_spec i (Z.of_nat (length r)));
    case_decide as Hd; subst; simpl in *; try lia;
    destruct r; simpl in *; try done; lia.
Qed.

Lemma fixIndex_idempotent ls row i :
  fixIndex ls row (fixIndex ls row i) = fixIndex ls row i.
Proof.
  unfold fixIndex. destruct (ls !! row) as [r|]; [|done].
  repeat match goal with
         | |- context [?a <? ?b] => destruct (Z.ltb_spec a b)
         | |- context [?a >=? ?b] => destruct (Z.geb_spec a b)
         end; lia.
Qed.

Lemma validateAndFixIndices_letters st :
  letters (validateAndFixIndices st) = letters st.
Proof. done. Qed.

Lemma validateAndFixIndices_length st :
  (length (letters st) ≤ length (selectedColumnIndices (validateAndFixIndices st)))%nat.
Proof.
  unfold validateAndFixIndices. simpl.
  rewrite length_imap, length_app, length_replicate. lia.
Qed.

Lemma validateAndFixIndices_valid st : selectionValid (validateAndFixIndices st).
Proof.
  intros row r Hr. rewrite validateAndFixIndices_letters in Hr.
  pose proof (validateAndFixIndices_length st) as Hlen.
  pose proof (lookup_lt_Some _ _ _ Hr) as Hrow.
  destruct (lookup_lt_is_Some_2 (selectedColumnIndices (validateAndFixIndices st)) row)
    as [i Hi]; [lia|].
  exists i. split; [done|].
  unfold validateAndFixIndices in Hi. simpl in Hi.
  rewrite list_lookup_imap in Hi.
  apply fmap_Some in Hi as (i0 & _ & ->). by apply fixIndex_range.
Qed.

Lemma validateAndFixIndices_idempotent st :
  validateAndFixIndices (validateAndFixIndices st) = validateAndFixIndices st.
Proof.
  pose proof (validateAndFixIndices_length st) as Hlen.
  unfold validateAndFixIndices at 1.
  rewrite validateAndFixIndices_letters.
  replace (_ - _)%nat with 0%nat by lia.
  simpl replicate. rewrite app_nil_r.
  unfold validateAndFixIndices. destruct st; simpl. unfold set_selectedColumnIndices; simpl.
  f_equal. apply list_eq. intros row.
  rewrite !list_lookup_imap.
  destruct (_ !! row); [|done]. simpl. by rewrite fixIndex_idempotent.
Qed.

Lemma cleanUpGrid_letters st : letters (cleanUpGrid st) = compact (letters st).
Proof. done. Qed.

Lemma cleanUpGrid_idempotent st : cleanUpGrid (cleanUpGrid st) = cleanUpGrid st.
Proof.
  unfold cleanUpGrid at 1.
  replace (set_letters (compact (letters (cleanUpGrid st))) (cleanUpGrid st))
    with (cleanUpGrid st).
  - unfold cleanUpGrid. apply validateAndFixIndices_idempotent.
  - rewrite cleanUpGrid_letters, compact_idempotent.
    rewrite <- (cleanUpGrid_letters st). by destruct (cleanUpGrid st).
Qed.

(** A padded row read at an index: a letter left of the padding, the empty
    marker inside it. *)
Lemma padRow_lookup m r0 k :
  Forall (λ c, c ≠ EMPTY) r0 → (k < length (padRow m r0))%nat →
  ∃ c, padRow m r0 !! k = Some c ∧ (c ≠ EMPTY ↔ (k < length r0)%nat).
Proof.
  intros Hr0 Hk. unfold padRow in *.
  destruct (decide (k < length r0)%nat) as [Hlt|Hge].
  - destruct (lookup_lt_is_Some_2 r0 k Hlt) as [c Hc].
    exists c. rewrite lookup_app_l by done. split; [done|].
    rewrite Forall_forall in Hr0. split; [done|].
    intros _. apply Hr0. by eapply list_elem_of_lookup_2.
  - exists EMPTY. rewrite lookup_app_r by lia.
    rewrite length_app, length_replicate in Hk.
    rewrite lookup_replicate_2 by lia. split; [done|]. split; [done | lia].
Qed.

Lemma cleanUpGrid_selection st : selectionOnLettersOrPadding (cleanUpGrid st).
Proof.
  intros row r Hr.
  destruct (validateAndFixIndices_valid _ row r Hr) as (i & Hi & Hrange).
  rewrite cleanUpGrid_letters in Hr.
  apply list_elem_of_lookup_2, compact_row_shape in Hr as (r0 & _ & [Hne Hr0] & ->).
  case_decide as Hd.
  { exfalso. unfold padRow in Hd. by destruct r0. }
  destruct (padRow_lookup (max_list (length <$> stripRows (letters st))) r0 (Z.to_nat i))
    as (c & Hc & Hiff); [done | lia |].
  exists i, c. split_and!; [done | lia | lia | done |].
  unfold letterCount. by rewrite filter_letters_padRow.
Qed.
End Selection.

(** ** Facts about strings *)

Lemma toUpperChar_idempotent c : toUpperChar (toUpperChar c) = toUpperChar c.
Proof. destruct c as [[] [] [] [] [] [] [] []]; reflexivity. Qed.

Lemma toUpperCase_idempotent s : toUpperCase (toUpperCase s) = toUpperCase s.
Proof.
  induction s as [|c s IH]; [done|]. simpl.
  by rewrite toUpperChar_idempotent, IH.
Qed.

Lemma length_toUpperCase s : String.length (toUpperCase s) = String.length s.
Proof. induction s as [|c s IH]; [done|]. simpl. by rewrite IH. Qed.

(** ** Facts about submission *)

Section Submission.
Variables (d : Dictionary) (fetched : option (list string)) (draws : list nat).
Implicit Types (st : State).

Lemma isValidWord_nonempty word :
  isValidWord d word = true → String.length word ≠ 0%nat.
Proof. unfold isValidWord. by case_decide. Qed.




Lemma progressToNextLevel_refusal st :
  (length (foundWords st) < wordsNeededForProgression st)%nat →
  progressToNextLevel d fetched draws st =
    Some (showResult
            ("Find at least " +:+ toString (wordsNeededForProgression st)
               +:+ " words to progress")%string info st).
Proof. intros H. unfold progressToNextLevel. by rewrite decide_True. Qed.

Lemma confirmWord_valid st :
  isValidWord d (buildWordFromSelection st) = true →
  String.length (buildWordFromSelection st) = currentWordLength st →
  confirmWord d fetched draws st = Some (acceptOutcome st).
Proof.
  intros Hv Hl. unfold confirmWord, acceptOutcome.
  rewrite decide_False by by apply isValidWord_nonempty.
  rewrite Hv, bool_decide_eq_true_2 by done. cbn [andb].
  fold (afterAccept st).
  case_decide as Hn; [done|].
  destruct (isGridEmpty _); [|done].
  apply progressToNextLevel_refusal. lia.
Qed.

Lemma confirmWord_invalid st :
  ¬ (isValidWord d (buildWordFromSelection st) = true ∧
     String.length (buildWordFromSelection st) = currentWordLength st) →
  ∃ message, confirmWord d fetched draws st = Some (showResult message error st).
Proof.
  intros Hn. unfold confirmWord.
  case_decide; [by eexists|].
  destruct (isValidWord _ _) eqn:Hv; simpl; [|by eexists].
  case_bool_decide; [|by eexists]. naive_solver.
Qed.


Lemma confirmWord_total st : is_Some (confirmWord d fetched draws st).
Proof.
  destruct (decide (submissionValid d st)) as [[Hv Hl]|Hn].
  - rewrite confirmWord_valid by done. by eexists.
  - destruct (confirmWord_invalid st Hn) as [m ->]. by eexists.
Qed.









End Submission.

(** ** Facts about the dictionary *)

Section DictionaryFacts.
Implicit Types (m : gmap nat (list string)) (d : Dictionary).

Lemma NoDup_setAdd (w : string) (words : list string) :
  NoDup words → NoDup (setAdd w words).
Proof.
  intros H. unfold setAdd. case_decide; [done|].
  apply NoDup_app. split_and!; [done | | apply NoDup_singleton].
  intros x Hx Hx'. apply list_elem_of_singleton in Hx'. by subst.
Qed.

Lemma indexWord_wellFormed m w :
  toUpperCase w = w → indexWellFormed m → indexWellFormed (indexWord m w).
Proof.
  intros Hw Hm n words. unfold indexWord.
  set (m' := if decide (is_Some (m !! String.length w)) then m
             else <[String.length w := []]> m).
  assert (indexWellFormed m') as Hm'.
  { unfold m'. case_decide; [done|]. intros k ws.
    rewrite lookup_insert. case_decide; [|by apply Hm].
    intros [= <-]. split; [apply NoDup_nil_2 | apply Forall_nil_2]. }
  rewrite lookup_insert. case_decide as Hn; [|by apply Hm'].
  intros [= <-]. subst n.
  destruct (m' !! String.length w) as [ws|] eqn:Hws; simpl.
  - destruct (Hm' _ _ Hws) as [Hnd Hall]. split; [by apply NoDup_setAdd|].
    unfold setAdd. case_decide; [done|].
    apply Forall_app. split; [done|]. by apply Forall_singleton.
  - split; [apply NoDup_singleton|]. by apply Forall_singleton.
Qed.

Lemma foldl_indexWord_wellFormed (ws : list string) m :
  Forall (λ w, toUpperCase w = w) ws →
  indexWellFormed m → indexWellFormed (foldl indexWord m ws).
Proof.
  intros Hws. revert m. induction Hws as [|w ws Hw _ IH]; [done|].
  intros m Hm. simpl. by apply IH, indexWord_wellFormed.
Qed.

Lemma fallbackWords_upper : Forall (λ w, toUpperCase w = w) fallbackWords.
Proof. by repeat constructor. Qed.

(** [load] keeps the dictionary well formed, whatever the fetch gave. *)
Lemma load_wellFormed response d :
  dictionaryWellFormed d → dictionaryWellFormed (load response d).
Proof.
  intros Hd. unfold load. destruct (loaded d); [done|].
  destruct response as [text|].
  - apply foldl_indexWord_wellFormed; [|done].
    apply Forall_forall. intros w Hw.
    apply list_elem_of_filter in Hw as [_ Hw].
    apply list_elem_of_fmap in Hw as (w0 & -> & _).
    apply toUpperCase_idempotent.
  - apply foldl_indexWord_wellFormed; [apply fallbackWords_upper | done].
Qed.

Lemma newDictionary_wellFormed : dictionaryWellFormed newDictionary.
Proof. intros n words H. simpl in H. by rewrite lookup_empty in H. Qed.

Lemma wordsOfLength_wellFormed d n :
  dictionaryWellFormed d →
  NoDup (wordsOfLength d n) ∧
  Forall (λ w, String.length w = n ∧ toUpperCase w = w) (wordsOfLength d n).
Proof.
  intros Hd. unfold wordsOfLength.
  destruct (wordsByLength d !! n) as [ws|] eqn:H; [by apply Hd|].
  split; [apply NoDup_nil_2 | apply Forall_nil_2].
Qed.
End DictionaryFacts.

(** ** Facts about shuffling *)

Section Shuffle.
Context {A : Type}.
Implicit Types (a : list A) (draws : list nat).

Lemma swap_Permutation a i j : swap a i j ≡ₚ a.
Proof.
  unfold swap.
  destruct (a !! i) as [x|] eqn:Hi; [|done].
  destruct (a !! j) as [y|] eqn:Hj; [|done].
  by apply Permutation_insert_swap.
Qed.

Lemma shuffleFrom_Permutation i draws a : (shuffleFrom i draws a).1 ≡ₚ a.
Proof.
  revert draws a. induction i as [|i IH]; intros draws a; [done|].
  simpl. destruct (nextRandom _ draws) as [j draws'].
  rewrite IH. apply swap_Permutation.
Qed.

Lemma shuffleArray_Permutation draws a : (shuffleArray draws a).1 ≡ₚ a.
Proof. apply shuffleFrom_Permutation. Qed.
End Shuffle.

(** ** Facts about level generation *)

Section Generation.
Implicit Types (d : Dictionary) (st : State) (draws : list nat).

Lemma fallbackLevelWords_fallbackLevel d draws :
  dictionaryWellFormed d → fallbackLevel d (fallbackLevelWords d draws).1.
Proof.
  intros Hd. unfold fallbackLevel, fallbackLevelWords.
  destruct (wordsOfLength_wellFormed d 5 Hd) as [Hnd Hall].
  case_decide as Hlen; [done|].
  pose proof (shuffleArray_Permutation draws (wordsOfLength d 5)) as Hperm.
  destruct (shuffleArray draws (wordsOfLength d 5)) as [shuffled draws'].
  simpl in *.
  assert (length shuffled = length (wordsOfLength d 5)) as Hl
    by by rewrite Hperm.
  rewrite <- Hperm in Hnd, Hall.
  rewrite <- (take_drop 5 shuffled) in Hnd, Hall.
  apply NoDup_app in Hnd as (Hnd & _ & _).
  apply Forall_app in Hall as [Hall _].
  split_and!.
  - rewrite length_take. lia.
  - eapply Forall_impl; [exact Hall|]. by intros w [? _].
  - done.
  - exists (drop 5 shuffled). by rewrite take_drop.
Qed.

Lemma fallbackLevelWords_upper d draws :
  dictionaryWellFormed d →
  toUpperCase <$> (fallbackLevelWords d draws).1 = (fallbackLevelWords d draws).1.
Proof.
  intros Hd. unfold fallbackLevelWords.
  destruct (wordsOfLength_wellFormed d 5 Hd) as [_ Hall].
  case_decide as Hlen; [done|].
  pose proof (shuffleArray_Permutation draws (wordsOfLength d 5)) as Hperm.
  destruct (shuffleArray draws (wordsOfLength d 5)) as [shuffled draws'].
  simpl in *. rewrite <- Hperm in Hall.
  rewrite <- (take_drop 5 shuffled) in Hall.
  apply Forall_app in Hall as [Hall _].
  induction Hall as [|w ws [_ Hw] _ IH]; [done|].
  by rewrite fmap_cons, Hw, IH.
Qed.

Lemma generateLettersGrid_is_Some draws (words : list string) :
  words ≠ [] → is_Some (generateLettersGrid draws words).
Proof. intros H. unfold generateLettersGrid. by rewrite decide_False. Qed.

Lemma getFoundWordsStorageKey_prefix st :
  String.prefix "wordjam_foundWords_" (getFoundWordsStorageKey st) = true.
Proof.
  unfold getFoundWordsStorageKey. case_decide; [done|].
  simpl. by destruct (join _ _).
Qed.

Lemma loadFoundWords_inModel st :
  storageInModel (localStorage st) →
  ∃ found other, loadFoundWords st = Some (setFoundWords found other st).
Proof.
  intros Hs. unfold loadFoundWords.
  destruct (localStorage st !! getFoundWordsStorageKey st) as [saved|] eqn:Hk;
    [|by eauto].
  destruct (String.eqb saved ""); [by eauto|].
  specialize (Hs _ _ (currentLevelWords st) (getFoundWordsStorageKey_prefix st) Hk).
  destruct (JSON_parse saved) as [data| |]; [|by eauto|done].
  destruct (readFoundWords _ data) as [[found other]| |]; by eauto.
Qed.

Lemma length_fallbackLevelWords d draws :
  length (fallbackLevelWords d draws).1 = 5%nat.
Proof.
  unfold fallbackLevelWords. case_decide as Hlen; [done|].
  pose proof (shuffleArray_Permutation draws (wordsOfLength d 5)) as Hperm.
  destruct (shuffleArray draws (wordsOfLength d 5)) as [shuffled draws'].
  simpl in *. apply Permutation_length in Hperm.
  rewrite length_take. lia.
Qed.

Lemma chooseLevelWords_nonempty d fetched draws :
  (chooseLevelWords d fetched draws).1 ≠ [].
Proof.
  unfold chooseLevelWords.
  pose proof (length_fallbackLevelWords d draws) as H.
  destruct fetched as [[|w ws]|]; try done;
    by destruct (fallbackLevelWords d draws).1.
Qed.

Lemma mbind_Some {A B} (f : A → option B) (x : A) : Some x ≫= f = f x.
Proof. done. Qed.

Lemma generateNewLevel_unfold d fetched draws st :
  generateNewLevel d fetched draws st =
  let st := levelState (chooseLevelWords d fetched draws).1 st in
  grid ← generateLettersGrid (chooseLevelWords d fetched draws).2 (currentLevelWords st);
  st ← loadFoundWords (initializeSelection (set_letters (fst grid) st));
  Some (set_resetCount 1%nat st).
Proof.
  unfold generateNewLevel. by destruct (chooseLevelWords d fetched draws).
Qed.

Lemma levelState_fields words st :
  currentLevelWords (levelState words st) = toUpperCase <$> words ∧
  wordsNeededForProgression (levelState words st) = length (toUpperCase <$> words) ∧
  localStorage (levelState words st) = localStorage st.
Proof. done. Qed.

Lemma grid_fields (grid : list (list ascii)) st :
  let st' := initializeSelection (set_letters grid st) in
  currentLevelWords st' = currentLevelWords st ∧
  wordsNeededForProgression st' = wordsNeededForProgression st ∧
  localStorage st' = localStorage st.
Proof. done. Qed.

Lemma setFoundWords_fields l o st :
  let st' := set_resetCount 1%nat (setFoundWords l o st) in
  currentLevelWords st' = currentLevelWords st ∧
  wordsNeededForProgression st' = wordsNeededForProgression st ∧
  resetCount st' = 1%nat.
Proof. done. Qed.

(** [generateNewLevel] returns whenever the stored texts are within the
    model; the level is made of the chosen words in upper case, and the
    progression count is their number. *)
Lemma generateNewLevel_inModel d fetched draws st :
  storageInModel (localStorage st) →
  ∃ st', generateNewLevel d fetched draws st = Some st' ∧
         currentLevelWords st' = toUpperCase <$> (chooseLevelWords d fetched draws).1 ∧
         wordsNeededForProgression st' = length (currentLevelWords st') ∧
         resetCount st' = 1%nat.
Proof.
  intros Hs. rewrite generateNewLevel_unfold.
  pose proof (chooseLevelWords_nonempty d fetched draws) as Hne.
  set (words := (chooseLevelWords d fetched draws).1) in *.
  destruct (levelState_fields words st) as (Hw & Hn & Hl).
  cbv zeta. rewrite Hw.
  destruct (generateLettersGrid_is_Some (chooseLevelWords d fetched draws).2
              (toUpperCase <$> words)) as [grid ->].
  { by destruct words. }
  rewrite mbind_Some.
  destruct (grid_fields grid.1 (levelState words st)) as (Hw' & Hn' & Hl').
  set (s0 := initializeSelection _) in *. clearbody s0.
  rewrite <- Hl, <- Hl' in Hs.
  destruct (loadFoundWords_inModel s0 Hs) as (found & other & ->).
  rewrite mbind_Some.
  destruct (setFoundWords_fields found other s0) as (Hw'' & Hn'' & Hr).
  eexists. split; [reflexivity|].
  rewrite Hw'', Hn'', Hr, Hw', Hn', Hw, Hn. done.
Qed.

Lemma generateNewLevel_fallback d fetched draws st :
  dictionaryWellFormed d →
  storageInModel (localStorage st) →
  fetched = None ∨ fetched = Some [] →
  ∃ st', generateNewLevel d fetched draws st = Some st' ∧
         currentLevelWords st' = (fallbackLevelWords d draws).1 ∧
         wordsNeededForProgression st' = length (currentLevelWords st').
Proof.
  intros Hd Hs Hf.
  destruct (generateNewLevel_inModel d fetched draws st Hs)
    as (st' & Hgen & Hwords & Hneeded & _).
  exists st'. split_and!; [done | | done].
  rewrite Hwords.
  assert (chooseLevelWords d fetched draws = fallbackLevelWords d draws) as ->
    by (by destruct Hf as [-> | ->]).
  by apply fallbackLevelWords_upper.
Qed.
End Generation.

(** ** Facts about sorting *)

Lemma compare_le_trans (s1 s2 s3 : string) :
  String.compare s1 s2 ≠ Gt → String.compare s2 s3 ≠ Gt →
  String.compare s1 s3 ≠ Gt.
Proof.
  revert s2 s3. induction s1 as [|c1 s1 IH]; intros [|c2 s2] [|c3 s3];
    simpl; try done.
  unfold Ascii.compare.
  destruct (N.compare_spec (N_of_ascii c1) (N_of_ascii c2));
    destruct (N.compare_spec (N_of_ascii c2) (N_of_ascii c3));
    destruct (N.compare_spec (N_of_ascii c1) (N_of_ascii c3));
    try done; try lia.
  apply IH.
Qed.

#[global] Instance strLe_trans : Transitive strLe.
Proof.
  intros s1 s2 s3. unfold strLe, String.leb. intros H12 H23.
  pose proof (compare_le_trans s1 s2 s3).
  destruct (String.compare s1 s2), (String.compare s2 s3),
    (String.compare s1 s3); naive_solver.
Qed.

#[global] Instance strLe_antisym : AntiSymm (=) strLe.
Proof. intros s1 s2. apply String.leb_antisym. Qed.

#[global] Instance strLe_total : Total strLe.
Proof. intros s1 s2. apply String.leb_total. Qed.

(** The sorted array depends on the words only, not on their order. *)
Lemma sort_Permutation (l1 l2 : list string) : l1 ≡ₚ l2 → sort l1 = sort l2.
Proof.
  intros H. unfold sort.
  apply (StronglySorted_unique strLe).
  - apply StronglySorted_merge_sort; apply _.
  - apply StronglySorted_merge_sort; apply _.
  - by rewrite !merge_sort_Permutation.
Qed.

(** ** Facts about JSON *)

Section Json.
Implicit Types (s rest : list ascii) (ws : list string).

Lemma parseChars_escapeChar c rest :
  parseChars (escapeChar c ++ rest) = consChar c (parseChars rest).
Proof. destruct c as [[] [] [] [] [] [] [] []]; reflexivity. Qed.

Lemma parseChars_escaped s rest :
  parseChars (flat_map escapeChar s ++ DQUOTE :: rest) = Parsed (s, rest).
Proof.
  induction s as [|c s IH]; [done|].
  simpl. rewrite <- app_assoc, parseChars_escapeChar, IH. done.
Qed.

Lemma quote_app (w : string) rest :
  quote w ++ rest
  = DQUOTE :: flat_map escapeChar (list_ascii_of_string w) ++ DQUOTE :: rest.
Proof. unfold quote. simpl. by rewrite <- app_assoc. Qed.

Lemma parseValue_quote fuel (w : string) rest :
  parseValue (S fuel) (quote w ++ rest) = Parsed (JString w, rest).
Proof.
  rewrite quote_app. simpl.
  rewrite parseChars_escaped. simpl.
  by rewrite string_of_list_ascii_of_string.
Qed.

Lemma parseElements_more fuel (w : string) s :
  parseElements (S (S fuel)) (quote w ++ ","%char :: s)
  = parsedBind (parseElements (S fuel) s)
      (λ r, Parsed (JString w :: r.1, r.2)).
Proof.
  change (parseElements (S (S fuel)) (quote w ++ ","%char :: s))
    with (parsedBind (parseValue (S fuel) (quote w ++ ","%char :: s))
            (λ r, match skipSpace r.2 with
                  | c :: rest =>
                      if Ascii.eqb c "," then
                        parsedBind (parseElements (S fuel) rest)
                          (λ r', Parsed (r.1 :: r'.1, r'.2))
                      else if Ascii.eqb c "]" then Parsed ([r.1], rest)
                      else SyntaxError
                  | [] => SyntaxError
                  end)).
  by rewrite parseValue_quote.
Qed.

Lemma parseElements_last fuel (w : string) rest :
  parseElements (S (S fuel)) (quote w ++ "]"%char :: rest)
  = Parsed ([JString w], rest).
Proof.
  change (parseElements (S (S fuel)) (quote w ++ "]"%char :: rest))
    with (parsedBind (parseValue (S fuel) (quote w ++ "]"%char :: rest))
            (λ r, match skipSpace r.2 with
                  | c :: rest =>
                      if Ascii.eqb c "," then
                        parsedBind (parseElements (S fuel) rest)
                          (λ r', Parsed (r.1 :: r'.1, r'.2))
                      else if Ascii.eqb c "]" then Parsed ([r.1], rest)
                      else SyntaxError
                  | [] => SyntaxError
                  end)).
  by rewrite parseValue_quote.
Qed.

Lemma joinChars_cons sep (x y : list ascii) (l : list (list ascii)) :
  joinChars sep (x :: y :: l) = x ++ sep :: joinChars sep (y :: l).
Proof. done. Qed.

Lemma parseElements_strings fuel (w : string) ws rest :
  (length ws + 2 ≤ fuel)%nat →
  parseElements fuel (joinChars "," (quote <$> (w :: ws)) ++ "]"%char :: rest)
  = Parsed (JString <$> (w :: ws), rest).
Proof.
  revert fuel w. induction ws as [|w' ws IH]; intros fuel w Hfuel;
    (destruct fuel as [|[|fuel]]; [simpl in Hfuel; lia..|]).
  - apply parseElements_last.
  - rewrite (fmap_cons quote w), (fmap_cons quote w'), joinChars_cons.
    rewrite <- app_assoc, <- app_comm_cons, parseElements_more.
    rewrite <- (fmap_cons quote w'), IH by (simpl in Hfuel; lia). done.
Qed.

(** An array of strings, as [JSON.stringify] writes it, reads back. *)
Lemma parseValue_stringArray fuel ws rest :
  (length ws + 3 ≤ fuel)%nat →
  parseValue fuel (stringifyValue (JArray (JString <$> ws)) ++ rest)
  = Parsed (JArray (JString <$> ws), rest).
Proof.
  intros Hfuel. destruct fuel as [|fuel]; [lia|].
  destruct ws as [|w ws]; [done|].
  assert (stringifyValue (JArray (JString <$> w :: ws)) ++ rest
          = "["%char :: joinChars "," (quote <$> (w :: ws)) ++ "]"%char :: rest)
    as ->.
  { cbn [stringifyValue]. rewrite <- app_assoc, <- app_comm_cons.
    do 2 f_equal. by rewrite <- list_fmap_compose. }
  change (parseValue (S fuel) ("["%char :: ?s))
    with (match skipSpace s with
          | "]"%char :: rest' => Parsed (JArray [], rest')
          | _ => parsedBind (parseElements fuel s)
                   (λ r, Parsed (JArray r.1, r.2))
          end).
  rewrite parseElements_strings by (simpl in Hfuel; lia).
  assert (∃ t, joinChars "," (quote <$> w :: ws) ++ "]"%char :: rest
               = DQUOTE :: t) as [t ->]; [|done].
  destruct ws; eexists; unfold quote; simpl; reflexivity.
Qed.

Lemma parseMembers_member fuel (k : string) s :
  parseMembers (S fuel) (quote k ++ ":"%char :: s)
  = parsedBind (parseValue fuel s) (λ r,
      match skipSpace r.2 with
      | c :: rest =>
          if Ascii.eqb c "," then
            parsedBind (parseMembers fuel rest)
              (λ r', Parsed ((k, r.1) :: r'.1, r'.2))
          else if Ascii.eqb c "}" then Parsed ([(k, r.1)], rest)
          else SyntaxError
      | [] => SyntaxError
      end).
Proof.
  rewrite quote_app.
  change (parseMembers (S fuel) (DQUOTE :: ?t))
    with (parsedBind (parseChars t) (λ key,
            match skipSpace key.2 with
            | c2 :: rest2 =>
                if Ascii.eqb c2 ":" then
                  parsedBind (parseValue fuel rest2) (λ r,
                    let member := (string_of_list_ascii key.1, r.1) in
                    match skipSpace r.2 with
                    | c3 :: rest3 =>
                        if Ascii.eqb c3 "," then
                          parsedBind (parseMembers fuel rest3)
                            (λ r', Parsed (member :: r'.1, r'.2))
                        else if Ascii.eqb c3 "}" then Parsed ([member], rest3)
                        else SyntaxError
                    | [] => SyntaxError
                    end)
                else SyntaxError
            | [] => SyntaxError
            end)).
  rewrite parseChars_escaped. cbn [parsedBind fst snd].
  rewrite string_of_list_ascii_of_string. reflexivity.
Qed.

Lemma parseMembers_member_more fuel (k : string) (v : json) s s' :
  parseValue fuel s = Parsed (v, ","%char :: s') →
  parseMembers (S fuel) (quote k ++ ":"%char :: s)
  = parsedBind (parseMembers fuel s') (λ r, Parsed ((k, v) :: r.1, r.2)).
Proof. intros H. by rewrite parseMembers_member, H. Qed.

Lemma parseMembers_member_last fuel (k : string) (v : json) s rest :
  parseValue fuel s = Parsed (v, "}"%char :: rest) →
  parseMembers (S fuel) (quote k ++ ":"%char :: s) = Parsed ([(k, v)], rest).
Proof. intros H. by rewrite parseMembers_member, H. Qed.

Lemma parseValue_object fuel (k : string) s :
  parseValue (S fuel) ("{"%char :: quote k ++ s)
  = parsedBind (parseMembers fuel (quote k ++ s)) (λ r, Parsed (JObject r.1, r.2)).
Proof. by rewrite quote_app. Qed.

Lemma stringifyValue_object2 (k1 k2 : string) (v1 v2 : json) :
  stringifyValue (JObject [(k1, v1); (k2, v2)])
  = ("{"%char :: (quote k1 ++ ":"%char :: stringifyValue v1) ++
       ","%char :: (quote k2 ++ ":"%char :: stringifyValue v2)) ++ ["}"%char].
Proof. done. Qed.

Lemma object2_text (a b c d e : list ascii) :
  (("{"%char :: (a ++ ":"%char :: b) ++ ","%char :: (c ++ ":"%char :: d))
     ++ ["}"%char]) ++ e
  = "{"%char :: a ++ ":"%char :: (b ++ ","%char :: c ++ ":"%char :: (d ++ "}"%char :: e)).
Proof.
  repeat (rewrite <- app_assoc || rewrite <- app_comm_cons). reflexivity.
Qed.

(** The found-words record, as [saveFoundWords] writes it, reads back. *)
Lemma parseValue_foundWordsRecord fuel (l o : list string) rest :
  (length l + length o + 8 ≤ fuel)%nat →
  parseValue fuel (stringifyValue (foundWordsRecord l o) ++ rest)
  = Parsed (foundWordsRecord l o, rest).
Proof.
  intros Hfuel.
  destruct fuel as [|[|[|fuel]]]; [lia..|].
  set (L := stringifyValue (JArray (JString <$> l))).
  set (O := stringifyValue (JArray (JString <$> o))).
  assert (stringifyValue (foundWordsRecord l o) ++ rest
          = "{"%char :: quote "levelWords" ++ ":"%char ::
              (L ++ ","%char :: quote "otherWords" ++ ":"%char ::
                 (O ++ "}"%char :: rest))) as ->.
  { unfold foundWordsRecord. rewrite stringifyValue_object2. apply object2_text. }
  rewrite parseValue_object.
  erewrite parseMembers_member_more;
    [|by apply parseValue_stringArray; lia].
  erewrite parseMembers_member_last;
    [|by apply parseValue_stringArray; lia].
  reflexivity.
Qed.

Lemma length_joinChars_quote ws :
  (length ws ≤ length (joinChars "," (quote <$> ws)))%nat.
Proof.
  induction ws as [|w [|w' ws] IH].
  - done.
  - unfold quote. simpl. rewrite length_app. simpl. lia.
  - rewrite (fmap_cons quote w), (fmap_cons quote w'), joinChars_cons.
    rewrite <- (fmap_cons quote w'). rewrite length_app. simpl in *. lia.
Qed.

Lemma length_stringArray ws :
  (length ws ≤ length (stringifyValue (JArray (JString <$> ws))))%nat.
Proof.
  cbn [stringifyValue]. rewrite <- list_fmap_compose.
  change (stringifyValue ∘ JString) with quote.
  pose proof (length_joinChars_quote ws).
  simpl. rewrite length_app. lia.
Qed.

Theorem JSON_parse_stringify_foundWordsRecord (l o : list string) :
  JSON_parse (JSON_stringify (foundWordsRecord l o))
  = Parsed (foundWordsRecord l o).
Proof.
  unfold JSON_parse, JSON_stringify.
  rewrite list_ascii_of_string_of_list_ascii.
  set (t := stringifyValue (foundWordsRecord l o)).
  assert (length l + length o + 3 ≤ length t)%nat as Hlen.
  { unfold t, foundWordsRecord. rewrite stringifyValue_object2.
    pose proof (length_stringArray l). pose proof (length_stringArray o).
    rewrite length_app. cbn [length]. rewrite length_app. cbn [length].
    rewrite !length_app. cbn [length]. lia. }
  pose proof (parseValue_foundWordsRecord (2 * length t + 2) l o []) as H.
  rewrite app_nil_r in H. fold t in H. rewrite H by lia. done.
Qed.

Lemma JSON_stringify_foundWordsRecord_nonempty (l o : list string) :
  String.eqb (JSON_stringify (foundWordsRecord l o)) "" = false.
Proof. done. Qed.

End Json.

(** ** Facts about persistence *)

Section Persistence.
Implicit Types (st : State) (l o : list string).

Lemma matchesLevelWord_Permutation (l1 l2 : list string) (w : string) :
  l1 ≡ₚ l2 → matchesLevelWord l1 w = matchesLevelWord l2 w.
Proof.
  intros H. unfold matchesLevelWord.
  induction H as [|x l1 l2 _ IH|x y l|l1 l2 l3 _ IH1 _ IH2]; simpl.
  - done.
  - by rewrite IH.
  - by destruct (String.eqb _ w), (String.eqb _ w).
  - by rewrite IH1.
Qed.

Lemma getFoundWordsStorageKey_Permutation st st2 :
  currentLevelWords st2 ≡ₚ currentLevelWords st →
  getFoundWordsStorageKey st2 = getFoundWordsStorageKey st.
Proof.
  intros H. unfold getFoundWordsStorageKey.
  rewrite (sort_Permutation _ _ H).
  destruct (decide (currentLevelWords st = [])) as [E|E].
  - rewrite E in H. apply Permutation_nil_r in H. by rewrite decide_True.
  - rewrite decide_False; [done|]. intros E2. rewrite E2 in H.
    by apply Permutation_nil_l in H.
Qed.

Lemma filter_Forall_id {A} (P : A → Prop) `{∀ x, Decision (P x)} (l : list A) :
  Forall P l → filter P l = l.
Proof.
  induction 1 as [|x l Hx _ IH]; [done|].
  rewrite filter_cons_True by done. by rewrite IH.
Qed.

Lemma filterLevelWords_valid (levelWords l : list string) :
  Forall (λ w, matchesLevelWord levelWords (toUpperCase w) = true) l →
  filterLevelWords levelWords (JString <$> l) = Some l.
Proof.
  intros Hl. unfold filterLevelWords. case_decide as Hnil.
  - subst. destruct Hl as [|w l Hw _]; [done|]. done.
  - rewrite (mapM_fmap_Some asString JString) by done. simpl.
    by rewrite filter_Forall_id.
Qed.

Lemma readFoundWords_record (levelWords l o : list string) :
  Forall (λ w, matchesLevelWord levelWords (toUpperCase w) = true) l →
  readFoundWords levelWords (foundWordsRecord l o) = Assigned (l, o).
Proof.
  intros Hl. unfold readFoundWords, foundWordsRecord.
  change (getMember "levelWords" _) with (Some (JArray (JString <$> l))).
  change (getMember "otherWords" _) with (Some (JArray (JString <$> o))).
  cbn [orEmptyArray truthy].
  rewrite filterLevelWords_valid by done.
  by rewrite (mapM_fmap_Some asString JString).
Qed.

(** What was saved for a level is what a later load for the same level
    assigns. *)
Lemma loadFoundWords_saved st st2 :
  Forall (λ w, matchesLevelWord (currentLevelWords st) (toUpperCase w) = true)
         (foundWords st) →
  currentLevelWords st2 ≡ₚ currentLevelWords st →
  localStorage st2 = localStorage (saveFoundWords st) →
  loadFoundWords st2
  = Some (setFoundWords (foundWords st) (otherFoundWords st) st2).
Proof.
  intros Hvalid Hperm Hstore. unfold loadFoundWords.
  rewrite (getFoundWordsStorageKey_Permutation _ _ Hperm), Hstore.
  unfold saveFoundWords. cbn [localStorage set_localStorage].
  rewrite lookup_insert_eq.
  rewrite JSON_stringify_foundWordsRecord_nonempty.
  rewrite JSON_parse_stringify_foundWordsRecord.
  rewrite readFoundWords_record; [done|].
  eapply Forall_impl; [exact Hvalid|]. intros w Hw.
  by rewrite (matchesLevelWord_Permutation _ _ _ Hperm).
Qed.

Lemma setFoundWords_consistent l o st :
  NoDup l → NoDup o →
  Forall (λ w, matchesLevelWord (currentLevelWords st) (toUpperCase w) = true) l →
  Forall (λ w, matchesLevelWord (currentLevelWords st) (toUpperCase w) = false) o →
  foundWordsConsistent (setFoundWords l o st).
Proof.
  intros Hl Ho Hfl Hfo. unfold foundWordsConsistent. simpl.
  split_and!; try done; intros w; apply elem_of_list_to_set.
Qed.

(** The empty record is consistent. *)
Lemma setFoundWords_empty_consistent st :
  foundWordsConsistent (setFoundWords [] [] st).
Proof.
  apply setFoundWords_consistent;
    [apply NoDup_nil_2 | apply NoDup_nil_2 | apply Forall_nil_2 | apply Forall_nil_2].
Qed.

(** A consistent record that was saved is consistent when loaded again. *)
Lemma loadFoundWords_consistent st st2 :
  foundWordsConsistent st →
  currentLevelWords st2 ≡ₚ currentLevelWords st →
  localStorage st2 = localStorage (saveFoundWords st) →
  ∃ st', loadFoundWords st2 = Some st' ∧ foundWordsConsistent st'.
Proof.
  intros (_ & _ & Hn1 & Hn2 & Hf1 & Hf2) Hperm Hstore.
  rewrite (loadFoundWords_saved st st2) by done.
  eexists. split; [done|].
  apply setFoundWords_consistent; try done.
  - eapply Forall_impl; [exact Hf1|]. intros w Hw. simpl.
    by rewrite (matchesLevelWord_Permutation _ _ _ Hperm).
  - eapply Forall_impl; [exact Hf2|]. intros w Hw. simpl.
    by rewrite (matchesLevelWord_Permutation _ _ _ Hperm).
Qed.
End Persistence.

(** ** The selection through a submission *)

Lemma selectionValid_same (st st' : State) :
  letters st' = letters st →
  selectedColumnIndices st' = selectedColumnIndices st →
  selectionValid st → selectionValid st'.
Proof. intros Hl Hs H row r. rewrite Hl, Hs. apply H. Qed.

Lemma afterAccept_selectionValid (st : State) : selectionValid (afterAccept st).
Proof.
  unfold afterAccept, removeUsedLetters, cleanUpGrid.
  apply validateAndFixIndices_valid.
Qed.

Lemma autoAdvanceSelection_valid (st : State) :
  selectionValid (autoAdvanceSelection st).
Proof. unfold autoAdvanceSelection. apply validateAndFixIndices_valid. Qed.

(** The banner and the completion record do not touch the grid. *)
Lemma selectionValid_showResult m t (st : State) :
  selectionValid st → selectionValid (showResult m t st).
Proof. intros H row r. apply H. Qed.

Lemma selectionValid_completion (st : State) :
  selectionValid st → selectionValid (set_location "completion.html" (storeCompletion st)).
Proof. intros H row r. apply H. Qed.

(** Whatever [confirmWord] does, a valid selection stays valid. *)
Lemma confirmWord_selectionValid (d : Dictionary) (fetched : option (list string))
    (draws : list nat) (st : State) :
  selectionValid st →
  ∃ st', confirmWord d fetched draws st = Some st' ∧ selectionValid st'.
Proof.
  intros Hsel.
  destruct (decide (submissionValid d st)) as [[Hv Hl]|Hn].
  - exists (acceptOutcome st). split; [by apply confirmWord_valid|].
    unfold acceptOutcome. case_decide; [|destruct (isGridEmpty (afterAccept st))].
    + apply selectionValid_completion, afterAccept_selectionValid.
    + apply selectionValid_showResult, afterAccept_selectionValid.
    + apply selectionValid_showResult, autoAdvanceSelection_valid.
  - destruct (confirmWord_invalid d fetched draws st Hn) as [m ->].
    eexists. split; [reflexivity|].
    by apply selectionValid_showResult.
Qed.

(** * The claims *)

Example exampleLevel_reached :
  init None (Some ["EAGLE"; "MOUSE"]%string) [] (newDictionary, newWordJamGame ∅)
  = Some (fallbackDictionary, exampleLevel).
Proof. vm_compute. reflexivity. Qed.


(** Scenario 2 of the specification: AXED is not a word of the fallback
    dictionary, so the dictionary here is the fallback one with AXED
    indexed; the level asks for five letters. *)
Example confirmWord_rejects_AXED :
  let d := mkDictionary (indexWord (wordsByLength fallbackDictionary) "AXED") true in
  let st := set_selectedColumnIndices [1; 0; 1; 7; 0]
              (set_letters [["M"; "A"]; ["X"; "A"]; ["U"; "E"]; ["S"; "L"]; ["D"; "E"]]%char
                 exampleLevel) in
  buildWordFromSelection st = "AXED"%string ∧
  isValidWord d "AXED" = true ∧
  confirmWord d None [] st = Some (showResult "Not a valid word." error st).
Proof. vm_compute. done. Qed.



(** C9: while fewer level words are found than the progression count
    asks for, [progressToNextLevel] refuses with an informational banner
    and leaves the level number, the grid and the found words alone. The
    count is the number of level words: [generateNewLevel] sets it so
    ([generateNewLevel_inModel]) and nothing else writes it. *)
Theorem progressToNextLevel_gate (d : Dictionary) (fetched : option (list string))
    (draws : list nat) (st : State) :
  (length (foundWords st) < wordsNeededForProgression st)%nat →
  ∃ st', progressToNextLevel d fetched draws st = Some st' ∧
         progressionRefused st st'.
Proof.
  intros H. rewrite progressToNextLevel_refusal by done.
  eexists. split; [done|]. split_and!; try done. by eexists.
Qed.







Lemma progressToNextLevel_gate_witness :
  (length (foundWords exampleLevel) < wordsNeededForProgression exampleLevel)%nat ∧
  ∃ st', progressToNextLevel fallbackDictionary None [] exampleLevel = Some st' ∧
         progressionRefused exampleLevel st'.
Proof.
  split; [simpl; lia|].
  apply (progressToNextLevel_gate fallbackDictionary None [] exampleLevel).
  simpl; lia.
Defined.

(** C2: after [cleanUpGrid] all rows have the same length, and no row
    consists of empty markers only (so a grid with a row has a letter in
    every row; a grid without letters has no row). *)
Theorem cleanUpGrid_rectangular (st : State) :
  rectangular (letters (cleanUpGrid st)) ∧ noEmptyRow (letters (cleanUpGrid st)).
Proof.
  rewrite cleanUpGrid_letters. split.
  - intros r1 r2 H1 H2.
    by rewrite (compact_row_length _ _ H1), (compact_row_length _ _ H2).
  - intros r Hr Hall.
    apply compact_row_shape in Hr as (r0 & _ & [Hne Hr0] & ->).
    destruct r0 as [|c r0]; [done|].
    unfold padRow in Hall. simpl in Hall.
    apply Forall_cons_1 in Hall as [Hc _].
    by apply Forall_cons_1 in Hr0 as [Hc' _].
Qed.

(** C6: [cleanUpGrid] is idempotent: a second pass changes no cell, and no
    selection index either. *)
Theorem compaction_idempotent (st : State) :
  cleanUpGrid (cleanUpGrid st) = cleanUpGrid st.
Proof. apply cleanUpGrid_idempotent. Qed.

Lemma initializeSelection_valid st : selectionValid (initializeSelection st).
Proof.
  intros row r Hr. simpl in *. rewrite list_lookup_fmap, Hr. simpl.
  eexists. split; [reflexivity|].
  destruct (decide (r = [])) as [->|Hne]; [done|].
  assert (0 < length r)%nat as Hpos by (destruct r; simpl; [done | lia]).
  rewrite decide_True by done.
  assert (length r / 2 < length r)%nat as Hlt by (apply Nat.div_lt; lia).
  change (Nat.divmod (length r) 1 0 1).1 with (length r / 2)%nat.
  revert Hlt. generalize (length r / 2)%nat. intros n Hn. lia.
Qed.

(** C4: every path that ends in [validateAndFixIndices] leaves each row
    with a selection index that is 0 for a row without cells and within
    [0, rowLength-1] otherwise, and so does [initializeSelection]; a
    negative index is set to 0 and one past the row to the last column,
    an index within the row is kept. No case of the functions is left
    without a result. *)
Theorem selection_valid_after_validation (st : State) :
  selectionValid (validateAndFixIndices st) ∧
  selectionValid (cleanUpGrid st) ∧
  selectionValid (removeUsedLetters st) ∧
  selectionValid (autoAdvanceSelection st) ∧
  selectionValid (initializeSelection st) ∧
  (∀ row r i,
     letters st !! row = Some r → selectedColumnIndices st !! row = Some i →
     selectedColumnIndices (validateAndFixIndices st) !! row =
       Some (if decide (i < 0) then 0
             else if decide (Z.of_nat (length r) ≤ i)
                  then Z.max 0 (Z.of_nat (length r) - 1)
                  else i)).
Proof.
  split_and!; try apply validateAndFixIndices_valid.
  { apply initializeSelection_valid. }
  intros row r i Hr Hi. unfold validateAndFixIndices. simpl.
  rewrite list_lookup_imap, lookup_app_l by by eapply lookup_lt_Some.
  rewrite Hi. simpl. unfold fixIndex. rewrite Hr. f_equal.
  destruct (Z.ltb_spec i 0), (Z.geb_spec i (Z.of_nat (length r)));
    repeat case_decide; lia.
Qed.

(** Clamping at work: a negative index, one past the row, one on a row
    that is gone, and a row the index array did not cover. *)
Example validateAndFixIndices_clamps :
  selectedColumnIndices
    (validateAndFixIndices
       (set_selectedColumnIndices [-3; 9; 1]
          (set_letters [["A"; "B"]; ["C"; "D"; "E"]; []; ["F"]]%char exampleLevel)))
  = [0; 2; 0; 0].
Proof. reflexivity. Qed.

(** C3, as the specification states it, fails: the level of BEAR, FROG
    and ANT, after BEAR is taken, keeps the last row's selection on the
    padding of that row. *)
Lemma selection_on_padding_after_cleanUp :
  ¬ selectionOnLetters (cleanUpGrid exampleMarked).
Proof.
  intros H.
  destruct (H 3%nat [ "G"; " " ]%char 1) as (_ & c & Hc & Hne);
    [reflexivity | reflexivity |].
  vm_compute in Hc. by inversion Hc; subst.
Qed.

Example exampleRagged_reached :
  init None (Some ["BEAR"; "FROG"; "ANT"]%string) [2; 1; 2; 1; 2; 1; 2; 0]%nat
       (newDictionary, newWordJamGame ∅)
  = Some (fallbackDictionary,
          set_selectedColumnIndices [1; 1; 1; 1] exampleRagged).
Proof. vm_compute. reflexivity. Qed.

Example exampleRagged_submitted :
  buildWordFromSelection exampleRagged = "BEAR"%string ∧
  ∃ st', confirmWord fallbackDictionary None [] exampleRagged = Some st' ∧
         letters st' = [["F"; "A"]; ["R"; "N"]; ["O"; "T"]; ["G"; " "]]%char ∧
         selectedColumnIndices st' = [0; 0; 0; 1].
Proof. split; [reflexivity|]. eexists. split; vm_compute; done. Qed.

(** C3, amended: after [cleanUpGrid] every row's selection index lies
    inside the row, and the selected cell holds a letter exactly when the
    index is smaller than the number of letters of the row; so it holds a
    letter in every row when no row needed padding. *)
Theorem cleanUpGrid_selection_amended (st : State) :
  selectionOnLettersOrPadding (cleanUpGrid st) ∧
  ((∀ r, r ∈ letters (cleanUpGrid st) → letterCount r = length r) →
   selectionOnLetters (cleanUpGrid st)).
Proof.
  pose proof (cleanUpGrid_selection st) as H. split; [done|].
  intros Hfull row r i Hr Hi.
  destruct (H row r Hr) as (i' & c & Hi' & Hrange & Hc & Hiff).
  rewrite Hi in Hi'. injection Hi' as <-.
  split; [lia|]. exists c. split; [done|]. apply Hiff.
  rewrite Hfull by by eapply list_elem_of_lookup_2. lia.
Qed.

(** C8: when the Word Source gives nothing (or an empty list), the level
    is generated from five words: five different five-letter words of the
    dictionary's five-letter bucket, or, when that bucket holds fewer than
    five words, the hard-coded list CAT, DOG, BAT, HAT, MAT. *)
Theorem generateNewLevel_fallback_words (d : Dictionary)
    (fetched : option (list string)) (draws : list nat) (st : State) :
  dictionaryWellFormed d →
  storageInModel (localStorage st) →
  fetched = None ∨ fetched = Some [] →
  ∃ st', generateNewLevel d fetched draws st = Some st' ∧
         fallbackLevel d (currentLevelWords st') ∧
         wordsNeededForProgression st' = 5%nat.
Proof.
  intros Hd Hs Hf.
  destruct (generateNewLevel_fallback d fetched draws st Hd Hs Hf)
    as (st' & Hgen & Hwords & Hneeded).
  exists st'. split; [done|].
  pose proof (fallbackLevelWords_fallbackLevel d draws Hd) as Hfb.
  rewrite <- Hwords in Hfb. split; [done|].
  destruct Hfb as [Hlen _]. by rewrite Hneeded.
Qed.

(** C7: the found words saved for a level are the found words loaded for
    it again, provided the saved level words belong to the Level Word
    Set; the storage key is computed from the sorted Level Word Set, so
    the same words in any order give the same key. *)
Theorem saveFoundWords_loadFoundWords (st st2 : State) :
  Forall (λ w, matchesLevelWord (currentLevelWords st) (toUpperCase w) = true)
         (foundWords st) →
  currentLevelWords st2 ≡ₚ currentLevelWords st →
  localStorage st2 = localStorage (saveFoundWords st) →
  getFoundWordsStorageKey st2 = getFoundWordsStorageKey st ∧
  ∃ st', loadFoundWords st2 = Some st' ∧
         foundWords st' = foundWords st ∧
         otherFoundWords st' = otherFoundWords st ∧
         foundWordsSet st' = list_to_set (foundWords st) ∧
         otherFoundWordsSet st' = list_to_set (otherFoundWords st).
Proof.
  intros Hvalid Hperm Hstore.
  split; [by apply getFoundWordsStorageKey_Permutation|].
  rewrite (loadFoundWords_saved st st2) by done.
  eexists. split; [done|]. done.
Qed.

Lemma saveFoundWords_loadFoundWords_witness :
  getFoundWordsStorageKey exampleRevisit = getFoundWordsStorageKey exampleReplay ∧
  ∃ st', loadFoundWords exampleRevisit = Some st' ∧
         foundWords st' = foundWords exampleReplay ∧
         otherFoundWords st' = otherFoundWords exampleReplay ∧
         foundWordsSet st' = list_to_set (foundWords exampleReplay) ∧
         otherFoundWordsSet st' = list_to_set (otherFoundWords exampleReplay).
Proof.
  apply (saveFoundWords_loadFoundWords exampleReplay exampleRevisit).
  - repeat constructor.
  - apply perm_swap.
  - reflexivity.
Defined.

Example exampleReplay_saved :
  localStorage (saveFoundWords exampleReplay)
  = {[ "wordjam_foundWords_EAGLE,MOUSE"%string
       := ("{" +:+ quoted "levelWords" +:+ ":[" +:+ quoted "EAGLE" +:+ "],"
             +:+ quoted "otherWords" +:+ ":[]}")%string ]}.
Proof. vm_compute. reflexivity. Qed.

Lemma storageInModel_empty : storageInModel ∅.
Proof. intros key saved levelWords _ H. by rewrite lookup_empty in H. Qed.

Lemma exampleDictionary_wellFormed : dictionaryWellFormed exampleDictionary.
Proof. apply load_wellFormed, newDictionary_wellFormed. Qed.

Lemma generateNewLevel_fallback_words_witness :
  dictionaryWellFormed exampleDictionary ∧
  storageInModel (localStorage (newWordJamGame ∅)) ∧
  ∃ st', generateNewLevel exampleDictionary None [3; 1; 4; 1; 5]%nat (newWordJamGame ∅)
         = Some st' ∧
         fallbackLevel exampleDictionary (currentLevelWords st') ∧
         wordsNeededForProgression st' = 5%nat.
Proof.
  split; [apply exampleDictionary_wellFormed|].
  split; [apply storageInModel_empty|].
  apply (generateNewLevel_fallback_words exampleDictionary None
           [3; 1; 4; 1; 5]%nat (newWordJamGame ∅)).
  - apply exampleDictionary_wellFormed.
  - apply storageInModel_empty.
  - by left.
Defined.

Example fallback_from_dictionary :
  wordsOfLength exampleDictionary 5
  = ["CRANE"; "PLATE"; "GRAPE"; "STONE"; "FLAME"; "SHIRE"]%string ∧
  currentLevelWords
    <$> generateNewLevel exampleDictionary None [3; 1; 4; 1; 5]%nat (newWordJamGame ∅)
  = Some ["SHIRE"; "GRAPE"; "FLAME"; "CRANE"; "PLATE"]%string.
Proof. vm_compute. done. Qed.

Example fallback_hard_coded :
  wordsOfLength fallbackDictionary 5 = ["EAGLE"; "MOUSE"; "SNAKE"; "TIGER"]%string ∧
  (λ st, (currentLevelWords st, currentWordLength st))
    <$> generateNewLevel fallbackDictionary (Some []) [] (newWordJamGame ∅)
  = Some (["CAT"; "DOG"; "BAT"; "HAT"; "MAT"]%string, 3%nat).
Proof. vm_compute. done. Qed.

(** Scenario 1 of the specification, on the level of two words: EAGLE,
    then MOUSE, and the game leaves for the completion page with both
    words stored. *)
Example level_completed :
  (λ st, (foundWords st, coins st, letters st, location st,
          localStorage st !! "completedWords"%string))
    <$> (confirmWord fallbackDictionary None [] exampleLevel
           ≫= confirmWord fallbackDictionary None [])
  = Some (["EAGLE"; "MOUSE"]%string, 20%nat, [], "completion.html"%string,
          Some ("[" +:+ quoted "EAGLE" +:+ "," +:+ quoted "MOUSE" +:+ "]")%string).
Proof. vm_compute. reflexivity. Qed.

(** * Further properties *)

(** ** The dictionary as a set of words *)

Section DictionaryLookup.
Implicit Types (m : gmap nat (list string)) (d : Dictionary) (w : string).

Lemma elem_of_setAdd (x w : string) (ws : list string) :
  x ∈ setAdd w ws ↔ x = w ∨ x ∈ ws.
Proof.
  unfold setAdd. case_decide as Hw.
  - split; [by right|]. by intros [->|Hx].
  - rewrite elem_of_app, list_elem_of_singleton. tauto.
Qed.

(** A bucket after one more word is indexed. *)
Lemma indexWord_bucket m w n :
  default [] (indexWord m w !! n)
  = if decide (n = String.length w) then setAdd w (default [] (m !! n))
    else default [] (m !! n).
Proof.
  unfold indexWord. destruct (decide (n = String.length w)) as [->|Hn].
  - rewrite lookup_insert_eq. simpl. f_equal.
    case_decide as Hs; [done|].
    rewrite lookup_insert_eq. simpl.
    destruct (m !! String.length w) eqn:E; [|done].
    exfalso. apply Hs. by eexists.
  - rewrite lookup_insert_ne by done.
    case_decide; [done|]. by rewrite lookup_insert_ne.
Qed.

Lemma foldl_indexWord_bucket (ws : list string) m x :
  x ∈ default [] (foldl indexWord m ws !! String.length x)
  ↔ x ∈ default [] (m !! String.length x) ∨ x ∈ ws.
Proof.
  revert m. induction ws as [|w ws IH]; intros m; simpl.
  - rewrite elem_of_nil. tauto.
  - rewrite IH, indexWord_bucket, elem_of_cons. case_decide as Hn.
    + rewrite elem_of_setAdd. tauto.
    + split; [tauto|]. intros [H|[->|H]]; [tauto|done|tauto].
Qed.

Lemma String_length_zero (w : string) : String.length w = 0%nat ↔ w = EmptyString.
Proof. by destruct w. Qed.

(** [isValidWord] asks whether the upper-case word is in its bucket. *)
Lemma isValidWord_bucket d w :
  isValidWord d w = true
  ↔ w ≠ EmptyString ∧
    toUpperCase w ∈ default [] (wordsByLength d !! String.length (toUpperCase w)).
Proof.
  unfold isValidWord. rewrite <- String_length_zero. case_decide as Hw.
  - split; [done | tauto].
  - destruct (wordsByLength d !! _) as [words|]; simpl.
    + rewrite bool_decide_eq_true. tauto.
    + rewrite elem_of_nil. split; [done | tauto].
Qed.

Lemma load_loaded response d : loaded (load response d) = true.
Proof. unfold load. destruct (loaded d) eqn:E; [done|]. by destruct response. Qed.
End DictionaryLookup.

(** X1: [load] keeps every bucket a set of upper-case words of the
    bucket's length, whether the word list arrived or the built-in words
    are used. *)
Theorem load_keeps_buckets_well_formed (response : option string) (d : Dictionary) :
  dictionaryWellFormed d → dictionaryWellFormed (load response d).
Proof. apply load_wellFormed. Qed.

Lemma load_keeps_buckets_well_formed_witness :
  dictionaryWellFormed newDictionary ∧
  dictionaryWellFormed (load (Some exampleWordList) newDictionary).
Proof.
  split; [apply newDictionary_wellFormed|].
  apply (load_keeps_buckets_well_formed (Some exampleWordList) newDictionary).
  apply newDictionary_wellFormed.
Defined.

(** X2: after [load] on a fresh dictionary, [isValidWord] holds exactly
    for the non-empty words that are, up to case, a trimmed line of the
    fetched text, or one of the built-in words when the fetch failed. *)
Theorem load_then_isValidWord (w : string) :
  (∀ text,
     isValidWord (load (Some text) newDictionary) w = true
     ↔ w ≠ EmptyString ∧
       ∃ line, line ∈ splitLines text ∧ toUpperCase (trim line) = toUpperCase w) ∧
  (isValidWord (load None newDictionary) w = true ↔ toUpperCase w ∈ fallbackWords).
Proof.
  split.
  - intros text. rewrite isValidWord_bucket.
    change (wordsByLength (load (Some text) newDictionary))
      with (foldl indexWord ∅
              (filter (λ word, (0 < String.length word)%nat)
                      ((λ word, toUpperCase (trim word)) <$> splitLines text))).
    rewrite foldl_indexWord_bucket, lookup_empty.
    change (default [] None) with (@nil string). rewrite elem_of_nil.
    rewrite list_elem_of_filter, list_elem_of_fmap.
    rewrite <- String_length_zero, <- (length_toUpperCase w).
    split.
    + intros (Hw & [[]|(_ & line & Hl & Hin)]). split; [done|]. by exists line.
    + intros (Hw & line & Hin & Hl). split; [done|]. right.
      split; [lia|]. by exists line.
  - rewrite isValidWord_bucket.
    change (wordsByLength (load None newDictionary))
      with (foldl indexWord ∅ fallbackWords).
    rewrite foldl_indexWord_bucket, lookup_empty.
    change (default [] None) with (@nil string). rewrite elem_of_nil.
    split; [tauto|]. intros Hin. split; [|tauto].
    intros ->. unfold fallbackWords in Hin. simpl in Hin.
    repeat (apply elem_of_cons in Hin as [Hin|Hin]; [done|]).
    by apply elem_of_nil in Hin.
Qed.

Example load_then_isValidWord_example :
  isValidWord exampleDictionary "Grape" = true ∧
  isValidWord exampleDictionary "grapes" = false ∧
  isValidWord exampleDictionary "" = false ∧
  wordsOfLength exampleDictionary 4 = ["AXED"]%string ∧
  wordsOfLength exampleDictionary 7 = [].
Proof. by vm_compute. Qed.

(** X3: once loaded, the dictionary is left as it is: a second [load],
    whatever it fetches, changes nothing. *)
Theorem load_twice (response response' : option string) (d : Dictionary) :
  load response' (load response d) = load response d.
Proof.
  pose proof (load_loaded response d) as H.
  unfold load at 1. by rewrite H.
Qed.

(** The word [randomWord] draws. *)
Lemma randomWord_bucket (d : Dictionary) (draws : list nat) (n : nat) :
  (wordsOfLength d n = [] → randomWord d draws n = (None, draws)) ∧
  (wordsOfLength d n ≠ [] →
   ∃ w, (randomWord d draws n).1 = Some w ∧ w ∈ wordsOfLength d n ∧
        (randomWord d draws n).2 = tail draws).
Proof.
  unfold randomWord. split.
  - intros ->. done.
  - intros Hne.
    assert (0 < length (wordsOfLength d n))%nat as Hpos
      by (destruct (wordsOfLength d n); [done | simpl; lia]).
    rewrite decide_False by lia.
    unfold nextRandom. destruct draws as [|x draws]; simpl.
    + destruct (wordsOfLength d n) as [|w ws] eqn:E; [done|].
      exists w. split_and!; [done | apply list_elem_of_here | done].
    + destruct (lookup_lt_is_Some_2 (wordsOfLength d n)
                  (x mod length (wordsOfLength d n))) as [w Hw].
      { apply Nat.mod_upper_bound. lia. }
      exists w. split_and!; [done | | done]. by eapply list_elem_of_lookup_2.
Qed.

(** X4: [randomWord] gives [null] exactly when the dictionary has no word
    of the length asked for; otherwise it gives a word of that bucket,
    and uses up one draw. *)
Theorem randomWord_from_bucket (d : Dictionary) (draws : list nat) (n : nat) :
  (wordsOfLength d n = [] → randomWord d draws n = (None, draws)) ∧
  (wordsOfLength d n ≠ [] →
   ∃ w, (randomWord d draws n).1 = Some w ∧ w ∈ wordsOfLength d n ∧
        (randomWord d draws n).2 = tail draws).
Proof. apply randomWord_bucket. Qed.

(** ** The grid a level starts with *)

Lemma shuffleRows_Forall2 (draws : list nat) (grid : list (list ascii)) :
  Forall2 (≡ₚ) (shuffleRows draws grid).1 grid.
Proof.
  revert draws. induction grid as [|row rows IH]; intros draws; simpl.
  - constructor.
  - pose proof (shuffleArray_Permutation draws row) as Hrow.
    destruct (shuffleArray draws row) as [row' draws'].
    specialize (IH draws'). destruct (shuffleRows draws' rows) as [rows' draws''].
    simpl in *. by constructor.
Qed.

(** Every arrangement that agrees with the array beyond index [i] is
    reached by the loop from [i] down, for some draws. *)
Lemma shuffleFrom_reach {A} (i : nat) (a p : list A) :
  p ≡ₚ a → drop (S i) p = drop (S i) a →
  ∃ draws, shuffleFrom i draws a = (p, []).
Proof.
  revert a. induction i as [|i IH]; intros a Hperm Hdrop.
  - exists []. cbn [shuffleFrom]. f_equal.
    destruct a as [|x a], p as [|y p]; [done | | |].
    + by apply Permutation_nil_r in Hperm.
    + by apply Permutation_nil_l in Hperm.
    + rewrite !skipn_cons, !drop_0 in Hdrop. subst p.
      apply (Permutation_app_inv_r a [y] [x]), Permutation_length_1 in Hperm.
      by subst.
  - pose proof (Permutation_length Hperm) as Hlen.
    destruct (a !! S i) as [x|] eqn:Hx.
    + pose proof (lookup_lt_Some _ _ _ Hx) as Hi.
      destruct (lookup_lt_is_Some_2 p (S i)) as [z Hz]; [lia|].
      assert (take (S (S i)) p ≡ₚ take (S (S i)) a) as Htake.
      { apply (Permutation_app_inv_r (drop (S (S i)) a)).
        rewrite <- Hdrop at 1. by rewrite !take_drop. }
      assert (z ∈ take (S (S i)) a) as Hin.
      { rewrite <- Htake. apply list_elem_of_lookup. exists (S i).
        apply lookup_take_Some. split; [done | lia]. }
      apply list_elem_of_lookup in Hin as [j Hj].
      apply lookup_take_Some in Hj as [Hj Hlt].
      pose proof (lookup_lt_Some _ _ _ Hj) as Hjlen.
      assert (swap a (S i) j = <[S i := z]> (<[j := x]> a)) as Hswap
        by (unfold swap; by rewrite Hx, Hj).
      destruct (IH (swap a (S i) j)) as [draws Hdraws].
      { by rewrite swap_Permutation. }
      { rewrite Hswap, (drop_S p z (S i) Hz).
        rewrite (drop_S _ z (S i));
          [|apply list_lookup_insert_eq; by rewrite length_insert].
        rewrite !drop_insert_lt by lia. by rewrite Hdrop. }
      exists (j :: draws). cbn [shuffleFrom nextRandom].
      replace (j mod (S i + 1))%nat with j; [done|].
      symmetry. apply Nat.mod_small. lia.
    + apply lookup_ge_None in Hx.
      destruct (IH a Hperm) as [draws Hdraws].
      { rewrite !drop_ge by lia. done. }
      exists (0%nat :: draws). cbn [shuffleFrom nextRandom].
      assert (∀ k, swap a (S i) k = a) as Hswap.
      { intros k. unfold swap.
        by rewrite (proj2 (lookup_ge_None a (S i))) by lia. }
      by rewrite Hswap.
Qed.

(** X5: [shuffleArray] returns the elements of its argument in some
    order, nothing lost, added or repeated, and every order of them is
    returned for some draws of [Math.random]. *)
Theorem shuffleArray_permutes {A} (draws : list nat) (array : list A) :
  (shuffleArray draws array).1 ≡ₚ array ∧
  length (shuffleArray draws array).1 = length array ∧
  ∀ p, p ≡ₚ array → ∃ draws', shuffleArray draws' array = (p, []).
Proof.
  pose proof (shuffleArray_Permutation draws array) as H.
  split; [done|]. split; [by rewrite H|].
  intros p Hp. apply shuffleFrom_reach; [done|].
  pose proof (Permutation_length Hp). rewrite !drop_ge by lia. done.
Qed.

(** The rows of a generated grid. *)
Lemma generateLettersGrid_shape (draws : list nat) (validWords : list string) :
  (generateLettersGrid draws validWords = None ↔ validWords = []) ∧
  (validWords ≠ [] →
   ∃ grid draws',
     generateLettersGrid draws validWords = Some (grid, draws') ∧
     length grid = max_list (String.length <$> validWords) ∧
     Forall (λ row, length row = length validWords) grid ∧
     ∀ r row, grid !! r = Some row → row ≡ₚ rowOfLetters r validWords).
Proof.
  unfold generateLettersGrid. split.
  - case_decide; [done|]. split; [done | by intros ->].
  - intros Hne. rewrite decide_False by done.
    set (n := max_list (String.length <$> validWords)).
    set (grid0 := (λ r, rowOfLetters r validWords) <$> seq 0 n).
    change (Some (shuffleRows draws _)) with (Some (shuffleRows draws grid0)).
    pose proof (shuffleRows_Forall2 draws grid0) as Hperm.
    destruct (shuffleRows draws grid0) as [grid draws']. simpl in Hperm.
    exists grid, draws'. split; [done|].
    pose proof (Forall2_length _ _ _ Hperm) as Hlen.
    assert (length grid0 = n) as Hn
      by (unfold grid0; by rewrite length_fmap, length_seq).
    split_and!.
    + lia.
    + apply Forall_forall. intros row Hrow.
      apply list_elem_of_lookup in Hrow as [r Hr].
      destruct (Forall2_lookup_l _ _ _ _ _ Hperm Hr) as (row0 & Hr0 & Hp).
      rewrite Hp. unfold grid0 in Hr0. rewrite list_lookup_fmap in Hr0.
      apply fmap_Some in Hr0 as (k & _ & ->).
      unfold rowOfLetters. by rewrite length_fmap.
    + intros r row Hr.
      destruct (Forall2_lookup_l _ _ _ _ _ Hperm Hr) as (row0 & Hr0 & Hp).
      rewrite Hp. unfold grid0 in Hr0. rewrite list_lookup_fmap in Hr0.
      apply fmap_Some in Hr0 as (k & Hk & ->).
      apply lookup_seq in Hk as [-> _]. done.
Qed.

(** X6: [generateLettersGrid] fails on an empty word list and on no
    other; the grid has as many rows as the longest word has letters,
    every row has one cell per word, and row [r] holds, in some order,
    the letters the words have at index [r], in upper case, with an empty
    marker for each word that is too short. *)
Theorem generateLettersGrid_rows (draws : list nat) (validWords : list string) :
  (generateLettersGrid draws validWords = None ↔ validWords = []) ∧
  (validWords ≠ [] →
   ∃ grid draws',
     generateLettersGrid draws validWords = Some (grid, draws') ∧
     length grid = max_list (String.length <$> validWords) ∧
     Forall (λ row, length row = length validWords) grid ∧
     ∀ r row, grid !! r = Some row → row ≡ₚ rowOfLetters r validWords).
Proof. apply generateLettersGrid_shape. Qed.

Example generateLettersGrid_example :
  generateLettersGrid [2; 1; 2; 1; 2; 1; 2; 0]%nat ["bear"; "Frog"; "ant"]%string
  = Some ([["B"; "F"; "A"]; ["E"; "R"; "N"]; ["A"; "O"; "T"]; ["G"; "R"; " "]]%char, []) ∧
  generateLettersGrid [1; 2; 3]%nat [] = None.
Proof. by vm_compute. Qed.

(** ** The selection, the word and the letters *)

Section Letters.
Implicit Types (ls : list (list ascii)) (sel : list Z) (r : list ascii).

Lemma buildWordFromSelection_letters (st : State) :
  buildWordFromSelection st
  = string_of_list_ascii (selectedLetters (letters st) (selectedColumnIndices st)).
Proof. done. Qed.

Lemma length_string_of_list_ascii (l : list ascii) :
  String.length (string_of_list_ascii l) = length l.
Proof. induction l as [|c l IH]; [done|]. simpl. by rewrite IH. Qed.

Lemma selectedLetters_nil_l sel : selectedLetters [] sel = [].
Proof.
  unfold selectedLetters.
  rewrite (imap_ext _ (λ _ _, None)) by done.
  induction sel as [|col sel IH]; [done|]. rewrite imap_cons. exact IH.
Qed.

Lemma selectedLetters_cons r ls (col : Z) sel :
  selectedLetters (r :: ls) (col :: sel)
  = match (if inRow col r then r !! Z.to_nat col else None) with
    | Some letter => if decide (letter ≠ EMPTY)
                     then letter :: selectedLetters ls sel
                     else selectedLetters ls sel
    | None => selectedLetters ls sel
    end.
Proof.
  unfold selectedLetters. rewrite imap_cons. cbn [omap list_omap].
  rewrite (imap_ext (selectedCell (r :: ls) ∘ S) (selectedCell ls)) by done.
  unfold selectedCell at 1. simpl.
  destruct (if inRow col r then r !! Z.to_nat col else None) as [letter|]; [|done].
  by case_decide.
Qed.

Lemma markUsed_cons r ls (col : Z) sel :
  imap (markUsed (col :: sel)) (r :: ls)
  = (if inRow col r then <[Z.to_nat col := EMPTY]> r else r)
      :: imap (markUsed sel) ls.
Proof. rewrite imap_cons. by rewrite (imap_ext _ (markUsed sel)). Qed.

Lemma markUsed_nil ls : imap (markUsed []) ls = ls.
Proof.
  rewrite (imap_ext _ (const id)) by done.
  by rewrite imap_const, list_fmap_id.
Qed.

Lemma letterCount_app r1 r2 : letterCount (r1 ++ r2) = (letterCount r1 + letterCount r2)%nat.
Proof. unfold letterCount. by rewrite filter_app, length_app. Qed.

Lemma letterCount_cons c r :
  letterCount (c :: r) = ((if decide (c ≠ EMPTY) then 1 else 0) + letterCount r)%nat.
Proof.
  unfold letterCount. rewrite filter_cons. by destruct (decide (c ≠ EMPTY)).
Qed.

(** Blanking a cell takes one letter away when the cell held one. *)
Lemma letterCount_blank r (k : nat) (c : ascii) :
  r !! k = Some c →
  (letterCount (<[k := EMPTY]> r) + (if decide (c ≠ EMPTY) then 1 else 0))%nat
  = letterCount r.
Proof.
  intros Hk. pose proof (lookup_lt_Some _ _ _ Hk) as Hlt.
  rewrite insert_take_drop by done.
  rewrite <- (take_drop_middle r k c Hk) at 3.
  rewrite !letterCount_app, !letterCount_cons.
  rewrite (decide_False (P := EMPTY ≠ EMPTY)) by (by intros H). lia.
Qed.

Lemma totalLetters_cons r ls :
  totalLetters (r :: ls) = (letterCount r + totalLetters ls)%nat.
Proof. done. Qed.

Lemma markUsed_selectedLetters ls sel :
  (totalLetters (imap (markUsed sel) ls) + length (selectedLetters ls sel))%nat
  = totalLetters ls.
Proof.
  revert sel. induction ls as [|r ls IH]; intros sel.
  - by rewrite selectedLetters_nil_l.
  - destruct sel as [|col sel].
    + by rewrite markUsed_nil.
    + rewrite markUsed_cons, selectedLetters_cons, !totalLetters_cons.
      specialize (IH sel).
      destruct (inRow col r) eqn:Hin; [|lia].
      destruct (r !! Z.to_nat col) as [c|] eqn:Hc.
      * pose proof (letterCount_blank r _ c Hc).
        case_decide; simpl in *; lia.
      * rewrite list_insert_ge by by apply lookup_ge_None. lia.
Qed.

Lemma totalLetters_stripRows ls :
  totalLetters ls = sum_list (length <$> stripRows ls).
Proof.
  unfold totalLetters, stripRows, letterCount.
  induction ls as [|r ls IH]; [done|].
  rewrite !fmap_cons. cbn [sum_list]. rewrite IH.
  destruct (filter (λ c, c ≠ EMPTY) r) as [|c r'] eqn:E.
  - by rewrite filter_cons_False by (simpl; lia).
  - by rewrite filter_cons_True by (simpl; lia).
Qed.

Lemma totalLetters_compact ls : totalLetters (compact ls) = totalLetters ls.
Proof. by rewrite !totalLetters_stripRows, stripRows_compact. Qed.

Lemma selectedLetters_bounds ls sel :
  Forall (λ c, c ≠ EMPTY) (selectedLetters ls sel) ∧
  (length (selectedLetters ls sel) ≤ length ls)%nat ∧
  (length (selectedLetters ls sel) ≤ length sel)%nat.
Proof.
  revert sel. induction ls as [|r ls IH]; intros sel.
  - rewrite selectedLetters_nil_l. split_and!; [constructor | done | simpl; lia].
  - destruct sel as [|col sel]; [split_and!; [constructor | simpl; lia | done]|].
    rewrite selectedLetters_cons. destruct (IH sel) as (H1 & H2 & H3).
    destruct (if inRow col r then r !! Z.to_nat col else None) as [c|];
      [case_decide|]; simpl; split_and!; try lia; try done.
    by constructor.
Qed.

Lemma letterCount_zero r : letterCount r = 0%nat ↔ Forall (λ c, c = EMPTY) r.
Proof.
  induction r as [|c r IHr]; [by split; [constructor|]|].
  rewrite letterCount_cons, Forall_cons, <- IHr.
  case_decide as Hc; [split; [lia | tauto]|].
  split; [intros; split; [done | lia] | lia].
Qed.

Lemma totalLetters_zero ls :
  totalLetters ls = 0%nat ↔ Forall (Forall (λ c, c = EMPTY)) ls.
Proof.
  induction ls as [|r ls IH]; [by split; [constructor|]|].
  rewrite totalLetters_cons, Forall_cons, <- IH, <- letterCount_zero. lia.
Qed.

Lemma isGridEmpty_Forall (st : State) :
  isGridEmpty st = true ↔ Forall (Forall (λ c, c = EMPTY)) (letters st).
Proof.
  unfold isGridEmpty. rewrite orb_true_iff, bool_decide_eq_true.
  assert (forallb (forallb (λ letter, bool_decide (letter = EMPTY))) (letters st) = true
          ↔ Forall (Forall (λ c, c = EMPTY)) (letters st)) as ->.
  { rewrite forallb_forall, Forall_forall. setoid_rewrite <- list_elem_of_In.
    apply forall_proper. intros r. apply forall_proper. intros _.
    rewrite forallb_forall, Forall_forall. setoid_rewrite <- list_elem_of_In.
    apply forall_proper. intros c. apply forall_proper. intros _.
    by rewrite bool_decide_eq_true. }
  split; [|tauto]. intros [Hlen|H]; [|done].
  destruct (letters st); [constructor | done].
Qed.

Lemma fixIndex_advanceIndex ls (row : nat) (i : Z) :
  fixIndex ls row (advanceIndex ls row i) = fixIndex ls row i.
Proof.
  unfold fixIndex, advanceIndex. destruct (ls !! row) as [r|]; [|done].
  cbv zeta.
  destruct (Z.geb_spec i (Z.of_nat (length r)));
    [destruct (Z.ltb_spec (Z.max 0 (i - 1)) (Z.of_nat (length r)))|];
  repeat match goal with
         | |- context [?a <? ?b] => destruct (Z.ltb_spec a b)
         | |- context [?a >=? ?b] => destruct (Z.geb_spec a b)
         end; lia.
Qed.
End Letters.

(** X7: the word built from the selection never contains the empty
    marker, and has at most one letter per row and per selection entry;
    without rows there is no word. *)
Theorem buildWordFromSelection_bounds (st : State) :
  Forall (λ c, c ≠ EMPTY) (list_ascii_of_string (buildWordFromSelection st)) ∧
  (String.length (buildWordFromSelection st) ≤ length (letters st))%nat ∧
  (String.length (buildWordFromSelection st) ≤ length (selectedColumnIndices st))%nat ∧
  (letters st = [] → buildWordFromSelection st = EmptyString).
Proof.
  rewrite buildWordFromSelection_letters, length_string_of_list_ascii,
    list_ascii_of_string_of_list_ascii.
  destruct (selectedLetters_bounds (letters st) (selectedColumnIndices st))
    as (H1 & H2 & H3).
  split_and!; try done. intros ->. by rewrite selectedLetters_nil_l.
Qed.

(** X8: [removeUsedLetters] takes exactly the letters of the built word
    out of the grid: the letters left and the letters of the word add up
    to the letters there were. *)
Theorem removeUsedLetters_conserves_letters (st : State) :
  (totalLetters (letters (removeUsedLetters st))
   + String.length (buildWordFromSelection st))%nat
  = totalLetters (letters st).
Proof.
  rewrite buildWordFromSelection_letters, length_string_of_list_ascii.
  change (letters (removeUsedLetters st))
    with (compact (imap (markUsed (selectedColumnIndices st)) (letters st))).
  rewrite totalLetters_compact. apply markUsed_selectedLetters.
Qed.

(** X9: [isGridEmpty] holds exactly when the grid holds no letter; after
    [cleanUpGrid] that is exactly when the grid has no row left. *)
Theorem isGridEmpty_no_letters (st : State) :
  (isGridEmpty st = true ↔ totalLetters (letters st) = 0%nat) ∧
  (isGridEmpty (cleanUpGrid st) = true ↔ letters (cleanUpGrid st) = []).
Proof.
  split.
  - by rewrite isGridEmpty_Forall, totalLetters_zero.
  - rewrite isGridEmpty_Forall. split.
    + intros Hall. destruct (letters (cleanUpGrid st)) as [|r ls] eqn:E; [done|].
      exfalso. apply Forall_cons_1 in Hall as [Hr _].
      assert (r ∈ compact (letters st)) as Hin.
      { rewrite <- cleanUpGrid_letters, E. apply list_elem_of_here. }
      apply compact_row_shape in Hin as (r0 & _ & [Hne Hr0] & ->).
      destruct r0 as [|c r0]; [done|]. unfold padRow in Hr. simpl in Hr.
      apply Forall_cons_1 in Hr as [Hc _].
      by apply Forall_cons_1 in Hr0 as [Hc' _].
    + intros ->. constructor.
Qed.

(** X10: [autoAdvanceSelection] does what [validateAndFixIndices] does
    and no more: its own step to the left is always what the clamping
    would have given. After [cleanUpGrid] it changes nothing. *)
Theorem autoAdvanceSelection_is_validation (st : State) :
  autoAdvanceSelection st = validateAndFixIndices st ∧
  autoAdvanceSelection (cleanUpGrid st) = cleanUpGrid st.
Proof.
  assert (∀ s, autoAdvanceSelection s = validateAndFixIndices s) as H.
  { intros s. unfold autoAdvanceSelection, validateAndFixIndices.
    destruct s as [? ? ? ? ? ? ? ? ? ? ? ? ls sel ? ? ? ? ? ?].
    cbn [letters selectedColumnIndices set_selectedColumnIndices].
    unfold set_selectedColumnIndices. cbn. f_equal.
    rewrite length_imap. apply list_eq. intros row.
    rewrite !list_lookup_imap.
    destruct (decide (row < length sel)%nat) as [Hlt|Hge].
    - rewrite !lookup_app_l by (by rewrite ?length_imap).
      rewrite list_lookup_imap.
      destruct (sel !! row) as [i|]; [|done]. simpl.
      by rewrite fixIndex_advanceIndex.
    - rewrite !lookup_app_r by (rewrite ?length_imap; lia).
      by rewrite length_imap. }
  split; [apply H|]. rewrite H. unfold cleanUpGrid.
  apply validateAndFixIndices_idempotent.
Qed.

(** ** What a submission leaves alone *)

Section SubmissionFrame.
Variables (d : Dictionary).
Implicit Types (st : State).

Lemma sameLevelAndSession_refl st : sameLevelAndSession st st.
Proof. done. Qed.

Lemma sameLevelAndSession_trans st1 st2 st3 :
  sameLevelAndSession st1 st2 → sameLevelAndSession st2 st3 →
  sameLevelAndSession st1 st3.
Proof.
  unfold sameLevelAndSession. intros (?&?&?&?&?&?&?&?) (?&?&?&?&?&?&?&?).
  split_and!; congruence.
Qed.

Lemma recordWord_sameLevel W st : sameLevelAndSession st (recordWord W st).
Proof.
  unfold recordWord.
  destruct (matchesLevelWord _ _), (bool_decide (W ∈ foundWordsSet st)),
    (bool_decide (W ∈ otherFoundWordsSet st)); simpl; done.
Qed.

Lemma afterAccept_sameLevel st : sameLevelAndSession st (afterAccept st).
Proof.
  unfold afterAccept. cbv zeta.
  eapply sameLevelAndSession_trans; [apply recordWord_sameLevel|]. done.
Qed.

Lemma showResult_sameLevel m t st : sameLevelAndSession st (showResult m t st).
Proof. done. Qed.

Lemma storeCompletion_sameLevel st :
  sameLevelAndSession st (set_location "completion.html" (storeCompletion st)).
Proof. done. Qed.

Lemma autoAdvanceSelection_sameLevel st :
  sameLevelAndSession st (autoAdvanceSelection st).
Proof. done. Qed.

Lemma acceptOutcome_sameLevel st : sameLevelAndSession st (acceptOutcome st).
Proof.
  eapply sameLevelAndSession_trans; [apply afterAccept_sameLevel|].
  unfold acceptOutcome. cbv zeta.
  destruct (decide _); [apply storeCompletion_sameLevel|].
  destruct (isGridEmpty _); [apply showResult_sameLevel|].
  eapply sameLevelAndSession_trans;
    [apply autoAdvanceSelection_sameLevel | apply showResult_sameLevel].
Qed.

Lemma confirmWord_outcome (fetched : option (list string)) (draws : list nat) st :
  confirmWord d fetched draws st
  = Some (if decide (submissionValid d st) then acceptOutcome st
          else showResult
                 (if decide (String.length (buildWordFromSelection st) = 0%nat)
                  then "Not a valid word" else "Not a valid word.")%string
                 error st).
Proof.
  case_decide as Hv.
  - destruct Hv. by apply confirmWord_valid.
  - unfold confirmWord. case_decide as H0; [done|].
    destruct (isValidWord _ _) eqn:Hw; [|done].
    case_bool_decide as Hl; [|done]. by destruct Hv.
Qed.
End SubmissionFrame.

(** X11: a submission never starts a level. Whatever is submitted,
    [confirmWord] returns, and the level number, the level words, the
    word length, the progression count, the lives, the highscore and the
    tries are what they were; the call of [progressToNextLevel] inside it
    never consumes the fetched words or a random draw. *)
Theorem confirmWord_never_leaves_level (d : Dictionary)
    (fetched : option (list string)) (draws : list nat) (st : State) :
  ∃ st', confirmWord d fetched draws st = Some st' ∧
         confirmWord d None [] st = Some st' ∧
         sameLevelAndSession st st'.
Proof.
  eexists. split; [apply confirmWord_outcome|].
  split; [apply confirmWord_outcome|].
  case_decide; [apply acceptOutcome_sameLevel | apply showResult_sameLevel].
Qed.

(** ** Numbers written and read back *)

Section Numbers.

Lemma pretty_N_char_digit (k : N) :
  (k < 10)%N →
  isDigit (pretty_N_char k) = true ∧
  Z.of_nat (nat_of_ascii (pretty_N_char k) - 48) = Z.of_N k.
Proof.
  intros Hk.
  assert (k = 0 ∨ k = 1 ∨ k = 2 ∨ k = 3 ∨ k = 4 ∨ k = 5 ∨ k = 6 ∨ k = 7
          ∨ k = 8 ∨ k = 9)%N as H by lia.
  repeat (destruct H as [->|H]; [done|]). by subst.
Qed.

Lemma pretty_N_go_digits (x : N) (s : string) :
  ∃ l, list_ascii_of_string (pretty_N_go x s) = l ++ list_ascii_of_string s ∧
       Forall (λ c, isDigit c = true) l ∧
       ((0 < x)%N → l ≠ []) ∧
       ∀ acc t, digitsValue acc (l ++ t)
                = digitsValue (acc * 10 ^ Z.of_nat (length l) + Z.of_N x) t.
Proof.
  revert s. induction (N.lt_wf_0 x) as [x _ IH]. intros s.
  destruct (decide (x = 0)%N) as [->|Hx].
  { exists []. rewrite pretty_N_go_0. split_and!; [done | constructor | lia |].
    intros acc t. simpl. f_equal. lia. }
  rewrite pretty_N_go_step by lia.
  destruct (pretty_N_char_digit (x `mod` 10)%N) as [Hc Hv];
    [by apply N.mod_lt|].
  destruct (IH (x `div` 10)%N (N.div_lt x 10 ltac:(lia) eq_refl)
              (String (pretty_N_char (x `mod` 10)) s))
    as (l & Hl & Hd & _ & Hval).
  exists (l ++ [pretty_N_char (x `mod` 10)]). split_and!.
  - rewrite Hl. by rewrite <- app_assoc.
  - apply Forall_app. split; [done|]. by constructor.
  - intros _. by destruct l.
  - intros acc t. rewrite <- app_assoc. cbn [app]. rewrite Hval.
    cbn [digitsValue]. rewrite Hc, Hv. f_equal.
    rewrite length_app, Nat2Z.inj_add, Z.pow_add_r by lia.
    rewrite N2Z.inj_div, N2Z.inj_mod. cbn [length].
    change (Z.of_N 10) with 10. change (10 ^ Z.of_nat 1) with 10.
    pose proof (Z.div_mod (Z.of_N x) 10). lia.
Qed.

Lemma isDigit_first (c : ascii) (l : list ascii) :
  isDigit c = true →
  (parseInt10 (string_of_list_ascii (c :: l)) = Some (1 * digitsValue 0 (c :: l))) ∧
  (parseInt10 (String "-" (string_of_list_ascii (c :: l)))
   = Some (-1 * digitsValue 0 (c :: l))).
Proof.
  intros H. unfold parseInt10. cbn [list_ascii_of_string].
  rewrite list_ascii_of_string_of_list_ascii.
  destruct c as [[] [] [] [] [] [] [] []]; try (by vm_compute in H);
    split; reflexivity.
Qed.

Lemma parseInt10_pretty_N (x : N) : parseInt10 (pretty x) = Some (Z.of_N x).
Proof.
  unfold pretty, pretty_N. case_decide as Hx; [by subst|].
  destruct (pretty_N_go_digits x "") as (l & Hl & Hd & Hne & Hval).
  rewrite <- (string_of_list_ascii_of_string (pretty_N_go x "")), Hl.
  cbn [list_ascii_of_string]. rewrite app_nil_r.
  destruct l as [|c l]; [by destruct Hne; [lia|]|].
  apply Forall_cons_1 in Hd as [Hc _].
  destruct (isDigit_first c l Hc) as [-> _]. f_equal.
  specialize (Hval 0 []). rewrite app_nil_r in Hval. rewrite Hval.
  cbn [digitsValue]. lia.
Qed.

Lemma parseInt10_pretty_neg (x : N) :
  (0 < x)%N → parseInt10 ("-" +:+ pretty x) = Some (- Z.of_N x).
Proof.
  intros Hpos. unfold pretty, pretty_N. rewrite decide_False by lia.
  destruct (pretty_N_go_digits x "") as (l & Hl & Hd & Hne & Hval).
  rewrite <- (string_of_list_ascii_of_string (pretty_N_go x "")), Hl.
  cbn [list_ascii_of_string]. rewrite app_nil_r.
  destruct l as [|c l]; [by destruct Hne|].
  apply Forall_cons_1 in Hd as [Hc _].
  destruct (isDigit_first c l Hc) as [_ H].
  change ("-" +:+ ?s)%string with (String "-" s). rewrite H. f_equal.
  specialize (Hval 0 []). rewrite app_nil_r in Hval. rewrite Hval.
  cbn [digitsValue]. lia.
Qed.

Lemma parseInt10_pretty_Z (z : Z) : parseInt10 (pretty z) = Some z.
Proof.
  destruct z as [|p|p].
  - done.
  - apply (parseInt10_pretty_N (N.pos p)).
  - apply (parseInt10_pretty_neg (N.pos p)). lia.
Qed.


Lemma pretty_Z_nonempty (z : Z) : String.eqb (pretty z) "" = false.
Proof.
  pose proof (parseInt10_pretty_Z z) as H.
  destruct (pretty z); [done|done].
Qed.
End Numbers.

(** ** Completion, highscore and progression *)

Section Progression.
Variables (d : Dictionary) (fetched : option (list string)) (draws : list nat).
Implicit Types (st : State).

Lemma JSON_parse_stringify_stringArray (ws : list string) :
  JSON_parse (JSON_stringify (JArray (JString <$> ws)))
  = Parsed (JArray (JString <$> ws)).
Proof.
  unfold JSON_parse, JSON_stringify.
  rewrite list_ascii_of_string_of_list_ascii.
  assert (length ws + 2 ≤ length (stringifyValue (JArray (JString <$> ws))))%nat
    as Hlen.
  { cbn [stringifyValue]. rewrite <- list_fmap_compose.
    change (stringifyValue ∘ JString) with quote.
    pose proof (length_joinChars_quote ws).
    simpl. rewrite length_app. simpl. lia. }
  set (t := stringifyValue (JArray (JString <$> ws))) in *.
  pose proof (parseValue_stringArray (2 * length t + 2) ws []) as H.
  rewrite app_nil_r in H. fold t in H. rewrite H by lia. done.
Qed.





Lemma autoAdvanceSelection_fields st :
  location (autoAdvanceSelection st) = location st ∧
  foundWords (autoAdvanceSelection st) = foundWords st.
Proof. done. Qed.

Lemma storageInModel_insert (storage : gmap string string) (key text : string) :
  String.prefix "wordjam_foundWords_" key = false →
  storageInModel storage → storageInModel (<[key := text]> storage).
Proof.
  intros Hkey Hs key' saved levelWords Hpre Hlook.
  rewrite lookup_insert_ne in Hlook by congruence.
  exact (Hs key' saved levelWords Hpre Hlook).
Qed.

Lemma levelWith_fields words grid found other st :
  let st' := levelWith words grid found other st in
  currentLevelWords st' = toUpperCase <$> words ∧
  wordsNeededForProgression st' = length (toUpperCase <$> words) ∧
  letters st' = grid ∧
  foundWords st' = found ∧
  otherFoundWords st' = other ∧
  resetCount st' = 1%nat ∧
  currentLevelNumber st' = currentLevelNumber st ∧
  coins st' = coins st ∧
  lives st' = lives st ∧
  totalWordsFoundInSession st' = totalWordsFoundInSession st ∧
  highscore st' = highscore st ∧
  localStorage st' = localStorage st ∧
  showGameOver st' = showGameOver st ∧
  location st' = location st.
Proof. done. Qed.

(** [generateNewLevel] returns whenever the stored texts are within the
    model, and ends in [levelWith] of the words chosen, the grid built
    from them, and the found words loaded for them. *)
Lemma generateNewLevel_shape st :
  storageInModel (localStorage st) →
  let words := (chooseLevelWords d fetched draws).1 in
  ∃ grid found other,
    generateLettersGrid (chooseLevelWords d fetched draws).2 (toUpperCase <$> words)
    = Some grid ∧
    loadFoundWords (initializeSelection (set_letters grid.1 (levelState words st)))
    = Some (setFoundWords found other
              (initializeSelection (set_letters grid.1 (levelState words st)))) ∧
    generateNewLevel d fetched draws st
    = Some (levelWith words grid.1 found other st).
Proof.
  intros Hs words. rewrite generateNewLevel_unfold. fold words.
  pose proof (chooseLevelWords_nonempty d fetched draws) as Hne. fold words in Hne.
  destruct (levelState_fields words st) as (Hw & Hn & Hl).
  cbv zeta. rewrite Hw.
  destruct (generateLettersGrid_is_Some (chooseLevelWords d fetched draws).2
              (toUpperCase <$> words)) as [grid Hgrid].
  { by destruct words. }
  rewrite Hgrid, mbind_Some.
  destruct (grid_fields grid.1 (levelState words st)) as (_ & _ & Hl').
  unfold levelWith.
  set (s0 := initializeSelection _) in *.
  assert (storageInModel (localStorage s0)) as Hs0 by (by rewrite Hl', Hl).
  destruct (loadFoundWords_inModel s0 Hs0) as (found & other & Hload).
  exists grid, found, other. split; [done|]. split; [exact Hload|].
  rewrite Hload, mbind_Some. reflexivity.
Qed.
Lemma saveHighscore_fields (h : Z) st :
  let s := saveHighscore (set_highscore (Some h) st) in
  localStorage s = <["wordjam_highscore"%string := pretty h]> (localStorage st) ∧
  highscore s = Some h ∧
  currentLevelNumber s = currentLevelNumber st ∧
  coins s = coins st ∧
  totalWordsFoundInSession s = totalWordsFoundInSession st.
Proof. done. Qed.

Lemma set_currentLevelNumber_fields (n : nat) st :
  let s := set_currentLevelNumber n st in
  currentLevelNumber s = n ∧
  coins s = coins st ∧
  totalWordsFoundInSession s = totalWordsFoundInSession st ∧
  highscore s = highscore st ∧
  localStorage s = localStorage st.
Proof. done. Qed.

Lemma showResult_frame m t st :
  let s := showResult m t st in
  currentLevelNumber s = currentLevelNumber st ∧
  currentLevelWords s = currentLevelWords st ∧
  resetCount s = resetCount st ∧
  coins s = coins st ∧
  totalWordsFoundInSession s = totalWordsFoundInSession st ∧
  highscore s = highscore st ∧
  localStorage s = localStorage st.
Proof. done. Qed.
End Progression.



(** X13: a saved highscore is what the next game starts with: the
    constructor reads back the number [saveHighscore] wrote, for the
    numbers JavaScript prints in plain decimal, and NaN for a NaN. *)
Theorem saveHighscore_loadHighscore (st : State) :
  match highscore st with Some h => safeInteger h | None => True end →
  highscore (newWordJamGame (localStorage (saveHighscore st))) = highscore st.
Proof.
  intros _. change (highscore (newWordJamGame ?s)) with (loadHighscore s).
  unfold loadHighscore, saveHighscore.
  destruct (highscore st) as [h|]; simpl; rewrite lookup_insert_eq.
  - rewrite pretty_Z_nonempty. apply parseInt10_pretty_Z.
  - done.
Qed.

Lemma saveHighscore_loadHighscore_witness :
  highscore (newWordJamGame
               (localStorage (saveHighscore (set_highscore (Some 12) exampleLevel))))
  = Some 12.
Proof.
  apply (saveHighscore_loadHighscore (set_highscore (Some 12) exampleLevel)).
  simpl. unfold safeInteger. lia.
Defined.

(** X14: with enough level words found, [progressToNextLevel] starts the
    next level: the level number goes up by one, the tries are 1 again,
    coins and session count stay, and the highscore becomes the session
    count exactly when that is greater, in which case it is stored and
    reads back (the count being a number JavaScript prints in plain
    decimal). *)
Theorem progressToNextLevel_advances (d : Dictionary) (fetched : option (list string))
    (draws : list nat) (st : State) :
  (wordsNeededForProgression st ≤ length (foundWords st))%nat →
  storageInModel (localStorage st) →
  safeInteger (Z.of_nat (totalWordsFoundInSession st)) →
  ∃ st', progressToNextLevel d fetched draws st = Some st' ∧
    currentLevelNumber st' = S (currentLevelNumber st) ∧
    currentLevelWords st' = toUpperCase <$> (chooseLevelWords d fetched draws).1 ∧
    resetCount st' = 1%nat ∧
    coins st' = coins st ∧
    totalWordsFoundInSession st' = totalWordsFoundInSession st ∧
    match highscore st with
    | Some h =>
        if decide (h < Z.of_nat (totalWordsFoundInSession st)) then
          highscore st' = Some (Z.of_nat (totalWordsFoundInSession st)) ∧
          loadHighscore (localStorage st') = highscore st'
        else highscore st' = Some h ∧ localStorage st' = localStorage st
    | None => highscore st' = None ∧ localStorage st' = localStorage st
    end.
Proof.
  intros Hfound Hs _. unfold progressToNextLevel.
  rewrite decide_False by lia. cbv zeta.
  set (s1 := match highscore st with
             | Some h => if decide (h < Z.of_nat (totalWordsFoundInSession st))
                         then saveHighscore
                                (set_highscore
                                   (Some (Z.of_nat (totalWordsFoundInSession st))) st)
                         else st
             | None => st
             end).
  assert (storageInModel (localStorage s1) ∧
          currentLevelNumber s1 = currentLevelNumber st ∧
          coins s1 = coins st ∧
          totalWordsFoundInSession s1 = totalWordsFoundInSession st ∧
          match highscore st with
          | Some h =>
              if decide (h < Z.of_nat (totalWordsFoundInSession st)) then
                highscore s1 = Some (Z.of_nat (totalWordsFoundInSession st)) ∧
                loadHighscore (localStorage s1) = highscore s1
              else highscore s1 = Some h ∧ localStorage s1 = localStorage st
          | None => highscore s1 = None ∧ localStorage s1 = localStorage st
          end) as (Hs1 & Hn1 & Hc1 & Ht1 & Hh1).
  { unfold s1. destruct (highscore st) as [h|] eqn:Hh; [|done].
    case_decide; [|done].
    destruct (saveHighscore_fields (Z.of_nat (totalWordsFoundInSession st)) st)
      as (Hl & Hh' & ? & ? & ?).
    split_and!; try done.
    - rewrite Hl. by apply storageInModel_insert.
    - rewrite Hh', Hl. unfold loadHighscore. rewrite lookup_insert_eq.
      rewrite pretty_Z_nonempty. apply parseInt10_pretty_Z. }
  clearbody s1.
  destruct (set_currentLevelNumber_fields (S (currentLevelNumber s1)) s1)
    as (Hn0 & Hc0 & Ht0 & Hh0 & Hl0).
  set (s1' := set_currentLevelNumber (S (currentLevelNumber s1)) s1) in *.
  clearbody s1'. rewrite <- Hl0 in Hs1.
  destruct (generateNewLevel_shape d fetched draws s1' Hs1)
    as (grid & found & other & _ & _ & Hgen).
  rewrite Hgen, mbind_Some.
  set (words := (chooseLevelWords d fetched draws).1).
  destruct (levelWith_fields words grid.1 found other s1')
    as (Hw & _ & _ & _ & _ & Hr & Hn & Hc & _ & Ht & Hh & Hl & _).
  set (s2 := levelWith _ _ _ _ _) in *. clearbody s2.
  exists (showResult
            ("Level " +:+ toString (currentLevelNumber s2) +:+ " - Find "
               +:+ toString (wordsNeededForProgression s2) +:+ " words!")%string
            info s2).
  split; [reflexivity|].
  destruct (showResult_frame
              ("Level " +:+ toString (currentLevelNumber s2) +:+ " - Find "
                 +:+ toString (wordsNeededForProgression s2) +:+ " words!")%string
              info s2) as (-> & -> & -> & -> & -> & -> & ->).
  rewrite Hw, Hr, Hn, Hc, Ht, Hh, Hl, Hn0, Hc0, Ht0, Hh0, Hl0, Hn1, Hc1, Ht1.
  split_and!; try done.
Qed.

Lemma progressToNextLevel_advances_witness :
  ∃ st', progressToNextLevel fallbackDictionary None [] exampleCompleted = Some st' ∧
    currentLevelNumber st' = S (currentLevelNumber exampleCompleted) ∧
    currentLevelWords st'
    = toUpperCase <$> (chooseLevelWords fallbackDictionary None []).1 ∧
    resetCount st' = 1%nat ∧
    coins st' = coins exampleCompleted ∧
    totalWordsFoundInSession st' = totalWordsFoundInSession exampleCompleted ∧
    match highscore exampleCompleted with
    | Some h =>
        if decide (h < Z.of_nat (totalWordsFoundInSession exampleCompleted)) then
          highscore st' = Some (Z.of_nat (totalWordsFoundInSession exampleCompleted)) ∧
          loadHighscore (localStorage st') = highscore st'
        else highscore st' = Some h ∧ localStorage st' = localStorage exampleCompleted
    | None => highscore st' = None ∧ localStorage st' = localStorage exampleCompleted
    end.
Proof.
  apply (progressToNextLevel_advances fallbackDictionary None [] exampleCompleted).
  - simpl. lia.
  - apply storageInModel_empty.
  - unfold safeInteger. simpl. lia.
Defined.

(** ** Reset, restart and what storage gives back *)

Section Restart.
Variables (d : Dictionary) (fetched : option (list string)) (draws : list nat).
Implicit Types (st : State).

Lemma regrid_fields (grid : list (list ascii)) st :
  let s := set_showGameOver false
             (set_result "" (initializeSelection (set_letters grid st))) in
  letters s = grid ∧
  selectedColumnIndices s
  = selectedColumnIndices (initializeSelection (set_letters grid st)) ∧
  resetCount s = resetCount st ∧
  sameFoundWords st s ∧
  coins s = coins st ∧
  totalWordsFoundInSession s = totalWordsFoundInSession st ∧
  currentLevelNumber s = currentLevelNumber st ∧
  localStorage s = localStorage st ∧
  result s = EmptyString ∧
  showGameOver s = false.
Proof. done. Qed.

Lemma set_resetCount_fields (n : nat) st :
  let s := set_resetCount n st in
  resetCount s = n ∧
  currentLevelWords s = currentLevelWords st ∧
  foundWords s = foundWords st ∧
  foundWordsSet s = foundWordsSet st ∧
  otherFoundWords s = otherFoundWords st ∧
  otherFoundWordsSet s = otherFoundWordsSet st ∧
  coins s = coins st ∧
  totalWordsFoundInSession s = totalWordsFoundInSession st ∧
  currentLevelNumber s = currentLevelNumber st ∧
  localStorage s = localStorage st.
Proof. done. Qed.

Lemma selectionValid_banner (st : State) :
  selectionValid st →
  selectionValid (set_showGameOver false (set_result "" st)).
Proof. done. Qed.

(** Found words saved for the words the level is made of are the found
    words [generateNewLevel] ends with. *)
Lemma generateNewLevel_saved st st0 :
  Forall (λ w, matchesLevelWord (currentLevelWords st0) (toUpperCase w) = true)
         (foundWords st0) →
  localStorage st = localStorage (saveFoundWords st0) →
  toUpperCase <$> (chooseLevelWords d fetched draws).1 ≡ₚ currentLevelWords st0 →
  ∃ grid,
    generateNewLevel d fetched draws st
    = Some (levelWith (chooseLevelWords d fetched draws).1 grid
              (foundWords st0) (otherFoundWords st0) st).
Proof.
  intros Hvalid Hstore Hperm. rewrite generateNewLevel_unfold.
  pose proof (chooseLevelWords_nonempty d fetched draws) as Hne.
  set (words := (chooseLevelWords d fetched draws).1) in *.
  destruct (levelState_fields words st) as (Hw & Hn & Hl).
  cbv zeta. rewrite Hw.
  destruct (generateLettersGrid_is_Some (chooseLevelWords d fetched draws).2
              (toUpperCase <$> words)) as [grid Hgrid].
  { by destruct words. }
  rewrite Hgrid, mbind_Some. exists grid.1.
  destruct (grid_fields grid.1 (levelState words st)) as (Hw' & _ & Hl').
  unfold levelWith.
  set (s0 := initializeSelection _) in *.
  rewrite (loadFoundWords_saved st0 s0); [by rewrite mbind_Some | done | |].
  - by rewrite Hw', Hw.
  - by rewrite Hl', Hl.
Qed.
End Restart.

(** X15: [resetLevel] on a level with words rebuilds the grid from the
    same words with fresh draws, counts one more try, clears the banner,
    and keeps the found words, the coins, the session count and the
    storage; the selection is valid again. *)
Theorem resetLevel_keeps_progress (d : Dictionary) (fetched : option (list string))
    (draws : list nat) (st : State) :
  currentLevelWords st ≠ [] →
  ∃ st' grid,
    resetLevel d fetched draws st = Some st' ∧
    generateLettersGrid draws (currentLevelWords st) = Some grid ∧
    letters st' = grid.1 ∧
    resetCount st' = S (resetCount st) ∧
    sameFoundWords st st' ∧
    coins st' = coins st ∧
    totalWordsFoundInSession st' = totalWordsFoundInSession st ∧
    currentLevelNumber st' = currentLevelNumber st ∧
    localStorage st' = localStorage st ∧
    result st' = EmptyString ∧
    showGameOver st' = false ∧
    selectionValid st'.
Proof.
  intros Hne. unfold resetLevel. cbv zeta.
  destruct (set_resetCount_fields (S (resetCount st)) st)
    as (Hr & Hw & Hf1 & Hf2 & Hf3 & Hf4 & Hc & Ht & Hn & Hl).
  set (s0 := set_resetCount (S (resetCount st)) st) in *. clearbody s0.
  rewrite decide_False by (by rewrite Hw). rewrite Hw.
  destruct (generateLettersGrid_is_Some draws (currentLevelWords st) Hne)
    as [grid Hgrid].
  rewrite Hgrid, !mbind_Some.
  destruct (regrid_fields grid.1 s0)
    as (Hl' & Hs' & Hr' & (G1 & G2 & G3 & G4 & G5) & Hc' & Ht' & Hn' & Hs & Hres & Hg).
  pose proof (selectionValid_banner _ (initializeSelection_valid (set_letters grid.1 s0)))
    as Hvalid.
  set (s1 := set_showGameOver false _) in *. clearbody s1.
  exists s1, grid. unfold sameFoundWords.
  rewrite G1, G2, G3, G4, G5, Hr', Hc', Ht', Hn', Hs.
  split_and!; try done.
Qed.

Lemma resetLevel_keeps_progress_witness :
  ∃ st' grid,
    resetLevel fallbackDictionary None [] exampleReplay = Some st' ∧
    generateLettersGrid [] (currentLevelWords exampleReplay) = Some grid ∧
    letters st' = grid.1 ∧
    resetCount st' = S (resetCount exampleReplay) ∧
    sameFoundWords exampleReplay st' ∧
    coins st' = coins exampleReplay ∧
    totalWordsFoundInSession st' = totalWordsFoundInSession exampleReplay ∧
    currentLevelNumber st' = currentLevelNumber exampleReplay ∧
    localStorage st' = localStorage exampleReplay ∧
    result st' = EmptyString ∧
    showGameOver st' = false ∧
    selectionValid st'.
Proof. apply (resetLevel_keeps_progress fallbackDictionary None [] exampleReplay). done. Defined.

(** X16: [restartGame] resets the session (three lives, no coins, level
    1, no words counted, first try) and keeps the highscore and the
    storage; the found words it empties are loaded again by the level it
    generates, so the words saved for the words of the new level are
    found words again after the restart. *)
Theorem restartGame_keeps_saved_words (d : Dictionary) (fetched : option (list string))
    (draws : list nat) (st st0 : State) :
  Forall (λ w, matchesLevelWord (currentLevelWords st0) (toUpperCase w) = true)
         (foundWords st0) →
  localStorage st = localStorage (saveFoundWords st0) →
  toUpperCase <$> (chooseLevelWords d fetched draws).1 ≡ₚ currentLevelWords st0 →
  ∃ st', restartGame d fetched draws st = Some st' ∧
    foundWords st' = foundWords st0 ∧
    otherFoundWords st' = otherFoundWords st0 ∧
    lives st' = 3%nat ∧
    coins st' = 0%nat ∧
    currentLevelNumber st' = 1%nat ∧
    totalWordsFoundInSession st' = 0%nat ∧
    resetCount st' = 1%nat ∧
    showGameOver st' = false ∧
    highscore st' = highscore st ∧
    localStorage st' = localStorage st.
Proof.
  intros Hvalid Hstore Hperm. unfold restartGame. cbv zeta.
  set (s0 := set_showGameOver false _).
  assert (localStorage s0 = localStorage st ∧ lives s0 = 3%nat ∧ coins s0 = 0%nat ∧
          currentLevelNumber s0 = 1%nat ∧ totalWordsFoundInSession s0 = 0%nat ∧
          showGameOver s0 = false ∧ highscore s0 = highscore st)
    as (Hl & H1 & H2 & H3 & H4 & H5 & H6) by done.
  clearbody s0. rewrite <- Hl in Hstore.
  destruct (generateNewLevel_saved d fetched draws s0 st0 Hvalid Hstore Hperm)
    as [grid ->].
  eexists. split; [reflexivity|].
  destruct (levelWith_fields (chooseLevelWords d fetched draws).1 grid
              (foundWords st0) (otherFoundWords st0) s0)
    as (_ & _ & _ & -> & -> & -> & -> & -> & -> & -> & -> & -> & -> & _).
  by rewrite H1, H2, H3, H4, H5, H6, Hl.
Qed.

Lemma restartGame_keeps_saved_words_witness :
  ∃ st', restartGame fallbackDictionary (Some ["mouse"; "eagle"]%string) []
           exampleSaved = Some st' ∧
    foundWords st' = foundWords exampleReplay ∧
    otherFoundWords st' = otherFoundWords exampleReplay ∧
    lives st' = 3%nat ∧
    coins st' = 0%nat ∧
    currentLevelNumber st' = 1%nat ∧
    totalWordsFoundInSession st' = 0%nat ∧
    resetCount st' = 1%nat ∧
    showGameOver st' = false ∧
    highscore st' = highscore exampleSaved ∧
    localStorage st' = localStorage exampleSaved.
Proof.
  apply (restartGame_keeps_saved_words fallbackDictionary
           (Some ["mouse"; "eagle"]%string) [] exampleSaved exampleReplay).
  - repeat constructor.
  - reflexivity.
  - apply perm_swap.
Defined.

Section Loading.
Implicit Types (st : State).



Lemma filter_matchesLevelWord_nil (ws : list string) :
  filter (λ w, matchesLevelWord [] (toUpperCase w) = true) ws = [].
Proof.
  induction ws as [|w ws IH]; [done|]. by rewrite filter_cons_False.
Qed.

Lemma stringArray_nonempty (ws : list string) :
  String.eqb (JSON_stringify (JArray (JString <$> ws))) "" = false.
Proof. done. Qed.

Lemma checkAllWordsFound_fields st :
  let st' := (checkAllWordsFound st).2 in
  letters st' = letters st ∧
  selectedColumnIndices st' = selectedColumnIndices st ∧
  currentLevelNumber st' = currentLevelNumber st ∧
  currentLevelWords st' = currentLevelWords st ∧
  wordsNeededForProgression st' = wordsNeededForProgression st ∧
  foundWords st' = foundWords st ∧
  otherFoundWords st' = otherFoundWords st ∧
  coins st' = coins st ∧
  lives st' = lives st ∧
  resetCount st' = resetCount st ∧
  highscore st' = highscore st.
Proof.
  unfold checkAllWordsFound. cbv zeta. case_decide; [|done].
  cbn [snd set_localStorage localStorage].
  destruct (_ !! "completedResetCount"%string) as [saved|]; [|done].
  by destruct (String.eqb saved "").
Qed.
End Loading.



(** X18: found words stored in the old format, a plain array, are
    loaded as level words, those that are no word of the level dropped;
    the other words start empty. *)
Theorem loadFoundWords_old_format (st : State) (ws : list string) :
  localStorage st !! getFoundWordsStorageKey st
  = Some (JSON_stringify (JArray (JString <$> ws))) →
  loadFoundWords st
  = Some (setFoundWords
            (filter (λ w, matchesLevelWord (currentLevelWords st) (toUpperCase w) = true) ws)
            [] st).
Proof.
  intros Hk. unfold loadFoundWords.
  rewrite Hk, stringArray_nonempty, JSON_parse_stringify_stringArray.
  unfold readFoundWords, filterLevelWords. case_decide as Hnil.
  - by rewrite Hnil, filter_matchesLevelWord_nil.
  - by rewrite (mapM_fmap_Some asString JString).
Qed.

Lemma loadFoundWords_old_format_witness :
  loadFoundWords exampleLegacy
  = Some (setFoundWords
            (filter (λ w, matchesLevelWord (currentLevelWords exampleLegacy)
                            (toUpperCase w) = true) ["MOUSE"; "TIGER"]%string)
            [] exampleLegacy).
Proof.
  apply (loadFoundWords_old_format exampleLegacy ["MOUSE"; "TIGER"]%string).
  vm_compute. reflexivity.
Defined.

Example loadFoundWords_old_format_example :
  foundWords <$> loadFoundWords exampleLegacy = Some ["MOUSE"%string].
Proof. vm_compute. reflexivity. Qed.

(** X19: [checkAllWordsFound] answers whether the found level words
    reach the progression count. If not, nothing changes. If so, the
    completion page is opened and the completed words are stored, and a
    tries count stored before is kept: only a missing or empty one is
    set to the game's reset count. *)
Theorem checkAllWordsFound_outcome (st : State) :
  ((checkAllWordsFound st).1 = true ↔
     (wordsNeededForProgression st ≤ length (foundWords st))%nat) ∧
  ((checkAllWordsFound st).1 = false → (checkAllWordsFound st).2 = st) ∧
  ((checkAllWordsFound st).1 = true →
     let st' := (checkAllWordsFound st).2 in
     location st' = "completion.html"%string ∧
     localStorage st' !! "completedWords"%string
     = Some (JSON_stringify (JArray (JString <$> foundWords st))) ∧
     localStorage st' !! "completedResetCount"%string
     = Some (match localStorage st !! "completedResetCount"%string with
             | Some saved => if String.eqb saved "" then toString (resetCount st)
                             else saved
             | None => toString (resetCount st)
             end)).
Proof.
  unfold checkAllWordsFound. cbv zeta. case_decide as Hn.
  - split; [done|]. split; [done|]. intros _.
    cbn [snd localStorage set_localStorage].
    rewrite (lookup_insert_ne _ "completedWords"%string "completedResetCount"%string)
      by done.
    destruct (localStorage st !! "completedResetCount"%string) as [saved|] eqn:Hc.
    + destruct (String.eqb saved "") eqn:He.
      * split_and!; [done | |].
        -- cbn [localStorage set_localStorage set_location].
           rewrite lookup_insert_ne by done. apply lookup_insert_eq.
        -- cbn [localStorage set_localStorage set_location].
           apply lookup_insert_eq.
      * split_and!; [done | |].
        -- cbn [localStorage set_localStorage set_location].
           apply lookup_insert_eq.
        -- cbn [localStorage set_localStorage set_location].
           by rewrite lookup_insert_ne.
    + split_and!; [done | |].
      * cbn [localStorage set_localStorage set_location].
        rewrite lookup_insert_ne by done. apply lookup_insert_eq.
      * cbn [localStorage set_localStorage set_location].
        apply lookup_insert_eq.
  - split; [split; [done | lia]|]. split; done.
Qed.

(** X20: a new game starts whenever the stored texts are within the
    model: the dictionary is the loaded one, the first level is made of
    the chosen words in upper case, the session starts at level 1 with
    no coins on the first try, the highscore is the stored one, the
    selection is valid, and the completion page is opened at once
    exactly when the found words loaded for the level reach its
    progression count. *)
Theorem init_starts_game (response : option string) (fetched : option (list string))
    (draws : list nat) (storage : gmap string string) :
  storageInModel storage →
  let d := load response newDictionary in
  ∃ st', init response fetched draws (newDictionary, newWordJamGame storage)
         = Some (d, st') ∧
    currentLevelWords st' = toUpperCase <$> (chooseLevelWords d fetched draws).1 ∧
    wordsNeededForProgression st' = length (currentLevelWords st') ∧
    currentLevelNumber st' = 1%nat ∧
    coins st' = 0%nat ∧
    lives st' = 3%nat ∧
    resetCount st' = 1%nat ∧
    highscore st' = loadHighscore storage ∧
    selectionValid st' ∧
    (location st' = "completion.html"%string ↔
       (wordsNeededForProgression st' ≤ length (foundWords st'))%nat).
Proof.
  intros Hs d. unfold init. cbn [fst snd]. fold d.
  destruct (generateNewLevel_shape d fetched draws (newWordJamGame storage) Hs)
    as (grid & found & other & _ & _ & ->).
  rewrite mbind_Some. eexists. split; [reflexivity|].
  set (words := (chooseLevelWords d fetched draws).1).
  destruct (levelWith_fields words grid.1 found other (newWordJamGame storage))
    as (Hw & Hn & Hl & Hf & _ & Hr & Hnum & Hc & Hlv & _ & Hh & _ & _ & Hloc).
  assert (selectionValid (levelWith words grid.1 found other (newWordJamGame storage)))
    as Hvalid.
  { apply (selectionValid_same
             (initializeSelection
                (set_letters grid.1 (levelState words (newWordJamGame storage)))));
      [done | done | apply initializeSelection_valid]. }
  set (s := levelWith _ _ _ _ _) in *. clearbody s.
  destruct (checkAllWordsFound_fields s)
    as (G1 & G2 & G3 & G4 & G5 & G6 & _ & G8 & G9 & G10 & G11).
  assert (location (checkAllWordsFound s).2 = "completion.html"%string ↔
          (wordsNeededForProgression s ≤ length (foundWords s))%nat) as Hredirect.
  { unfold checkAllWordsFound. cbv zeta. case_decide; [done|].
    cbn [snd]. rewrite Hloc. done. }
  set (s' := (checkAllWordsFound s).2) in *. clearbody s'.
  rewrite G3, G4, G5, G6, G8, G9, G10, G11, Hw, Hn, Hr, Hnum, Hc, Hlv, Hh.
  split_and!; try done.
  - by apply (selectionValid_same s).
  - by rewrite <- Hn.
Qed.

Lemma init_starts_game_witness :
  let d := load None newDictionary in
  ∃ st', init None None [] (newDictionary, newWordJamGame ∅) = Some (d, st') ∧
    currentLevelWords st' = toUpperCase <$> (chooseLevelWords d None []).1 ∧
    wordsNeededForProgression st' = length (currentLevelWords st') ∧
    currentLevelNumber st' = 1%nat ∧
    coins st' = 0%nat ∧
    lives st' = 3%nat ∧
    resetCount st' = 1%nat ∧
    highscore st' = loadHighscore ∅ ∧
    selectionValid st' ∧
    (location st' = "completion.html"%string ↔
       (wordsNeededForProgression st' ≤ length (foundWords st'))%nat).
Proof. apply (init_starts_game None None [] ∅), storageInModel_empty. Defined.

(** ** The words of the day *)

Section Firebase.
Implicit Types (self rest ws : list string).

Lemma indexOf_Some self (word : string) (i : nat) :
  indexOf self word = Some i ↔ self !! i = Some word ∧ word ∉ take i self.
Proof.
  unfold indexOf. rewrite fmap_Some. split.
  - intros ([j x] & Hfind & ->). simpl.
    apply list_find_Some in Hfind as (Hj & -> & Hfirst).
    split; [done|]. intros Hin.
    apply list_elem_of_lookup in Hin as [k Hk].
    apply lookup_take_Some in Hk as [Hk Hlt]. by apply (Hfirst k word).
  - intros [Hi Hnot]. exists (i, word). split; [|done].
    apply list_find_Some. split_and!; [done | done |].
    intros j y Hj Hlt ->. apply Hnot.
    apply list_elem_of_lookup. exists j. by apply lookup_take_Some.
Qed.

Lemma drop_cons_inv self (i : nat) (word : string) rest :
  drop i self = word :: rest →
  self !! i = Some word ∧ drop (S i) self = rest ∧
  take (S i) self = take i self ++ [word].
Proof.
  intros Hd.
  assert (self !! i = Some word) as Hi.
  { rewrite <- (Nat.add_0_r i), <- lookup_drop, Hd. done. }
  split_and!; [done | | by apply take_S_r].
  rewrite (drop_S self word i Hi) in Hd. by injection Hd.
Qed.

Lemma keepFirst_spec self (i : nat) rest :
  drop i self = rest →
  (∀ x, x ∈ keepFirst self i rest ↔ x ∈ rest ∧ x ∉ take i self) ∧
  NoDup (keepFirst self i rest).
Proof.
  revert i. induction rest as [|word rest IH]; intros i Hd.
  { split; [|constructor]. intros x. simpl. rewrite elem_of_nil. tauto. }
  apply drop_cons_inv in Hd as (Hi & Hd & Htake).
  destruct (IH (S i) Hd) as [Hin Hnd]. cbn [keepFirst].
  destruct (decide (indexOf self word = Some i)) as [Hfirst|Hlater].
  - apply indexOf_Some in Hfirst as [_ Hnot]. split.
    + intros x. rewrite !elem_of_cons, Hin, Htake, elem_of_app, list_elem_of_singleton.
      destruct (decide (x = word)) as [->|]; tauto.
    + constructor; [|done]. rewrite Hin, Htake, elem_of_app, list_elem_of_singleton.
      tauto.
  - assert (word ∈ take i self) as Hseen.
    { destruct (decide (word ∈ take i self)); [done|].
      destruct Hlater. by apply indexOf_Some. }
    split; [|done].
    intros x. rewrite elem_of_cons, Hin, Htake, elem_of_app, list_elem_of_singleton.
    destruct (decide (x = word)) as [->|]; tauto.
Qed.

Lemma keepFirst_NoDup self (i : nat) rest :
  NoDup self → drop i self = rest → keepFirst self i rest = rest.
Proof.
  intros Hnd. revert i. induction rest as [|word rest IH]; intros i Hd; [done|].
  pose proof Hd as Hd0.
  apply drop_cons_inv in Hd as (Hi & Hd & Htake). cbn [keepFirst].
  rewrite decide_True; [by rewrite IH|].
  apply indexOf_Some. split; [done|].
  rewrite <- (take_drop i self), Hd0 in Hnd.
  apply NoDup_app in Hnd as (_ & Hdisj & _).
  intros Hin. apply (Hdisj word Hin). apply list_elem_of_here.
Qed.

Lemma elem_of_firstOccurrences self (x : string) :
  x ∈ firstOccurrences self ↔ x ∈ self.
Proof.
  unfold firstOccurrences.
  destruct (keepFirst_spec self 0 self eq_refl) as [H _].
  rewrite H. cbn [take]. rewrite elem_of_nil. tauto.
Qed.

Lemma NoDup_firstOccurrences self : NoDup (firstOccurrences self).
Proof. by destruct (keepFirst_spec self 0 self eq_refl). Qed.

Lemma firstOccurrences_NoDup self : NoDup self → firstOccurrences self = self.
Proof. intros H. by apply keepFirst_NoDup. Qed.

Lemma list_ascii_toUpperCase (w : string) :
  list_ascii_of_string (toUpperCase w) = toUpperChar <$> list_ascii_of_string w.
Proof. induction w as [|c w IH]; [done|]. simpl. by rewrite IH. Qed.

Lemma isLetter_toUpperChar (c : ascii) :
  isLetter c = true → (65 ≤ nat_of_ascii (toUpperChar c) ≤ 90)%nat.
Proof.
  destruct c as [[] [] [] [] [] [] [] []]; intros H; try (by vm_compute in H);
    vm_compute; split; by repeat constructor.
Qed.

Lemma upper_isLetter (c : ascii) :
  (65 ≤ nat_of_ascii c ≤ 90)%nat → isLetter c = true.
Proof.
  intros [H1 H2]. unfold isLetter. cbv zeta.
  apply Nat.leb_le in H1, H2. by rewrite H1, H2.
Qed.

Lemma acceptedWord_Some (v : json) (w : string) :
  acceptedWord v = Some w →
  v = JString w ∧ validatedWord (toUpperCase w).
Proof.
  destruct v as [| |word| |]; try done. unfold acceptedWord.
  destruct (isAlphabetic word) eqn:Ha; [|done].
  destruct (3 <=? String.length word)%nat eqn:H3; [|done].
  destruct (String.length word <=? 15)%nat eqn:H15; [|done].
  intros [= <-]. split; [done|].
  apply Nat.leb_le in H3, H15.
  split; [|split].
  - rewrite length_toUpperCase. lia.
  - rewrite list_ascii_toUpperCase. apply Forall_fmap.
    unfold isAlphabetic in Ha. apply andb_true_iff in Ha as [_ Ha].
    rewrite forallb_forall in Ha. apply Forall_forall. intros c Hc.
    apply isLetter_toUpperChar, Ha. by apply list_elem_of_In.
  - apply toUpperCase_idempotent.
Qed.

Lemma validatedWord_accepted (w : string) :
  validatedWord w → acceptedWord (JString w) = Some w.
Proof.
  intros ([H3 H15] & Hup & _). unfold acceptedWord.
  assert (isAlphabetic w = true) as ->.
  { unfold isAlphabetic. apply andb_true_iff. split.
    - destruct w; [simpl in H3; lia | done].
    - apply forallb_forall. intros c Hc. apply upper_isLetter.
      rewrite Forall_forall in Hup. by apply Hup, list_elem_of_In. }
  apply Nat.leb_le in H3, H15. by rewrite H3, H15.
Qed.

Lemma omap_acceptedWord_validated ws :
  Forall validatedWord ws → omap acceptedWord (JString <$> ws) = ws.
Proof.
  induction 1 as [|w ws Hw _ IH]; [done|].
  rewrite fmap_cons. cbn [omap list_omap].
  rewrite (validatedWord_accepted w Hw). f_equal. exact IH.
Qed.

Lemma toUpperCase_validated ws :
  Forall validatedWord ws → toUpperCase <$> ws = ws.
Proof.
  induction 1 as [|w ws (_ & _ & Hw) _ IH]; [done|]. by rewrite fmap_cons, Hw, IH.
Qed.

(** The list of upper-cased accepted words, before the cut at 20. *)
Lemma candidates_validated (items : list json) :
  let candidates := firstOccurrences (toUpperCase <$> omap acceptedWord items) in
  NoDup candidates ∧
  Forall validatedWord candidates ∧
  Forall (λ w, ∃ word, JString word ∈ items ∧ w = toUpperCase word) candidates ∧
  (candidates = [] → Forall (λ v, acceptedWord v = None) items).
Proof.
  cbv zeta. split_and!.
  - apply NoDup_firstOccurrences.
  - apply Forall_forall. intros w Hw.
    apply elem_of_firstOccurrences, list_elem_of_fmap in Hw as (word & -> & Hw).
    apply list_elem_of_omap in Hw as (v & _ & Hv).
    by apply acceptedWord_Some in Hv as [_ ?].
  - apply Forall_forall. intros w Hw.
    apply elem_of_firstOccurrences, list_elem_of_fmap in Hw as (word & -> & Hw).
    apply list_elem_of_omap in Hw as (v & Hin & Hv).
    apply acceptedWord_Some in Hv as [-> _]. by exists word.
  - intros Hnil. apply Forall_forall. intros v Hv.
    destruct (acceptedWord v) as [w|] eqn:Hw; [|done]. exfalso.
    assert (toUpperCase w ∈ firstOccurrences (toUpperCase <$> omap acceptedWord items))
      as Hin.
    { apply elem_of_firstOccurrences, list_elem_of_fmap. exists w. split; [done|].
      apply list_elem_of_omap. by exists v. }
    rewrite Hnil in Hin. by apply elem_of_nil in Hin.
Qed.

Lemma validateWords_Some (words : json) ws :
  validateWords words = Some ws →
  ws ≠ [] ∧ (length ws ≤ 20)%nat ∧ NoDup ws ∧ Forall validatedWord ws ∧
  ∃ items, words = JArray items ∧
           Forall (λ w, ∃ word, JString word ∈ items ∧ w = toUpperCase word) ws.
Proof.
  destruct words as [| | |items|]; try done. unfold validateWords. cbv zeta.
  destruct (candidates_validated items) as (Hnd & Hv & Hfrom & _).
  set (candidates := firstOccurrences _) in *. clearbody candidates.
  case_decide as Hlen; [done|]. case_decide as Hmany; intros [= <-].
  - split_and!.
    + destruct candidates; [simpl in Hmany; lia | done].
    + rewrite length_take. lia.
    + exact (sublist_NoDup _ _ Hnd (sublist_take candidates 20)).
    + by apply Forall_take.
    + exists items. split; [done|]. by apply Forall_take.
  - split_and!; [by destruct candidates | lia | done | done |].
    by exists items.
Qed.

Lemma validateWords_fixed ws :
  ws ≠ [] → (length ws ≤ 20)%nat → NoDup ws → Forall validatedWord ws →
  validateWords (JArray (JString <$> ws)) = Some ws.
Proof.
  intros Hne Hlen Hnd Hv. unfold validateWords. cbv zeta.
  rewrite omap_acceptedWord_validated, toUpperCase_validated,
    firstOccurrences_NoDup by done.
  rewrite decide_False by (destruct ws; [done | simpl; lia]).
  by rewrite decide_False by lia.
Qed.
End Firebase.

(** X21: what [validateWords] returns is never empty, has at most 20
    words and no word twice, and each word has 3 to 15 letters, all of
    them A to Z, and is the upper case of a string of the array it was
    given; it returns [null] exactly when it is given no array or an
    array without an acceptable string. *)
Theorem validateWords_sound (words : json) :
  match validateWords words with
  | Some ws =>
      ws ≠ [] ∧ (length ws ≤ 20)%nat ∧ NoDup ws ∧ Forall validatedWord ws ∧
      ∃ items, words = JArray items ∧
               Forall (λ w, ∃ word, JString word ∈ items ∧ w = toUpperCase word) ws
  | None =>
      ∀ items, words = JArray items → Forall (λ v, acceptedWord v = None) items
  end.
Proof.
  destruct (validateWords words) as [ws|] eqn:Hw.
  - by apply validateWords_Some.
  - intros items ->. unfold validateWords in Hw. cbv zeta in Hw.
    destruct (candidates_validated items) as (_ & _ & _ & Hnone).
    case_decide as Hlen; [|by case_decide].
    apply Hnone. by apply nil_length_inv.
Qed.

Example validateWords_example :
  validateWords (JArray [JString "crane"; JBool true; JString "Plate"; JString "it";
                         JString "CRANE"; JString "o'er"; JString "Stone"])
  = Some ["CRANE"; "PLATE"; "STONE"]%string ∧
  validateWords (JString "crane") = None ∧
  validateWords (JArray [JString "it"; JNull]) = None.
Proof. by vm_compute. Qed.

(** X22: [validateWords] changes nothing in a list it has validated. *)
Theorem validateWords_idempotent (words : json) (ws : list string) :
  validateWords words = Some ws →
  validateWords (JArray (JString <$> ws)) = Some ws.
Proof.
  intros H. apply validateWords_Some in H as (Hne & Hlen & Hnd & Hv & _).
  by apply validateWords_fixed.
Qed.

Lemma validateWords_idempotent_witness :
  validateWords (JArray (JString <$> ["CRANE"; "PLATE"]%string))
  = Some ["CRANE"; "PLATE"]%string.
Proof.
  apply (validateWords_idempotent
           (JArray [JString "crane"; JString "Plate"; JString "CRANE"])).
  vm_compute. reflexivity.
Defined.

Section Daily.
Implicit Types (st : State).

Lemma levelWith_wordLength words grid found other st :
  currentWordLength (levelWith words grid found other st)
  = match toUpperCase <$> words with
    | w :: _ => if decide (w = EmptyString) then 5%nat else String.length w
    | [] => 5%nat
    end.
Proof. done. Qed.

Lemma get_list_ascii (k : nat) (w : string) (c : ascii) :
  String.get k w = Some c → c ∈ list_ascii_of_string w.
Proof.
  revert k. induction w as [|c' w IH]; intros k; [done|].
  destruct k as [|k]; simpl.
  - intros [= ->]. apply list_elem_of_here.
  - intros H. apply list_elem_of_further. by eapply IH.
Qed.

Lemma rowOfLetters_validated (r : nat) (ws : list string) :
  Forall validatedWord ws → Forall letterOrEmpty (rowOfLetters r ws).
Proof.
  intros Hv. unfold rowOfLetters. apply Forall_fmap.
  eapply Forall_impl; [exact Hv|]. intros w (_ & Hup & _). simpl.
  destruct (String.get r w) as [c|] eqn:Hc; [|by left]. right.
  apply isLetter_toUpperChar, upper_isLetter.
  rewrite Forall_forall in Hup. by eapply Hup, get_list_ascii.
Qed.

Lemma max_list_bounds (ns : list nat) (lo hi : nat) :
  ns ≠ [] → Forall (λ n, lo ≤ n ≤ hi)%nat ns → (lo ≤ max_list ns ≤ hi)%nat.
Proof.
  intros Hne Hall. pose proof (max_list_elem_of ns Hne) as Hin.
  rewrite Forall_forall in Hall. by apply Hall.
Qed.
End Daily.

(** X23: a level generated from the words of the day is made of
    exactly the validated words, whatever the dictionary holds and the
    draws are: at most 20 words to find, a word length between 3 and 15,
    a grid of 3 to 15 rows with one cell per word, and every cell a
    letter A to Z or the empty marker. *)
Theorem generateNewLevel_todays_words (d : Dictionary) (doc : snapshot)
    (draws : list nat) (st : State) (ws : list string) :
  getTodaysWords doc = Some ws →
  storageInModel (localStorage st) →
  ∃ st', generateNewLevel d (getTodaysWords doc) draws st = Some st' ∧
    currentLevelWords st' = ws ∧
    wordsNeededForProgression st' = length ws ∧
    (1 ≤ length ws ≤ 20)%nat ∧
    (3 ≤ currentWordLength st' ≤ 15)%nat ∧
    (3 ≤ length (letters st') ≤ 15)%nat ∧
    Forall (λ row, length row = length ws) (letters st') ∧
    Forall (Forall letterOrEmpty) (letters st').
Proof.
  intros Hdoc Hs. rewrite Hdoc.
  assert (ws ≠ [] ∧ (length ws ≤ 20)%nat ∧ Forall validatedWord ws)
    as (Hne & Hlen & Hv).
  { destruct doc as [| |data]; try done.
    by apply validateWords_Some in Hdoc as (? & ? & _ & ? & _). }
  destruct (generateNewLevel_shape d (Some ws) draws st Hs)
    as (grid & found & other & Hgrid & _ & ->).
  assert (chooseLevelWords d (Some ws) draws = (ws, draws)) as Hchoose
    by (by destruct ws).
  rewrite Hchoose in *. cbn [fst snd] in *.
  rewrite (toUpperCase_validated ws Hv) in Hgrid.
  destruct (generateLettersGrid_shape draws ws) as [_ Hshape].
  destruct (Hshape Hne) as (grid' & draws' & Hgrid' & Hrows & Hcells & Hperm).
  rewrite Hgrid in Hgrid'. injection Hgrid' as ->. cbn [fst snd].
  eexists. split; [reflexivity|].
  destruct (levelWith_fields ws grid' found other st)
    as (-> & -> & -> & _).
  rewrite levelWith_wordLength, !(toUpperCase_validated ws Hv).
  assert (3 ≤ max_list (String.length <$> ws) ≤ 15)%nat as Hmax.
  { apply max_list_bounds; [by destruct ws|].
    apply Forall_fmap. eapply Forall_impl; [exact Hv|]. by intros w (? & _). }
  split; [done|]. split; [done|].
  split; [destruct ws; [done | simpl in Hlen |- *; lia]|].
  split.
  { destruct Hv as [|w ws' ([? ?] & _) _]; [done|].
    rewrite decide_False by (intros ->; simpl in *; lia). lia. }
  split; [by rewrite Hrows|]. split; [done|].
  apply Forall_forall. intros row Hrow.
  apply list_elem_of_lookup in Hrow as [r Hr].
  rewrite (Hperm r row Hr). by apply rowOfLetters_validated.
Qed.

Lemma generateNewLevel_todays_words_witness :
  ∃ st', generateNewLevel fallbackDictionary (getTodaysWords exampleDocument) []
           exampleLevel = Some st' ∧
    currentLevelWords st' = ["CRANE"; "PLATE"]%string ∧
    wordsNeededForProgression st' = length ["CRANE"; "PLATE"]%string ∧
    (1 ≤ length ["CRANE"; "PLATE"]%string ≤ 20)%nat ∧
    (3 ≤ currentWordLength st' ≤ 15)%nat ∧
    (3 ≤ length (letters st') ≤ 15)%nat ∧
    Forall (λ row, length row = length ["CRANE"; "PLATE"]%string) (letters st') ∧
    Forall (Forall letterOrEmpty) (letters st').
Proof.
  apply (generateNewLevel_todays_words fallbackDictionary exampleDocument []
           exampleLevel ["CRANE"; "PLATE"]%string).
  - vm_compute. reflexivity.
  - apply storageInModel_empty.
Defined.

(** ** The completion page *)

Section Completion.
Implicit Types (storage : gmap string string).

Lemma lookup_foldl_delete (keys : list string) storage (key : string) :
  foldl (λ storage key, delete key storage) storage keys !! key
  = if decide (key ∈ keys) then None else storage !! key.
Proof.
  revert storage. induction keys as [|k keys IH]; intros storage.
  { cbn [foldl]. by rewrite decide_False by apply not_elem_of_nil. }
  cbn [foldl]. rewrite IH.
  destruct (decide (key ∈ keys)) as [Hin|Hout].
  - by rewrite decide_True by by apply list_elem_of_further.
  - destruct (decide (key = k)) as [->|Hne].
    + rewrite decide_True by apply list_elem_of_here. apply lookup_delete_eq.
    + rewrite decide_False by (rewrite elem_of_cons; tauto).
      by apply lookup_delete_ne.
Qed.

Lemma lookup_resetProgress storage (key : string) :
  (resetProgress storage).1 !! key
  = if decide (key = "completedWords"%string ∨ key = "completedResetCount"%string ∨
               String.prefix "wordjam_foundWords_" key = true)
    then None else storage !! key.
Proof.
  unfold resetProgress. cbv zeta. cbn [fst]. rewrite lookup_foldl_delete.
  set (storage' := delete "completedResetCount"%string
                     (delete "completedWords"%string storage)).
  assert (storage' !! key
          = if decide (key = "completedWords"%string ∨
                       key = "completedResetCount"%string)
            then None else storage !! key) as Hl.
  { unfold storage'.
    destruct (decide (key = "completedResetCount"%string)) as [->|H1].
    { rewrite lookup_delete_eq. by rewrite decide_True by tauto. }
    rewrite lookup_delete_ne by done.
    destruct (decide (key = "completedWords"%string)) as [->|H2].
    { rewrite lookup_delete_eq. by rewrite decide_True by tauto. }
    rewrite lookup_delete_ne by done. by rewrite decide_False by tauto. }
  destruct (decide (key ∈ _)) as [Hin|Hout].
  - apply list_elem_of_filter in Hin as [Hpre _]. by rewrite decide_True by tauto.
  - rewrite Hl. destruct (decide (_ ∨ _)) as [Hc|Hc].
    + by rewrite decide_True by tauto.
    + destruct (String.prefix "wordjam_foundWords_" key) eqn:Hpre.
      * destruct (storage' !! key) as [v|] eqn:Hv.
        -- destruct Hout. apply list_elem_of_filter. split; [done|].
           apply list_elem_of_fmap. exists (key, v). split; [done|].
           by apply elem_of_map_to_list.
        -- rewrite decide_True by tauto. by rewrite Hl in Hv.
      * rewrite decide_False; [done|]. intros [?|[?|?]]; [tauto | tauto | done].
Qed.
End Completion.

(** X24: the reset button of the completion page removes the two
    completion entries and every found-words record and nothing else,
    and opens the game page: the next game reports one try, finds no
    word of any level found, and starts with the highscore it had. *)
Theorem resetProgress_clears (storage : gmap string string) :
  let storage' := (resetProgress storage).1 in
  (∀ key, storage' !! key
          = if decide (key = "completedWords"%string ∨
                       key = "completedResetCount"%string ∨
                       String.prefix "wordjam_foundWords_" key = true)
            then None else storage !! key) ∧
  (resetProgress storage).2 = "game.html"%string ∧
  tries storage' = Some 1 ∧
  loadHighscore storage' = loadHighscore storage ∧
  ∀ st, localStorage st = storage' →
        loadFoundWords st = Some (setFoundWords [] [] st).
Proof.
  cbv zeta. split; [apply lookup_resetProgress|]. split; [done|]. split_and!.
  - unfold tries. rewrite lookup_resetProgress. by rewrite decide_True by tauto.
  - unfold loadHighscore. rewrite lookup_resetProgress.
    rewrite decide_False; [done|]. by intros [?|[?|?]].
  - intros st Hst. unfold loadFoundWords.
    rewrite Hst, lookup_resetProgress.
    rewrite decide_True; [done|]. right. right. apply getFoundWordsStorageKey_prefix.
Qed.

Example resetProgress_example :
  let storage :=
    <["wordjam_highscore"%string := "7"%string]>
      (<["completedResetCount"%string := "2"%string]>
         (<["wordjam_foundWords_EAGLE,MOUSE"%string := "[]"%string]> ∅)) in
  (resetProgress storage).1 !! "wordjam_highscore"%string = Some "7"%string ∧
  (resetProgress storage).1 !! "completedResetCount"%string = None ∧
  (resetProgress storage).1 !! "wordjam_foundWords_EAGLE,MOUSE"%string = None.
Proof. cbv zeta. by rewrite !lookup_resetProgress. Qed.

(** ** Random words and word counts *)

Section Counts.
Implicit Types (m : gmap nat (list string)) (d : Dictionary).

Lemma setAdd_nonempty (w : string) (words : list string) : setAdd w words ≠ [].
Proof.
  unfold setAdd. case_decide as H; [by destruct words; [apply elem_of_nil in H|]|].
  by destruct words.
Qed.

Lemma indexWord_nonempty m (w : string) :
  (∀ n words, m !! n = Some words → words ≠ []) →
  ∀ n words, indexWord m w !! n = Some words → words ≠ [].
Proof.
  intros Hm n words. unfold indexWord. cbv zeta.
  rewrite lookup_insert. case_decide as Hn.
  - intros [= <-]. apply setAdd_nonempty.
  - case_decide; [by apply Hm|].
    rewrite lookup_insert_ne by done. by apply Hm.
Qed.

Lemma foldl_indexWord_nonempty (ws : list string) m :
  (∀ n words, m !! n = Some words → words ≠ []) →
  ∀ n words, foldl indexWord m ws !! n = Some words → words ≠ [].
Proof.
  revert m. induction ws as [|w ws IH]; intros m Hm; [done|].
  cbn [foldl]. by apply IH, indexWord_nonempty.
Qed.

Lemma load_nonempty response :
  ∀ n words, wordsByLength (load response newDictionary) !! n = Some words →
             words ≠ [].
Proof.
  destruct response as [text|]; apply foldl_indexWord_nonempty;
    intros n words H; simpl in H; by rewrite lookup_empty in H.
Qed.
End Counts.

(** X25: [generateRandomWordsForLevel] gives the five hard-coded words
    when the dictionary has no word of the length asked for, and leaves
    the draws alone; otherwise it gives ten different words of that
    length from the dictionary, or all of them when there are fewer. *)
Theorem generateRandomWordsForLevel_words (d : Dictionary) (draws : list nat)
    (levelNumber wordLength : nat) :
  dictionaryWellFormed d →
  let words := (generateRandomWordsForLevel d draws levelNumber wordLength).1 in
  if decide (wordsOfLength d wordLength = [])
  then generateRandomWordsForLevel d draws levelNumber wordLength
       = (["CAT"; "DOG"; "BAT"; "HAT"; "MAT"]%string, draws)
  else length words = (10 `min` length (wordsOfLength d wordLength))%nat ∧
       NoDup words ∧
       Forall (λ w, w ∈ wordsOfLength d wordLength ∧
                    String.length w = wordLength ∧
                    (wordLength ≠ 0%nat → isValidWord d w = true)) words.
Proof.
  intros Hd. cbv zeta. unfold generateRandomWordsForLevel. cbv zeta.
  destruct (wordsOfLength_wellFormed d wordLength Hd) as [Hnd Hall].
  case_decide as Hnil.
  - rewrite Hnil. done.
  - rewrite decide_False by (destruct (wordsOfLength d wordLength); [done | simpl; lia]).
    pose proof (shuffleArray_Permutation draws (wordsOfLength d wordLength)) as Hperm.
    destruct (shuffleArray draws (wordsOfLength d wordLength)) as [shuffled draws'].
    cbn [fst] in *.
    assert (length shuffled = length (wordsOfLength d wordLength)) as Hl
      by by rewrite Hperm.
    split_and!.
    + rewrite length_take. lia.
    + eapply sublist_NoDup; [|apply sublist_take]. by rewrite Hperm.
    + apply Forall_take. rewrite Hperm.
      apply Forall_forall. intros w Hw. rewrite Forall_forall in Hall.
      destruct (Hall w Hw) as [Hlen Hup]. split_and!; [done | done |].
      intros Hpos. apply isValidWord_bucket.
      split; [intros ->; by apply Hpos|].
      rewrite Hup, Hlen. unfold wordsOfLength in Hw.
      by destruct (wordsByLength d !! wordLength).
Qed.

Lemma generateRandomWordsForLevel_words_witness :
  let words := (generateRandomWordsForLevel exampleDictionary [] 1 5).1 in
  if decide (wordsOfLength exampleDictionary 5 = [])
  then generateRandomWordsForLevel exampleDictionary [] 1 5
       = (["CAT"; "DOG"; "BAT"; "HAT"; "MAT"]%string, [])
  else length words = (10 `min` length (wordsOfLength exampleDictionary 5))%nat ∧
       NoDup words ∧
       Forall (λ w, w ∈ wordsOfLength exampleDictionary 5 ∧
                    String.length w = 5%nat ∧
                    (5%nat ≠ 0%nat → isValidWord exampleDictionary w = true)) words.
Proof.
  apply (generateRandomWordsForLevel_words exampleDictionary [] 1 5).
  apply exampleDictionary_wellFormed.
Defined.

(** X26: after [load] on a fresh dictionary, [getWordCounts] has an
    entry exactly for the lengths the dictionary has a word of, and the
    entry is the number of those words: no length is counted as 0. *)
Theorem getWordCounts_after_load (response : option string) (n : nat) :
  let d := load response newDictionary in
  getWordCounts d !! n
  = if decide (wordsOfLength d n = []) then None
    else Some (length (wordsOfLength d n)).
Proof.
  cbv zeta. unfold getWordCounts, wordsOfLength. rewrite lookup_fmap.
  pose proof (load_nonempty response n) as Hne.
  destruct (wordsByLength (load response newDictionary) !! n) as [words|]; [|done].
  simpl. by rewrite decide_False by by apply Hne.
Qed.

(** ** Storage keys *)

Section Keys.
Implicit Types (a b x y w : string) (l : list string).

Lemma append_cons (c : ascii) a b : (String c a +:+ b)%string = String c (a +:+ b).
Proof. done. Qed.

Lemma append_nil b : (EmptyString +:+ b)%string = b.
Proof. done. Qed.

Lemma list_ascii_append a b :
  list_ascii_of_string (a +:+ b) = list_ascii_of_string a ++ list_ascii_of_string b.
Proof.
  induction a as [|c a IH]; [done|].
  rewrite append_cons. cbn [list_ascii_of_string]. by rewrite IH.
Qed.

Ltac norm_append := repeat first [rewrite append_cons | rewrite append_nil].

(** Two words without a comma, each followed by a comma, start the same
    text only when they are the same word. *)
Lemma comma_split a b x y :
  commaFree a → commaFree b →
  (a +:+ "," +:+ x = b +:+ "," +:+ y)%string → a = b ∧ x = y.
Proof.
  unfold commaFree. revert b. induction a as [|c a IH]; intros b Ha Hb.
  - destruct b as [|c' b]; norm_append.
    + by intros [= ->].
    + intros [= <- _]. destruct Hb. apply list_elem_of_here.
  - destruct b as [|c' b]; norm_append.
    + intros [= -> _]. destruct Ha. apply list_elem_of_here.
    + intros [= -> H]. cbn [list_ascii_of_string] in Ha, Hb.
      apply not_elem_of_cons in Ha as [_ Ha], Hb as [_ Hb].
      assert (a +:+ "," +:+ x = b +:+ "," +:+ y)%string as H'
        by (by norm_append).
      by destruct (IH b Ha Hb H') as [-> ->].
Qed.

Lemma comma_free_no_join a b y :
  commaFree a → a ≠ (b +:+ "," +:+ y)%string.
Proof.
  intros Ha ->. apply Ha. rewrite !list_ascii_append.
  apply elem_of_app. right. apply list_elem_of_here.
Qed.

Lemma join_cons2 a b l :
  join "," (a :: b :: l) = (a +:+ "," +:+ join "," (b :: l))%string.
Proof. done. Qed.

Lemma join_inj l1 l2 :
  l1 ≠ [] → l2 ≠ [] →
  Forall commaFree l1 → Forall commaFree l2 →
  join "," l1 = join "," l2 → l1 = l2.
Proof.
  intros Hn1 Hn2 H1. revert l2 Hn2.
  induction H1 as [|a t1 Ha Ht1 IH]; [done|]. clear Hn1.
  intros [|b t2] Hn2 H2; [done|]. apply Forall_cons_1 in H2 as [Hb Ht2].
  destruct t1 as [|a' t1], t2 as [|b' t2].
  - by intros [= ->].
  - rewrite join_cons2. intros H. by apply comma_free_no_join in H.
  - rewrite join_cons2. intros H. symmetry in H. by apply comma_free_no_join in H.
  - rewrite !join_cons2. intros H.
    apply comma_split in H as [-> H]; [|done..].
    f_equal. by apply IH.
Qed.

Lemma join_not_default l :
  l ≠ [] → Forall keyWord l → join "," l ≠ "default"%string.
Proof.
  intros Hne Hl. destruct Hl as [|w l [_ Hw] _]; [done|].
  assert (∀ rest, (w +:+ rest)%string = "default"%string → w = EmptyString) as Hd.
  { intros rest. destruct w as [|c w]; [done|]. rewrite append_cons.
    intros [= -> _]. simpl in Hw. by injection Hw. }
  destruct l as [|w' l].
  - intros H. change (join "," [w]) with w in H. by subst.
  - rewrite join_cons2. intros H. pose proof (Hd _ H) as ->. by rewrite append_nil in H.
Qed.

Lemma Forall_keyWord_sort l : Forall keyWord l → Forall keyWord (sort l).
Proof. intros H. unfold sort. by rewrite merge_sort_Permutation. Qed.

Lemma sort_nonempty l : l ≠ [] → sort l ≠ [].
Proof.
  intros Hne Hs. pose proof (merge_sort_Permutation strLe l) as Hp.
  unfold sort in Hs. rewrite Hs in Hp. by apply Permutation_nil_l in Hp.
Qed.

Lemma key_append_inj x y :
  ("wordjam_foundWords_" +:+ x = "wordjam_foundWords_" +:+ y)%string → x = y.
Proof. norm_append. by intros [= ->]. Qed.
End Keys.

(** X27: two levels share their found-words record exactly when they
    are made of the same words, in any order: for level words in upper
    case and without a comma, the storage keys are equal if and only if
    the word lists are permutations of each other. *)
Theorem getFoundWordsStorageKey_same_words (st st2 : State) :
  Forall keyWord (currentLevelWords st) →
  Forall keyWord (currentLevelWords st2) →
  getFoundWordsStorageKey st = getFoundWordsStorageKey st2
  ↔ currentLevelWords st ≡ₚ currentLevelWords st2.
Proof.
  intros H1 H2. split; [|by intros H; apply getFoundWordsStorageKey_Permutation].
  unfold getFoundWordsStorageKey. cbv zeta.
  destruct (decide (currentLevelWords st = [])) as [E1|E1],
    (decide (currentLevelWords st2 = [])) as [E2|E2].
  - by rewrite E1, E2.
  - intros H. apply (key_append_inj "default") in H. symmetry in H.
    by apply join_not_default in H;
      [| apply sort_nonempty | apply Forall_keyWord_sort].
  - intros H. apply (key_append_inj _ "default") in H.
    by apply join_not_default in H;
      [| apply sort_nonempty | apply Forall_keyWord_sort].
  - intros H. apply key_append_inj, join_inj in H.
    + rewrite <- (merge_sort_Permutation strLe (currentLevelWords st)).
      rewrite <- (merge_sort_Permutation strLe (currentLevelWords st2)).
      unfold sort in H. by rewrite H.
    + by apply sort_nonempty.
    + by apply sort_nonempty.
    + eapply Forall_impl; [by apply Forall_keyWord_sort|]. by intros w [? _].
    + eapply Forall_impl; [by apply Forall_keyWord_sort|]. by intros w [? _].
Qed.

Lemma getFoundWordsStorageKey_same_words_witness :
  getFoundWordsStorageKey exampleLevel = getFoundWordsStorageKey exampleRevisit
  ↔ currentLevelWords exampleLevel ≡ₚ currentLevelWords exampleRevisit.
Proof.
  apply (getFoundWordsStorageKey_same_words exampleLevel exampleRevisit).
  - repeat constructor; apply (bool_decide_eq_false_1 _); by vm_compute.
  - repeat constructor; apply (bool_decide_eq_false_1 _); by vm_compute.
Defined.

(** * WordSlideGame *)

Section Slide.
Variables (d : Dictionary) (draws : list nat).
Implicit Types (g : WordSlide.Game) (st : State).

Lemma slide_length_levelWords : length (WordSlide.levelWords d draws).1 = 5%nat.
Proof.
  unfold WordSlide.levelWords. cbv zeta. case_decide as Hlen; [done|].
  pose proof (shuffleArray_Permutation draws (wordsOfLength d 3)) as Hperm.
  destruct (shuffleArray draws (wordsOfLength d 3)) as [shuffled draws'].
  simpl in *. apply Permutation_length in Hperm.
  rewrite length_take. lia.
Qed.

Lemma slide_levelWords_words :
  dictionaryWellFormed d →
  Forall (λ w, String.length w = 3%nat) (WordSlide.levelWords d draws).1.
Proof.
  intros Hd. unfold WordSlide.levelWords. cbv zeta.
  case_decide as Hlen; [by repeat constructor|].
  destruct (wordsOfLength_wellFormed d 3 Hd) as [_ Hall].
  pose proof (shuffleArray_Permutation draws (wordsOfLength d 3)) as Hperm.
  destruct (shuffleArray draws (wordsOfLength d 3)) as [shuffled draws'].
  simpl in *. apply Forall_take. rewrite Hperm.
  eapply Forall_impl; [exact Hall|]. by intros w [? _].
Qed.

(** The state a level of WordSlideGame starts in. *)
Lemma slide_generateNewLevel_shape g :
  ∃ grid,
    generateLettersGrid (WordSlide.levelWords d draws).2 (WordSlide.levelWords d draws).1
    = Some grid ∧
    WordSlide.generateNewLevel d draws g
    = Some (WordSlide.mkGame
              (initializeSelection
                 (set_letters grid.1
                    (set_currentWordLength 3%nat
                       (set_currentLevelWords (WordSlide.levelWords d draws).1
                          (WordSlide.shared g)))))
              (WordSlide.lives g) ∅).
Proof.
  pose proof slide_length_levelWords as Hlen.
  destruct (generateLettersGrid_is_Some (WordSlide.levelWords d draws).2
              (WordSlide.levelWords d draws).1) as [grid Hgrid].
  { intros E. by rewrite E in Hlen. }
  exists grid. split; [done|]. unfold WordSlide.generateNewLevel. cbv zeta.
  change (currentLevelWords (set_currentWordLength 3%nat (set_currentLevelWords ?w ?s)))
    with w.
  by rewrite Hgrid, mbind_Some.
Qed.

Lemma slide_level_fields (grid : list (list ascii)) (words : list string) st :
  let s := initializeSelection
             (set_letters grid
                (set_currentWordLength 3%nat (set_currentLevelWords words st))) in
  letters s = grid ∧
  currentLevelWords s = words ∧
  currentWordLength s = 3%nat ∧
  coins s = coins st ∧
  totalWordsFoundInSession s = totalWordsFoundInSession st ∧
  currentLevelNumber s = currentLevelNumber st ∧
  wordsNeededForProgression s = wordsNeededForProgression st ∧
  showGameOver s = showGameOver st ∧
  highscore s = highscore st ∧
  localStorage s = localStorage st.
Proof. done. Qed.

Lemma slide_updateHighscore_fields st :
  let s := WordSlide.updateHighscore st in
  coins s = coins st ∧
  totalWordsFoundInSession s = totalWordsFoundInSession st ∧
  currentLevelNumber s = currentLevelNumber st ∧
  wordsNeededForProgression s = wordsNeededForProgression st ∧
  showGameOver s = showGameOver st ∧
  letters s = letters st ∧
  selectedColumnIndices s = selectedColumnIndices st ∧
  currentLevelWords s = currentLevelWords st ∧
  highscore s = match highscore st with
                | Some h => Some (h `max` Z.of_nat (totalWordsFoundInSession st))
                | None => None
                end.
Proof.
  unfold WordSlide.updateHighscore. cbv zeta.
  destruct (highscore st) as [h|] eqn:Hh; [|by rewrite Hh].
  case_decide as Hlt.
  - split_and!; try done. unfold WordSlide.saveHighscore. simpl. f_equal. lia.
  - rewrite Hh. split_and!; try done. f_equal. lia.
Qed.

Lemma slide_setters_fields (n : nat) st :
  let s := set_currentLevelNumber n st in
  coins s = coins st ∧
  totalWordsFoundInSession s = totalWordsFoundInSession st ∧
  currentLevelNumber s = n ∧
  wordsNeededForProgression s = wordsNeededForProgression st ∧
  showGameOver s = showGameOver st.
Proof. done. Qed.

Lemma slide_showResult_fields m t st :
  let s := showResult m t st in
  coins s = coins st ∧
  totalWordsFoundInSession s = totalWordsFoundInSession st ∧
  currentLevelNumber s = currentLevelNumber st ∧
  wordsNeededForProgression s = wordsNeededForProgression st ∧
  showGameOver s = showGameOver st ∧
  letters s = letters st ∧
  selectedColumnIndices s = selectedColumnIndices st ∧
  currentLevelWords s = currentLevelWords st ∧
  highscore s = highscore st.
Proof. done. Qed.

Lemma slide_onShared_mk (f : State → State) st (lv : Z) (found : gset string) :
  WordSlide.onShared f (WordSlide.mkGame st lv found)
  = WordSlide.mkGame (f st) lv found.
Proof. done. Qed.

(** [progressToNextLevel] returns; it keeps lives, coins, session count
    and the game-over flag, and either refuses and keeps the level, or
    starts the next one with no word found. *)
Lemma slide_progressToNextLevel_outcome g :
  ∃ g', WordSlide.progressToNextLevel d draws g = Some g' ∧
    WordSlide.lives g' = WordSlide.lives g ∧
    coins (WordSlide.shared g') = coins (WordSlide.shared g) ∧
    totalWordsFoundInSession (WordSlide.shared g')
    = totalWordsFoundInSession (WordSlide.shared g) ∧
    showGameOver (WordSlide.shared g') = showGameOver (WordSlide.shared g) ∧
    if decide (wordsNeededForProgression (WordSlide.shared g)
               ≤ size (WordSlide.foundWords g))%nat
    then currentLevelNumber (WordSlide.shared g')
         = S (currentLevelNumber (WordSlide.shared g)) ∧
         WordSlide.foundWords g' = ∅ ∧
         currentLevelWords (WordSlide.shared g') = (WordSlide.levelWords d draws).1 ∧
         ∃ grid, generateLettersGrid (WordSlide.levelWords d draws).2
                   (WordSlide.levelWords d draws).1 = Some grid ∧
                 letters (WordSlide.shared g') = grid.1
    else currentLevelNumber (WordSlide.shared g')
         = currentLevelNumber (WordSlide.shared g) ∧
         WordSlide.foundWords g' = WordSlide.foundWords g ∧
         letters (WordSlide.shared g') = letters (WordSlide.shared g).
Proof.
  unfold WordSlide.progressToNextLevel.
  destruct (decide (size (WordSlide.foundWords g)
                    < wordsNeededForProgression (WordSlide.shared g))%nat)
    as [Hfew|Hfew].
  - eexists. split; [reflexivity|]. rewrite decide_False by lia. done.
  - cbv zeta.
    destruct g as [st lv found]. rewrite !slide_onShared_mk.
    cbn [WordSlide.shared WordSlide.lives WordSlide.foundWords] in *.
    destruct (slide_updateHighscore_fields st) as (Hc & Ht & Hn & Hw & Hg & _).
    set (s1 := WordSlide.updateHighscore st) in *. clearbody s1.
    destruct (slide_setters_fields (S (currentLevelNumber s1)) s1)
      as (Hc' & Ht' & Hn' & Hw' & Hg').
    set (s2 := set_currentLevelNumber _ s1) in *. clearbody s2.
    destruct (slide_generateNewLevel_shape (WordSlide.mkGame s2 lv found))
      as (grid & Hgrid & ->).
    rewrite mbind_Some. cbn [WordSlide.shared WordSlide.lives WordSlide.foundWords].
    destruct (slide_level_fields grid.1 (WordSlide.levelWords d draws).1 s2)
      as (Hl3 & Hw3 & _ & Hc3 & Ht3 & Hn3 & _ & Hg3 & _).
    set (s3 := initializeSelection _) in *. clearbody s3.
    eexists. split; [reflexivity|].
    rewrite slide_onShared_mk.
    cbn [WordSlide.shared WordSlide.lives WordSlide.foundWords].
    rewrite decide_True by lia.
    destruct (slide_showResult_fields
                ("Level " +:+ toString (currentLevelNumber s3) +:+ " - Find "
                   +:+ toString (wordsNeededForProgression s3) +:+ " words!")%string
                info s3) as (-> & -> & -> & _ & -> & -> & _ & -> & _).
    rewrite Hc3, Ht3, Hn3, Hg3, Hl3, Hw3, Hc', Ht', Hn', Hg', Hc, Ht, Hn, Hg.
    split_and!; try done. by exists grid.
Qed.
End Slide.

Section SlidePlay.
Variables (d : Dictionary) (draws : list nat).
Implicit Types (g : WordSlide.Game) (st : State) (ls : list (list ascii)).

Lemma slideAccepted_fields g :
  let g1 := slideAccepted g in
  WordSlide.lives g1 = WordSlide.lives g ∧
  WordSlide.foundWords g1
  = {[toUpperCase (buildWordFromSelection (WordSlide.shared g))]}
      ∪ WordSlide.foundWords g ∧
  coins (WordSlide.shared g1) = (coins (WordSlide.shared g) + 10)%nat ∧
  totalWordsFoundInSession (WordSlide.shared g1)
  = S (totalWordsFoundInSession (WordSlide.shared g)) ∧
  showGameOver (WordSlide.shared g1) = showGameOver (WordSlide.shared g) ∧
  currentLevelNumber (WordSlide.shared g1) = currentLevelNumber (WordSlide.shared g) ∧
  wordsNeededForProgression (WordSlide.shared g1)
  = wordsNeededForProgression (WordSlide.shared g) ∧
  letters (WordSlide.shared g1) = letters (removeUsedLetters (WordSlide.shared g)).
Proof. done. Qed.

(** [confirmWord], case by case. *)
Lemma slide_confirmWord_cases g :
  WordSlide.confirmWord d draws g
  = if decide (buildWordFromSelection (WordSlide.shared g) = EmptyString) then
      Some (WordSlide.onShared (showResult "Not a valid word" error) g)
    else if decide (submissionValid d (WordSlide.shared g)) then
      if isGridEmpty (WordSlide.shared (slideAccepted g))
      then WordSlide.progressToNextLevel d draws (slideAccepted g)
      else Some (WordSlide.onShared
                   (λ st, showResult
                            ("Found " +:+ quoted (toUpperCase
                               (buildWordFromSelection (WordSlide.shared g))))%string
                            success (autoAdvanceSelection st))
                   (slideAccepted g))
    else
      let g1 := WordSlide.onShared (showResult "Not a valid word. -1" error)
                  (WordSlide.mkGame (WordSlide.shared g) (WordSlide.lives g - 1)
                     (WordSlide.foundWords g)) in
      Some (if decide (WordSlide.lives g1 ≤ 0) then WordSlide.handleGameOver g1
            else g1).
Proof.
  unfold WordSlide.confirmWord. cbv zeta.
  destruct (decide (String.length _ = 0%nat)) as [H0|H0].
  - apply String_length_zero in H0. by rewrite decide_True.
  - rewrite (decide_False
               (P := buildWordFromSelection (WordSlide.shared g) = EmptyString))
      by (intros E; apply H0; by apply String_length_zero).
    destruct (decide (submissionValid d (WordSlide.shared g))) as [[Hv Hl]|Hn].
    + by rewrite Hv, bool_decide_eq_true_2 by done.
    + destruct (isValidWord d _) eqn:Hv; cbn [andb]; [|done].
      case_bool_decide as Hl; [|done]. by destruct Hn.
Qed.

Lemma slide_gameOver_fields g :
  let g1 := WordSlide.onShared (showResult "Not a valid word. -1" error)
              (WordSlide.mkGame (WordSlide.shared g) (WordSlide.lives g - 1)
                 (WordSlide.foundWords g)) in
  let g' := if decide (WordSlide.lives g1 ≤ 0) then WordSlide.handleGameOver g1
            else g1 in
  WordSlide.lives g' = WordSlide.lives g - 1 ∧
  WordSlide.foundWords g' = WordSlide.foundWords g ∧
  sameSession (WordSlide.shared g) (WordSlide.shared g') ∧
  showGameOver (WordSlide.shared g')
  = bool_decide (WordSlide.lives g ≤ 1) || showGameOver (WordSlide.shared g) ∧
  highscore (WordSlide.shared g')
  = if decide (WordSlide.lives g ≤ 1)
    then match highscore (WordSlide.shared g) with
         | Some h =>
             Some (h `max` Z.of_nat (totalWordsFoundInSession (WordSlide.shared g)))
         | None => None
         end
    else highscore (WordSlide.shared g).
Proof.
  cbv zeta. destruct g as [st lv found]. rewrite slide_onShared_mk.
  cbn [WordSlide.shared WordSlide.lives WordSlide.foundWords].
  destruct (decide (lv - 1 ≤ 0)) as [Hover|Halive].
  - rewrite bool_decide_eq_true_2, decide_True by lia.
    unfold WordSlide.handleGameOver. rewrite slide_onShared_mk.
    cbn [WordSlide.shared WordSlide.lives WordSlide.foundWords].
    destruct (slide_updateHighscore_fields
                (set_showGameOver true (showResult "Not a valid word. -1" error st)))
      as (H1 & H2 & H3 & _ & H5 & H6 & H7 & H8 & H9).
    unfold sameSession. rewrite H1, H2, H3, H5, H6, H7, H8, H9. done.
  - rewrite bool_decide_eq_false_2, decide_False by lia. done.
Qed.

Lemma letterCount_Permutation (r r' : list ascii) :
  r ≡ₚ r' → letterCount r = letterCount r'.
Proof. intros H. unfold letterCount. by rewrite H. Qed.

Lemma totalLetters_Forall2 ls ls' :
  Forall2 (≡ₚ) ls ls' → totalLetters ls = totalLetters ls'.
Proof.
  induction 1 as [|r r' ls ls' Hr _ IH]; [done|].
  rewrite !totalLetters_cons, IH. by rewrite (letterCount_Permutation r r').
Qed.

Lemma totalLetters_app_empty ls (k : nat) :
  totalLetters (ls ++ replicate k []) = totalLetters ls.
Proof.
  induction ls as [|r ls IH].
  - induction k as [|k IHk]; [done|]. exact IHk.
  - rewrite <- app_comm_cons, !totalLetters_cons. by rewrite IH.
Qed.

Lemma pushLetters_empty ls : WordSlide.pushLetters EmptyString ls = ls.
Proof.
  unfold WordSlide.pushLetters.
  rewrite (imap_ext _ (const id)) by done.
  by rewrite imap_const, list_fmap_id.
Qed.

Lemma pushLetters_cons (c : ascii) (w : string) (r : list ascii) ls :
  WordSlide.pushLetters (String c w) (r :: ls)
  = (r ++ [c]) :: WordSlide.pushLetters w ls.
Proof. unfold WordSlide.pushLetters. by rewrite imap_cons. Qed.

Lemma totalLetters_pushLetters (w : string) ls :
  (String.length w ≤ length ls)%nat →
  totalLetters (WordSlide.pushLetters w ls)
  = (totalLetters ls + letterCount (list_ascii_of_string w))%nat.
Proof.
  revert w. induction ls as [|r ls IH]; intros w Hlen.
  - destruct w; [done | simpl in Hlen; lia].
  - destruct w as [|c w].
    + rewrite pushLetters_empty. cbn [list_ascii_of_string].
      change (letterCount []) with 0%nat. lia.
    + rewrite pushLetters_cons, !totalLetters_cons, IH by (simpl in Hlen; lia).
      cbn [list_ascii_of_string].
      rewrite letterCount_app, (letterCount_cons c (list_ascii_of_string w)).
      rewrite (letterCount_cons c []). change (letterCount []) with 0%nat. lia.
Qed.

Lemma addRandomWord_fields (word : string) (draws' : list nat) st :
  let missing := (currentWordLength st - length (letters st))%nat in
  let st' :=
    showResult "Added random letters" success
      (validateAndFixIndices
         (set_letters
            (shuffleRows draws'
               (WordSlide.pushLetters word (letters st ++ replicate missing []))).1
            (set_selectedColumnIndices
               (selectedColumnIndices st ++ replicate missing 0)
               (set_coins (coins st - WordSlide.ADD_WORD_COST)%nat st)))) in
  coins st' = (coins st - WordSlide.ADD_WORD_COST)%nat ∧
  letters st'
  = (shuffleRows draws'
       (WordSlide.pushLetters word (letters st ++ replicate missing []))).1.
Proof. done. Qed.
End SlidePlay.

(** X28: in WordSlideGame a submission costs a life exactly when it
    builds a word that is not accepted: nothing else of the session
    changes then, and the game is over, with the highscore brought up to
    the session count, exactly when that was the last life. An empty
    selection costs nothing, and an accepted word pays ten coins and
    costs no life. *)
Theorem WordSlide_confirmWord_lives (d : Dictionary) (draws : list nat)
    (g : WordSlide.Game) :
  ∃ g', WordSlide.confirmWord d draws g = Some g' ∧
    if decide (buildWordFromSelection (WordSlide.shared g) = EmptyString) then
      WordSlide.onlyBanner g g'
    else if decide (submissionValid d (WordSlide.shared g)) then
      WordSlide.lives g' = WordSlide.lives g ∧
      coins (WordSlide.shared g') = (coins (WordSlide.shared g) + 10)%nat ∧
      totalWordsFoundInSession (WordSlide.shared g')
      = S (totalWordsFoundInSession (WordSlide.shared g)) ∧
      showGameOver (WordSlide.shared g') = showGameOver (WordSlide.shared g)
    else
      WordSlide.lives g' = WordSlide.lives g - 1 ∧
      WordSlide.foundWords g' = WordSlide.foundWords g ∧
      sameSession (WordSlide.shared g) (WordSlide.shared g') ∧
      showGameOver (WordSlide.shared g')
      = bool_decide (WordSlide.lives g ≤ 1) || showGameOver (WordSlide.shared g) ∧
      highscore (WordSlide.shared g')
      = if decide (WordSlide.lives g ≤ 1)
        then match highscore (WordSlide.shared g) with
             | Some h =>
                 Some (h `max` Z.of_nat (totalWordsFoundInSession (WordSlide.shared g)))
             | None => None
             end
        else highscore (WordSlide.shared g).
Proof.
  rewrite slide_confirmWord_cases.
  destruct (decide (buildWordFromSelection _ = EmptyString)) as [He|He].
  { eexists. split; [reflexivity|]. unfold WordSlide.onlyBanner.
    split_and!; [done | done |]. by eexists _, _. }
  destruct (decide (submissionValid d _)) as [Hv|Hv].
  - destruct (slideAccepted_fields g) as (Hl & _ & Hc & Ht & Hg & _).
    set (g1 := slideAccepted g) in *. clearbody g1.
    destruct (isGridEmpty (WordSlide.shared g1)).
    + destruct (slide_progressToNextLevel_outcome d draws g1)
        as (g' & -> & Hl' & Hc' & Ht' & Hg' & _).
      exists g'. split; [done|]. by rewrite Hl', Hc', Ht', Hg', Hl, Hc, Ht, Hg.
    + eexists. split; [reflexivity|]. destruct g1 as [s1 l1 f1].
      rewrite slide_onShared_mk.
      cbn [WordSlide.shared WordSlide.lives WordSlide.foundWords] in *.
      by rewrite <- Hl, <- Hc, <- Ht, <- Hg.
  - eexists. split; [reflexivity|]. apply slide_gameOver_fields.
Qed.

Example WordSlide_confirmWord_lives_example :
  let slip := WordSlide.onShared (set_selectedColumnIndices [0; 1; 1; 1; 1]) exampleSlide in
  buildWordFromSelection (WordSlide.shared slip) = "MAGLE"%string ∧
  (WordSlide.lives <$> WordSlide.confirmWord fallbackDictionary [] exampleSlide)
  = Some 1 ∧
  (WordSlide.lives <$> WordSlide.confirmWord fallbackDictionary [] slip) = Some 0 ∧
  (showGameOver ∘ WordSlide.shared
     <$> WordSlide.confirmWord fallbackDictionary [] slip) = Some true.
Proof. by vm_compute. Qed.




(** X30: the purchases of WordSlideGame never run into debt. [addLife]
    gives one life for exactly 60 coins and [addRandomWord] a word of the
    level's length for exactly 30; with fewer coins, or no such word in
    the dictionary, only the banner changes. The letters of the word
    are all added to the grid, one per row, the grid grows to as many
    rows as the word has letters, and the selection is valid again. *)
Theorem WordSlide_purchases (d : Dictionary) (draws : list nat) (g : WordSlide.Game) :
  dictionaryWellFormed d →
  (let g' := WordSlide.addLife g in
   if decide (60 ≤ coins (WordSlide.shared g))%nat
   then WordSlide.lives g' = WordSlide.lives g + 1 ∧
        (coins (WordSlide.shared g') + 60)%nat = coins (WordSlide.shared g) ∧
        WordSlide.foundWords g' = WordSlide.foundWords g ∧
        letters (WordSlide.shared g') = letters (WordSlide.shared g) ∧
        selectedColumnIndices (WordSlide.shared g')
        = selectedColumnIndices (WordSlide.shared g)
   else WordSlide.onlyBanner g g') ∧
  (let g' := WordSlide.addRandomWord d draws g in
   let n := currentWordLength (WordSlide.shared g) in
   if decide ((30 ≤ coins (WordSlide.shared g))%nat ∧ wordsOfLength d n ≠ [] ∧ n ≠ 0%nat)
   then WordSlide.lives g' = WordSlide.lives g ∧
        WordSlide.foundWords g' = WordSlide.foundWords g ∧
        (coins (WordSlide.shared g') + 30)%nat = coins (WordSlide.shared g) ∧
        length (letters (WordSlide.shared g'))
        = (length (letters (WordSlide.shared g)) `max` n)%nat ∧
        selectionValid (WordSlide.shared g') ∧
        ∃ w, w ∈ wordsOfLength d n ∧
             totalLetters (letters (WordSlide.shared g'))
             = (totalLetters (letters (WordSlide.shared g))
                + letterCount (list_ascii_of_string w))%nat
   else WordSlide.onlyBanner g g').
Proof.
  intros Hd. destruct g as [st lv found]. split; cbv zeta.
  - unfold WordSlide.addLife, WordSlide.ADD_LIFE_COST. cbv zeta.
    rewrite !slide_onShared_mk.
    cbn [WordSlide.shared WordSlide.lives WordSlide.foundWords].
    destruct (decide (coins st < 60)%nat) as [Hpoor|Hrich].
    + rewrite decide_False by lia. unfold WordSlide.onlyBanner.
      split_and!; [done | done |]. by eexists _, _.
    + rewrite decide_True by lia.
      repeat (rewrite ?slide_onShared_mk;
              cbn [WordSlide.shared WordSlide.lives WordSlide.foundWords]).
      split_and!; try done. simpl. lia.
  - unfold WordSlide.addRandomWord, WordSlide.ADD_WORD_COST.
    cbn [WordSlide.shared WordSlide.lives WordSlide.foundWords].
    assert (∀ m t, WordSlide.onlyBanner (WordSlide.mkGame st lv found)
                     (WordSlide.onShared (showResult m t)
                        (WordSlide.mkGame st lv found))) as Hbanner.
    { intros m t. unfold WordSlide.onlyBanner.
      split_and!; [done | done |]. by eexists _, _. }
    destruct (decide (coins st < 30)%nat) as [Hpoor|Hrich].
    { rewrite decide_False by lia. apply Hbanner. }
    destruct (randomWord_bucket d draws (currentWordLength st)) as [Hnone Hsome].
    destruct (decide (wordsOfLength d (currentWordLength st) = [])) as [Hnil|Hne].
    { rewrite (Hnone Hnil). rewrite decide_False by tauto. apply Hbanner. }
    destruct (Hsome Hne) as (w & Hw & Hin & _).
    destruct (randomWord d draws (currentWordLength st)) as [picked draws'].
    cbn [fst] in Hw. subst picked.
    destruct (wordsOfLength_wellFormed d (currentWordLength st) Hd) as [_ Hall].
    rewrite Forall_forall in Hall. destruct (Hall w Hin) as [Hlen _].
    destruct w as [|c w].
    { rewrite decide_False by (simpl in Hlen; lia). apply Hbanner. }
    rewrite decide_True by (simpl in Hlen; split_and!; [lia | done | lia]).
    rewrite slide_onShared_mk.
    cbn [WordSlide.shared WordSlide.lives WordSlide.foundWords]. cbv zeta.
    change (letters (set_coins ?n st)) with (letters st).
    change (currentWordLength (set_coins ?n st)) with (currentWordLength st).
    change (coins (set_coins ?n st)) with n.
    change (selectedColumnIndices (set_letters ?l (set_coins ?n st)))
      with (selectedColumnIndices st).
    change (letters (set_selectedColumnIndices ?s (set_letters ?l ?t))) with l.
    change (letters (set_letters ?l ?t)) with l.
    set (missing := (currentWordLength st - length (letters st))%nat).
    set (rows := letters st ++ replicate missing []).
    set (grid := (shuffleRows draws' (WordSlide.pushLetters (String c w) rows)).1).
    match goal with
    | |- context [showResult ?m ?t (validateAndFixIndices ?s)] =>
        set (s1 := s);
        assert (letters s1 = grid ∧ coins s1 = (coins st - 30)%nat) as [Hl1 Hc1]
          by done
    end.
    clearbody s1.
    pose proof (validateAndFixIndices_valid s1) as Hvalid.
    pose proof (validateAndFixIndices_letters s1) as Hl2.
    assert (coins (validateAndFixIndices s1) = coins s1) as Hc2 by done.
    set (s2 := validateAndFixIndices s1) in *. clearbody s2.
    destruct (slide_showResult_fields "Added random letters" success s2)
      as (-> & _ & _ & _ & _ & -> & _).
    rewrite Hl2, Hl1, Hc2, Hc1.
    pose proof (shuffleRows_Forall2 draws' (WordSlide.pushLetters (String c w) rows))
      as Hperm. fold grid in Hperm.
    assert (length rows = (length (letters st) `max` currentWordLength st)%nat)
      as Hrows.
    { unfold rows, missing. rewrite length_app, length_replicate. lia. }
    split_and!; [done | done | lia | | |].
    + rewrite (Forall2_length _ _ _ Hperm). unfold WordSlide.pushLetters.
      by rewrite length_imap.
    + by apply selectionValid_showResult.
    + exists (String c w). split; [done|].
      rewrite (totalLetters_Forall2 _ _ Hperm), totalLetters_pushLetters by lia.
      unfold rows. by rewrite totalLetters_app_empty.
Qed.

Lemma WordSlide_purchases_witness :
  (let g' := WordSlide.addLife exampleSlide in
   if decide (60 ≤ coins (WordSlide.shared exampleSlide))%nat
   then WordSlide.lives g' = WordSlide.lives exampleSlide + 1 ∧
        (coins (WordSlide.shared g') + 60)%nat = coins (WordSlide.shared exampleSlide) ∧
        WordSlide.foundWords g' = WordSlide.foundWords exampleSlide ∧
        letters (WordSlide.shared g') = letters (WordSlide.shared exampleSlide) ∧
        selectedColumnIndices (WordSlide.shared g')
        = selectedColumnIndices (WordSlide.shared exampleSlide)
   else WordSlide.onlyBanner exampleSlide g') ∧
  (let g' := WordSlide.addRandomWord exampleDictionary [] exampleSlide in
   let n := currentWordLength (WordSlide.shared exampleSlide) in
   if decide ((30 ≤ coins (WordSlide.shared exampleSlide))%nat ∧ wordsOfLength exampleDictionary n ≠ [] ∧ n ≠ 0%nat)
   then WordSlide.lives g' = WordSlide.lives exampleSlide ∧
        WordSlide.foundWords g' = WordSlide.foundWords exampleSlide ∧
        (coins (WordSlide.shared g') + 30)%nat = coins (WordSlide.shared exampleSlide) ∧
        length (letters (WordSlide.shared g'))
        = (length (letters (WordSlide.shared exampleSlide)) `max` n)%nat ∧
        selectionValid (WordSlide.shared g') ∧
        ∃ w, w ∈ wordsOfLength exampleDictionary n ∧
             totalLetters (letters (WordSlide.shared g'))
             = (totalLetters (letters (WordSlide.shared exampleSlide))
                + letterCount (list_ascii_of_string w))%nat
   else WordSlide.onlyBanner exampleSlide g').
Proof.
  apply (WordSlide_purchases exampleDictionary [] exampleSlide).
  apply exampleDictionary_wellFormed.
Defined.

Example WordSlide_purchases_example :
  coins (WordSlide.shared (WordSlide.addLife exampleSlide)) = 30%nat ∧
  WordSlide.lives (WordSlide.addLife (WordSlide.addLife exampleSlide)) = 2 ∧
  letters (WordSlide.shared (WordSlide.addRandomWord exampleDictionary [] exampleSlide))
  = [["E"; "C"; "M"]; ["A"; "R"; "O"]; ["G"; "A"; "U"]; ["L"; "N"; "S"];
     ["E"; "E"; "E"]]%char.
Proof. by vm_compute. Qed.
